(** * ghpr-tools: the crawler (crawler.py) and the dataset writer (writer.py)

    A shallow embedding of the date-bounded crawl engine, its request
    fetcher, the boundary search over page numbers, the linked-issue
    extractor, the loop of [main] over the repositories, the diff
    attribution pass and the export of a repository to the dataset,
    followed by the properties established about them.

    Conventions of the embedding.
    - Python integers are [Z].  Text is a list of characters ([list ascii]);
      a character is a code point below 256, and the character classes of the
      regular expressions ([\s], [\w], [\d], case folding) are the ones Python
      uses for [str] patterns on that range: the letters and digit-like
      characters of Latin-1 are word characters, 133 and 160 are white space,
      and only 0 to 9 are digits.
    - A creation time is the integer [_iso_to_unix] yields for the item's
      [created_at] field; the parsing of the ISO text is not modelled.
    - The network and the file system are explicit: a [network] answers each
      request, and a [world] records the requests made and the files written,
      in order. *)

From Stdlib Require Import ZArith Lia Ascii String.
From stdpp Require Import base list sorting gmap.

Local Open Scope Z_scope.

(** ** Outcomes of running a piece of the program *)

(** The exceptions the modelled code can raise. *)
Inductive exn : Type :=
| TooManyRequestFailures
| TypeError
| ValueError
| KeyError
| IndexError
| AttributeError
| FileNotFoundError.

(** A call either returns a value, raises, or is still running when the
    budget of recursive calls (or loop iterations, or scripted network
    answers) given to the model is used up. *)
Inductive outcome (A : Type) : Type :=
| Returns (a : A)
| Raises (e : exn)
| Unfinished.

Arguments Returns {A} a.
Arguments Raises {A} e.
Arguments Unfinished {A}.

(** ** Items, requests and the network *)

Definition text : Type := list ascii.

(** The fields of a pull request or issue of a list page that the crawler
    reads: [p['number']], [_iso_to_unix(p['created_at'])], [p.get('body')]. *)
Record item : Type := Item {
  number : Z;
  created_at : Z;
  body : option text
}.

Inductive stream : Type := Pulls | Issues.

(** The full pull object of [_pull_url_template]: its [diff_url], the list
    stored under [linked_issue_numbers] (absent until the crawler adds it). *)
Record pull_object : Type := PullObject {
  pull_number : Z;
  diff_url : text;
  linked_issue_numbers : option (list Z)
}.

Inductive request : Type :=
| ListPage (s : stream) (page : Z)
| PullDetail (n : Z)
| DiffOf (url : text)
| IssueDetail (n : Z).

(** How a call of [_get] on a URL ends: [(r, True)], [({}, False)] for a
    404, or an exception out of the retry loop. *)
Inductive fetched (A : Type) : Type :=
| Got (a : A)
| Absent
| Failed (e : exn).

Arguments Got {A} a.
Arguments Absent {A}.
Arguments Failed {A} e.

(** The [Link] header of a list page: missing, present without a
    [rel="last"] entry, or naming the last page. *)
Inductive link_header : Type :=
| NoLink
| LinkWithoutLast
| LinkLast (last_page : Z).

(** What the server holds, as a call of [_get] finds it: the list pages of
    both streams, the [Link] header of their first page, the pull objects
    by number, the diffs by URL, and the issue objects by number (an issue
    object is stood for by an integer). *)
Record network : Type := Network {
  list_page : stream -> Z -> fetched (list item);
  link_of_first_page : stream -> link_header;
  pull_detail : Z -> fetched pull_object;
  diff_text : text -> fetched text;
  issue_detail : Z -> fetched Z
}.

(** A file written by [_save_json] or [_save_txt]. *)
Inductive file : Type :=
| PullsPageFile (page : Z) (pulls : list item)
| DiffFile (n : Z) (content : text)
| PullFile (n : Z) (pull : pull_object)
| IssueFile (n : Z) (issue : Z).

Record world : Type := World {
  requested : list request;
  written : list file
}.

Definition empty_world : world := World [] [].

(** ** A state-and-exception monad over the world *)

Definition M (A : Type) : Type := world -> outcome A * world.

Definition ret {A} (a : A) : M A := fun w => (Returns a, w).
Definition raise {A} (e : exn) : M A := fun w => (Raises e, w).
Definition unfinished {A} : M A := fun w => (Unfinished, w).

Definition bind {A B} (m : M A) (k : A -> M B) : M B := fun w =>
  match m w with
  | (Returns a, w') => k a w'
  | (Raises e, w') => (Raises e, w')
  | (Unfinished, w') => (Unfinished, w')
  end.

Notation "'let*' x ':=' m 'in' k" := (bind m (fun x => k))
  (at level 10, x name, m at level 200, k at level 200).
Notation "'let*' '_' ':=' m 'in' k" := (bind m (fun _ => k))
  (at level 10, m at level 200, k at level 200).

Definition log_request (r : request) : M unit := fun w =>
  (Returns tt, World (requested w ++ [r]) (written w)).

Definition save (f : file) : M unit := fun w =>
  (Returns tt, World (requested w) (written w ++ [f])).

(** [self._get(url)] / [self._get_json(url)] seen from the crawl: the request
    is made, and the call returns the pair [(r, ok)] ([Some r] when [ok]) or
    lets the exception through. *)
Definition fetch {A} (r : request) (answer : fetched A) : M (option A) :=
  let* _ := log_request r in
  match answer with
  | Got a => ret (Some a)
  | Absent => ret None
  | Failed e => raise e
  end.

(** ** The crawler's attributes *)

(** Midnight UTC of the [n]-th day after 1970-01-01: the form of
    [_iso_to_unix(date + "T00:00:00Z")], which both bounds of the window
    have. *)
Definition day (n : Z) : Z := n * 86400.

Record Crawler : Type := {
  per_page : Z;
  save_pull_pages : bool;
  max_request_tries : Z;
  request_retry_wait_secs : Z;
  start_date : Z;
  end_date : Z;
  _max_issue_number : Z
}.

(** ** Boundary search: [_find_start_page], [_find_end_page] *)

(** [round(n / 2)] of Python 3: [/] is true division and [round] sends a
    value halfway between two integers to the even one.  (Exact for
    [|n| < 2^53], the range in which the float [n / 2] is exact.) *)
Definition round_half (n : Z) : Z :=
  if Z.even n then n / 2
  else if Z.even (n / 2) then n / 2 else n / 2 + 1.

(** [pulls[-1]] on a non-empty list. *)
Definition last_item (p0 : item) (ps : list item) : item := List.last ps p0.

Section BoundarySearch.
Variable self : Crawler.
Variable net : network.

Definition _get_json_page (s : stream) (page : Z) : M (option (list item)) :=
  fetch (ListPage s page) (list_page net s page).

(** [depth] is the number of nested calls still allowed; the source
    recurses without a bound of its own. *)
Fixpoint _find_start_page (depth : nat) (s : stream) (start end_ : Z) : M Z :=
  match depth with
  | O => unfinished
  | S depth' =>
    let mid := round_half (start + end_) in
    let* pulls := _get_json_page s mid in
    match pulls with
    | None => raise KeyError
    | Some [] => raise IndexError
    | Some (p0 :: ps) =>
      let first_date := created_at p0 in
      let last_date := created_at (last_item p0 ps) in
      if start =? end_ then
        if last_date <? start_date self then ret (mid + 1) else ret mid
      else if start_date self <? first_date then
        _find_start_page depth' s start mid
      else if last_date <? start_date self then
        _find_start_page depth' s mid end_
      else ret mid
    end
  end.

Fixpoint _find_end_page (depth : nat) (s : stream) (start end_ : Z) : M Z :=
  match depth with
  | O => unfinished
  | S depth' =>
    let mid := round_half (start + end_) in
    let* pulls := _get_json_page s mid in
    match pulls with
    | None => raise KeyError
    | Some [] => raise IndexError
    | Some (p0 :: ps) =>
      let first_date := created_at p0 in
      let last_date := created_at (last_item p0 ps) in
      if start =? end_ then
        if end_date self <? first_date then ret (mid - 1) else ret mid
      else if end_date self <? first_date then
        _find_end_page depth' s start mid
      else if last_date <? end_date self then
        _find_end_page depth' s mid end_
      else ret mid
    end
  end.

(** [last_page = int(_last_page_pattern.findall(r.headers['Link'])[0])]
    after [r, ok = self._get(url.format(page=1))]. *)
Definition _last_page_of_first (s : stream) : M Z :=
  let* r := _get_json_page s 1 in
  match r with
  | None => raise AttributeError
  | Some _ =>
    match link_of_first_page net s with
    | NoLink => raise KeyError
    | LinkWithoutLast => raise IndexError
    | LinkLast n => ret n
    end
  end.

Definition _get_starting_page (depth : nat) (s : stream) : M Z :=
  let* last_page := _last_page_of_first s in
  _find_start_page depth s 1 last_page.

Definition _get_ending_page (depth : nat) (s : stream) : M Z :=
  let* last_page := _last_page_of_first s in
  _find_end_page depth s 1 last_page.

(** [_iso_to_unix("2015-01-01T00:00:00Z")]: 16436 days after the epoch. *)
Definition epoch_2015 : Z := day 16436.

(** Lines 171-180 (pulls) and 181-190 (issues) of [crawl]: the start page
    of a stream from the caller's [start_page] argument. *)
Definition resolve_start_page (depth : nat) (s : stream) (start_page : Z) : M Z :=
  if start_page <? 1 then
    let start_page := if start_date self <? epoch_2015 then 1 else start_page in
    let* start_page := _get_starting_page depth s in
    ret start_page
  else ret start_page.

(** Lines 192-203 and 204-214 of [crawl]; [now] is [time.time()]. *)
Definition resolve_end_page (depth : nat) (now : Z) (s : stream) (end_page : Z) : M Z :=
  if end_page <? 1 then
    if now <? end_date self then ret (-1)
    else _get_ending_page depth s
  else ret end_page.

End BoundarySearch.

(** ** The request fetcher: [_try_to_get] and [_get] *)

(** What the fetcher reads of a [requests] response: the status code, the
    two rate-limit headers as integers when present, and whether the
    payload is a JSON object carrying a ['message'] key. *)
Record response : Type := Response {
  status_code : Z;
  ratelimit_remaining : option Z;
  ratelimit_reset : option Z;
  error_message : bool
}.

(** [r.ok] of [requests]: false exactly for the statuses 400 to 599. *)
Definition ok (r : response) : bool :=
  negb ((400 <=? status_code r) && (status_code r <? 600)).

(** One call of [requests.get]: it raises, or a response comes back. *)
Inductive attempt : Type :=
| ConnectionFails
| Answers (r : response).

(** The fetcher's surroundings: the clock [time.time()], the durations
    passed to [time.sleep] so far, and the answers the server will give to
    the coming calls of [requests.get]. *)
Record wire : Type := Wire {
  clock : Z;
  slept : list Z;
  script : list attempt
}.

(** The first component of what [_try_to_get] returns: [{}] or a response. *)
Inductive reply : Type :=
| EmptyDict
| Full (r : response).

(** The value [_try_to_get] returns: the bare [None] of lines 384 and 387,
    or a pair whose first component may be [None]. *)
Inductive tried : Type :=
| BareNone
| Pair (r : option reply) (ok : bool).

(** The answers line 375 takes for rate limiting. *)
Definition ratelimit_hit (r : response) : option Z :=
  match ratelimit_remaining r, ratelimit_reset r with
  | Some remaining, Some reset => if remaining <? 1 then Some reset else None
  | _, _ => None
  end.

(** A negative [time.sleep] raises [ValueError] inside the [try] block,
    which the [except] clause turns into the bare [None].  Each
    rate-limited answer nests one more call; the nesting is as deep as the
    run of such answers is long. *)
Fixpoint _try_to_get (script : list attempt) (clock : Z) (slept : list Z)
  : outcome tried * wire :=
  match script with
  | [] => (Unfinished, Wire clock slept [])
  | ConnectionFails :: rest => (Returns BareNone, Wire clock slept rest)
  | Answers r :: rest =>
    if negb (ok r) then
      if status_code r =? 404 then
        (Returns (Pair (Some EmptyDict) false), Wire clock slept rest)
      else
        match ratelimit_hit r with
        | Some reset =>
          let ratelimit_wait_secs := reset - clock + 1 in
          if ratelimit_wait_secs <? 0 then
            (Returns BareNone, Wire clock slept rest)
          else
            _try_to_get rest (clock + ratelimit_wait_secs)
                        (slept ++ [ratelimit_wait_secs])
        | None => (Returns (Pair None false), Wire clock slept rest)
        end
    else if error_message r then (Returns BareNone, Wire clock slept rest)
    else (Returns (Pair (Some (Full r)) true), Wire clock slept rest)
  end.

(** The [while True] loop of [_get] from a given value of [tries].
    Unpacking the bare [None] into [r, ok] raises [TypeError]. *)
Fixpoint _get_loop (fuel : nat) (self : Crawler) (tries : Z) (w : wire)
  : outcome (reply * bool) * wire :=
  match fuel with
  | O => (Unfinished, w)
  | S fuel' =>
    match _try_to_get (script w) (clock w) (slept w) with
    | (Returns BareNone, w') => (Raises TypeError, w')
    | (Returns (Pair (Some r) ok), w') => (Returns (r, ok), w')
    | (Returns (Pair None _), w') =>
      let tries := tries + 1 in
      if max_request_tries self <=? tries then
        (Raises TooManyRequestFailures, w')
      else if request_retry_wait_secs self <? 0 then (Raises ValueError, w')
      else
        _get_loop fuel' self tries
          (Wire (clock w' + request_retry_wait_secs self)
                (slept w' ++ [request_retry_wait_secs self])
                (script w'))
    | (Raises e, w') => (Raises e, w')
    | (Unfinished, w') => (Unfinished, w')
    end
  end.

(** Every iteration of the loop uses up at least one scripted answer, so
    one more iteration than there are answers is enough. *)
Definition _get (self : Crawler) (w : wire) : outcome (reply * bool) * wire :=
  _get_loop (S (length (script w))) self 0 w.

(** ** The link extractor *)

(** *** Characters *)

Definition code (c : ascii) : N := N_of_ascii c.

Definition is_digit (c : ascii) : bool :=
  ((48 <=? code c) && (code c <=? 57))%N.

Definition is_upper (c : ascii) : bool :=
  ((65 <=? code c) && (code c <=? 90))%N.

Definition is_lower (c : ascii) : bool :=
  ((97 <=? code c) && (code c <=? 122))%N.

(** The characters from 128 to 255 that [str.isalnum] accepts: the
    ordinal indicators 170 and 186, the superscripts 178, 179 and 185, the
    micro sign 181, the fractions 188 to 190, and the letters from 192 on
    but for the signs 215 and 247. *)
Definition is_latin1_alnum (c : ascii) : bool :=
  ((code c =? 170) || (code c =? 178) || (code c =? 179) || (code c =? 181)
   || (code c =? 185) || (code c =? 186)
   || ((188 <=? code c) && (code c <=? 190))
   || ((192 <=? code c) && (code c <=? 214))
   || ((216 <=? code c) && (code c <=? 246))
   || ((248 <=? code c) && (code c <=? 255)))%N.

(** The upper-case letters of Latin-1 whose lower case is below 256. *)
Definition is_latin1_upper (c : ascii) : bool :=
  (((192 <=? code c) && (code c <=? 214))
   || ((216 <=? code c) && (code c <=? 222)))%N.

(** [\w] of a [str] pattern: letters, digits and the underscore. *)
Definition is_word (c : ascii) : bool :=
  is_digit c || is_upper c || is_lower c || (code c =? 95)%N
  || is_latin1_alnum c.

(** [\s] of a [str] pattern: tab, line feed, vertical tab, form feed,
    carriage return, the four separators 28 to 31, the space, the next-line
    control 133 and the no-break space 160. *)
Definition is_space (c : ascii) : bool :=
  (((9 <=? code c) && (code c <=? 13))
   || ((28 <=? code c) && (code c <=? 31))
   || (code c =? 32) || (code c =? 133) || (code c =? 160))%N.

Definition newline : ascii := ascii_of_N 10.

Definition is_newline (c : ascii) : bool := (code c =? 10)%N.

(** Case folding of [re.IGNORECASE]. *)
Definition fold_case (c : ascii) : ascii :=
  if is_upper c || is_latin1_upper c then ascii_of_N (code c + 32) else c.

Definition same_char (a b : ascii) : bool := (code a =? code b)%N.

Definition str (s : string) : text := list_ascii_of_string s.

(** *** A backtracking matcher for the constructs the patterns use *)

Inductive regex : Type :=
| Nothing
| Lit (c : ascii)
| AnyChar
| Plus (class : ascii -> bool)
| LazyStar (class : ascii -> bool)
| WordBoundary
| StartOfText
| EndOfText
| Seq (r1 r2 : regex)
| Alt (r1 r2 : regex)
| Group (r : regex).

(** A compiled pattern: the expression and the [re.IGNORECASE] flag. *)
Record compiled : Type := Compiled {
  ignorecase : bool;
  pattern : regex
}.

(** A match in progress: the character before the current position, the
    text left, and the text of the capture group once it is closed. *)
Definition continuation : Type :=
  option ascii -> text -> option text -> option (text * text).

Definition is_word_at (c : option ascii) : bool :=
  match c with
  | Some c => is_word c
  | None => false
  end.

(** Greedy [class+] once one character is taken: take more first, and give
    the last one back only when the rest of the pattern fails. *)
Fixpoint plus_more (class : ascii -> bool) (prev : ascii) (s : text)
    (cap : option text) (k : continuation) : option (text * text) :=
  match s with
  | x :: s' =>
    if class x then
      match plus_more class x s' cap k with
      | Some m => Some m
      | None => k (Some prev) s cap
      end
    else k (Some prev) s cap
  | [] => k (Some prev) [] cap
  end.

(** Lazy [class*?]: try the rest of the pattern first, and take one more
    character only when it fails. *)
Fixpoint lazy_star (class : ascii -> bool) (prev : option ascii) (s : text)
    (cap : option text) (k : continuation) : option (text * text) :=
  match k prev s cap with
  | Some m => Some m
  | None =>
    match s with
    | x :: s' => if class x then lazy_star class (Some x) s' cap k else None
    | [] => None
    end
  end.

Definition char_matches (ic : bool) (x c : ascii) : bool :=
  if ic then same_char (fold_case x) (fold_case c) else same_char x c.

(** [$] without [re.MULTILINE]: the end of the text, or just before a
    line feed that ends it. *)
Definition at_end (s : text) : bool :=
  match s with
  | [] => true
  | [c] => is_newline c
  | _ => false
  end.

Fixpoint rmatch (ic : bool) (r : regex) (prev : option ascii) (s : text)
    (cap : option text) (k : continuation) : option (text * text) :=
  match r with
  | Nothing => k prev s cap
  | Lit c =>
    match s with
    | x :: s' => if char_matches ic x c then k (Some x) s' cap else None
    | [] => None
    end
  | AnyChar =>
    match s with
    | x :: s' => if is_newline x then None else k (Some x) s' cap
    | [] => None
    end
  | Plus class =>
    match s with
    | x :: s' => if class x then plus_more class x s' cap k else None
    | [] => None
    end
  | LazyStar class => lazy_star class prev s cap k
  | WordBoundary =>
    if xorb (is_word_at prev) (is_word_at (head s)) then k prev s cap else None
  | StartOfText =>
    match prev with
    | None => k prev s cap
    | Some _ => None
    end
  | EndOfText => if at_end s then k prev s cap else None
  | Seq r1 r2 => rmatch ic r1 prev s cap (fun p s' c => rmatch ic r2 p s' c k)
  | Alt r1 r2 =>
    match rmatch ic r1 prev s cap k with
    | Some m => Some m
    | None => rmatch ic r2 prev s cap k
    end
  | Group r1 =>
    rmatch ic r1 prev s cap
      (fun p s' _ => k p s' (Some (take (length s - length s') s)))
  end.

(** The end of the pattern: the capture (empty when the group did not
    take part) and the text after the match. *)
Definition matched : continuation :=
  fun _ rest cap => Some (default [] cap, rest).

(** [regex.findall(s)] for a pattern with one group: the captures of the
    successive leftmost matches, the search resuming where the previous
    match ended.  [skip] counts the characters of the last match still to
    step over. *)
Fixpoint findall_from (re : compiled) (prev : option ascii) (s : text)
    (skip : nat) : list text :=
  let rmatch := rmatch (ignorecase re) (pattern re) in
  match s with
  | [] =>
    match skip, rmatch prev [] None matched with
    | O, Some (cap, _) => [cap]
    | _, _ => []
    end
  | x :: s' =>
    match skip with
    | S n => findall_from re (Some x) s' n
    | O =>
      match rmatch prev s None matched with
      | Some (cap, rest) =>
        cap :: findall_from re (Some x) s' (length s - length rest - 1)
      | None => findall_from re (Some x) s' 0
      end
    end
  end.

Definition findall (re : compiled) (s : text) : list text :=
  findall_from re None s 0.

(** [regex.match(s)]: a match at the start of [s]; the result is
    [group(1)] of the match object. *)
Definition re_match (re : compiled) (s : text) : option text :=
  fst <$> rmatch (ignorecase re) (pattern re) None s None matched.

(** *** The pattern of linked issues *)

Definition lit (s : text) : regex := foldr (fun c r => Seq (Lit c) r) Nothing s.

(** [name.replace('.', r'\.')]. *)
Definition escape_dots (name : text) : text :=
  flat_map (fun c => if same_char c "." then ["\"; "."]%char else [c]) name.

(** The regular expression a name stands for once it is substituted into
    the template.  Line 32 escapes the dots only, and [re.compile] reads
    what is left as a pattern: the characters of a GitHub name (letters,
    digits, [-] and [_]) stand for themselves, the backslash that line 32
    puts before a dot makes the dot literal, a bare dot matches any
    character but the line feed, and [^] and [$] are the anchors of the
    start and of the end of the text.  The other operators of [re]
    (parentheses, brackets, braces, [*], [+], [?], [|], a backslash before a
    letter or a digit) are not modelled: the properties that depend on how
    a name is read are stated for names without them. *)
Fixpoint compile_name (source : text) : regex :=
  match source with
  | [] => Nothing
  | c :: rest =>
    if same_char c "\" then
      match rest with
      | e :: rest' => Seq (Lit e) (compile_name rest')
      | [] => Nothing
      end
    else if same_char c "." then Seq AnyChar (compile_name rest)
    else if same_char c "^" then Seq StartOfText (compile_name rest)
    else if same_char c "$" then Seq EndOfText (compile_name rest)
    else Seq (Lit c) (compile_name rest)
  end.

Definition closing_keywords : regex :=
  Alt (lit (str "close")) (Alt (lit (str "closes")) (Alt (lit (str "closed"))
  (Alt (lit (str "fix")) (Alt (lit (str "fixes")) (Alt (lit (str "fixed"))
  (Alt (lit (str "resolve")) (Alt (lit (str "resolves"))
       (lit (str "resolved"))))))))).

(** [_linked_issues_pattern_template] with [owner] and [repo] filled in. *)
Definition _linked_issues_pattern (owner repo : regex) : regex :=
  Seq WordBoundary
  (Seq closing_keywords
  (Seq (Plus is_space)
  (Seq (Alt (Seq (lit (str "https://github.com/"))
                 (Seq owner (Seq (Lit "/") (Seq repo (lit (str "/issues/"))))))
       (Alt (Seq owner (Seq (Lit "/") (Seq repo (Lit "#"))))
            (Lit "#")))
  (Seq (Group (Plus is_digit)) WordBoundary)))).

Definition _make_linked_issues_regex (owner repo : text) : compiled :=
  let owner := escape_dots owner in
  let repo := escape_dots repo in
  Compiled true (_linked_issues_pattern (compile_name owner) (compile_name repo)).

(** [int(n)] on a run of decimal digits. *)
Definition int_of_digits (n : text) : Z :=
  fold_left (fun acc c => 10 * acc + (Z.of_N (code c) - 48)) n 0.

Definition _extract_linked_issue_numbers (pull_body : option text)
    (linked_issues_regex : compiled) : list Z :=
  match pull_body with
  | None => []
  | Some pull_body => map int_of_digits (findall linked_issues_regex pull_body)
  end.

(** ** The crawl loops of [crawl] *)

(** [num_issues], [num_pulls] and the memo [list_issues] of the issues
    saved during the pulls pass. *)
Record counters : Type := Counters {
  num_issues : Z;
  num_pulls : Z;
  list_issues : gset Z
}.

Definition with_linked (pull : pull_object) (ns : list Z) : pull_object :=
  PullObject (pull_number pull) (diff_url pull) (Some ns).

Section CrawlLoops.
Variable self : Crawler.
Variable net : network.

(** Whether the interrupt handler has set [self._interrupted] by the time
    the world is as given (after line 222 cleared the flag). *)
Variable sigint : world -> bool.

Variable linked_issues_regex : compiled.

Definition read_interrupted : M bool := fun w => (Returns (sigint w), w).

(** [_iso_to_unix(created_at) < self.start_date or ... > self.end_date]. *)
Definition outside_window (t : Z) : bool :=
  (t <? start_date self) || (end_date self <? t).

(** [self._max_issue_number > 0 and num_issues >= self._max_issue_number]. *)
Definition cap_reached (n : Z) : bool :=
  (0 <? _max_issue_number self) && (_max_issue_number self <=? n).

(** Lines 246-252: the issues a pull links. *)
Fixpoint save_linked_issues (ns : list Z) (c : counters) : M counters :=
  match ns with
  | [] => ret c
  | issue_number :: ns' =>
    let* issue := fetch (IssueDetail issue_number) (issue_detail net issue_number) in
    match issue with
    | None => save_linked_issues ns' c
    | Some issue =>
      let* _ := save (IssueFile issue_number issue) in
      save_linked_issues ns'
        (Counters (num_issues c + 1) (num_pulls c)
                  ({[ issue_number ]} ∪ list_issues c))
    end
  end.

(** Lines 232-255: the body of [for p in pulls]; the boolean tells
    whether the [break] of line 255 was taken. *)
Definition process_pull (p : item) (c : counters) : M (counters * bool) :=
  if outside_window (created_at p) then ret (c, false)
  else
    let linked_issue_numbers :=
      _extract_linked_issue_numbers (body p) linked_issues_regex in
    let pull_number := number p in
    let* pull := fetch (PullDetail pull_number) (pull_detail net pull_number) in
    match pull with
    | None => ret (c, false)
    | Some pull =>
      let pull := with_linked pull linked_issue_numbers in
      let* diff := fetch (DiffOf (diff_url pull)) (diff_text net (diff_url pull)) in
      match diff with
      | None => ret (c, false)
      | Some diff =>
        let* _ := save (DiffFile pull_number diff) in
        let* _ := save (PullFile pull_number pull) in
        let* c := save_linked_issues linked_issue_numbers c in
        let c := Counters (num_issues c) (num_pulls c + 1) (list_issues c) in
        ret (c, cap_reached (num_issues c))
      end
    end.

Fixpoint process_pulls (pulls : list item) (c : counters) : M counters :=
  match pulls with
  | [] => ret c
  | p :: rest =>
    let* r := process_pull p c in
    if snd r then ret (fst r) else process_pulls rest (fst r)
  end.

(** How a crawl loop is left: the loop condition failed or [break] was
    taken (the crawl goes on), or [return] was taken. *)
Inductive loop_exit : Type :=
| LoopDone
| CrawlReturned.

(** Lines 225-264, one iteration per unit of [fuel]. *)
Fixpoint pulls_loop (fuel : nat) (end_page_pulls page : Z) (c : counters)
  : M (loop_exit * counters) :=
  match fuel with
  | O => unfinished
  | S fuel' =>
    let* interrupted := read_interrupted in
    if interrupted || cap_reached (num_issues c)
       || ((0 <? end_page_pulls) && (end_page_pulls <? page))
    then ret (LoopDone, c)
    else
      let* pulls := _get_json_page net Pulls page in
      match pulls with
      | None => pulls_loop fuel' end_page_pulls page c
      | Some pulls =>
        let* _ := if save_pull_pages self
                  then save (PullsPageFile page pulls) else ret tt in
        let* c := process_pulls pulls c in
        if (Z.of_nat (length pulls) <? per_page self)
           || cap_reached (num_issues c)
        then
          let* interrupted := read_interrupted in
          if interrupted then ret (CrawlReturned, c) else ret (LoopDone, c)
        else pulls_loop fuel' end_page_pulls (page + 1) c
      end
  end.

(** Lines 275-284: the body of [for i in issues]; [n] is [num_issues]. *)
Definition process_issue (seen : gset Z) (i : item) (n : Z) : M (Z * bool) :=
  let issue_number := number i in
  if bool_decide (issue_number ∈ seen) || outside_window (created_at i)
  then ret (n, false)
  else
    let* issue := fetch (IssueDetail issue_number) (issue_detail net issue_number) in
    match issue with
    | None => ret (n, false)
    | Some issue =>
      let* _ := save (IssueFile issue_number issue) in
      ret (n + 1, cap_reached (n + 1))
    end.

Fixpoint process_issues (seen : gset Z) (issues : list item) (n : Z) : M Z :=
  match issues with
  | [] => ret n
  | i :: rest =>
    let* r := process_issue seen i n in
    if snd r then ret (fst r) else process_issues seen rest (fst r)
  end.

(** Lines 270-293. *)
Fixpoint issues_loop (fuel : nat) (seen : gset Z) (end_page_issues page n : Z)
  : M (loop_exit * Z) :=
  match fuel with
  | O => unfinished
  | S fuel' =>
    let* interrupted := read_interrupted in
    if interrupted || cap_reached n
       || ((0 <? end_page_issues) && (end_page_issues <? page))
    then ret (LoopDone, n)
    else
      let* issues := _get_json_page net Issues page in
      match issues with
      | None => issues_loop fuel' seen end_page_issues page n
      | Some issues =>
        let* n := process_issues seen issues n in
        if (Z.of_nat (length issues) <? per_page self) || cap_reached n
        then
          let* interrupted := read_interrupted in
          if interrupted then ret (CrawlReturned, n) else ret (LoopDone, n)
        else issues_loop fuel' seen end_page_issues (page + 1) n
      end
  end.

End CrawlLoops.

(** [Crawler.crawl]: the page range of both streams, then the pulls pass
    and the issues pass.  [depth] bounds the nesting of the boundary
    search, [fuel] the iterations of each loop, [now] is [time.time()]. *)
Definition crawl (self : Crawler) (net : network) (sigint : world -> bool)
    (depth fuel : nat) (now : Z) (owner repo : text)
    (start_page_pulls start_page_issues end_page_pulls end_page_issues : Z)
  : M unit :=
  let* start_page_pulls := resolve_start_page self net depth Pulls start_page_pulls in
  let* start_page_issues := resolve_start_page self net depth Issues start_page_issues in
  let* end_page_pulls := resolve_end_page self net depth now Pulls end_page_pulls in
  let* end_page_issues := resolve_end_page self net depth now Issues end_page_issues in
  let linked_issues_regex := _make_linked_issues_regex owner repo in
  let* r := pulls_loop self net sigint linked_issues_regex fuel
              end_page_pulls start_page_pulls (Counters 0 0 ∅) in
  match fst r with
  | CrawlReturned => ret tt
  | LoopDone =>
    let* _ := issues_loop self net sigint fuel (list_issues (snd r))
                end_page_issues start_page_issues 0 in
    ret tt
  end.


(** ** The diff attribution pass of writer.py: [_get_section_changes] *)

Definition not_newline (c : ascii) : bool := negb (is_newline c).
Definition not_space (c : ascii) : bool := negb (is_space c).

(** [^diff --git a\/(?:.*?) b\/(.*?)\n$] *)
Definition _diff_file_pattern : compiled :=
  Compiled false
    (Seq StartOfText
    (Seq (lit (str "diff --git a/"))
    (Seq (LazyStar not_newline)
    (Seq (lit (str " b/"))
    (Seq (Group (LazyStar not_newline))
    (Seq (Lit newline) EndOfText)))))).

(** [(?:---|\+\+\+) \S*?\/(.*?)$] *)
Definition _diff_file_anchor_pattern : compiled :=
  Compiled false
    (Seq (Alt (lit (str "---")) (lit (str "+++")))
    (Seq (Lit " ")
    (Seq (LazyStar not_space)
    (Seq (Lit "/")
    (Seq (Group (LazyStar not_newline)) EndOfText))))).

Definition _sections : list text :=
  [str "build/"; str "cli/"; str "extensions/"; str "remote/";
   str "resources/"; str "scripts/"; str "src/"; str "test/"; str "other "].

Inductive attribute : Type :=
| Changed_files
| Additions
| Deletions.

Definition _section_attributes : list attribute :=
  [Changed_files; Additions; Deletions].

(** One entry of [pull['section_data']]. *)
Record tally : Type := Tally {
  changed_files : Z;
  additions : Z;
  deletions : Z
}.

Definition tally_get (a : attribute) (t : tally) : Z :=
  match a with
  | Changed_files => changed_files t
  | Additions => additions t
  | Deletions => deletions t
  end.

(** [t[a] += 1] *)
Definition increment (a : attribute) (t : tally) : tally :=
  match a with
  | Changed_files => Tally (changed_files t + 1) (additions t) (deletions t)
  | Additions => Tally (changed_files t) (additions t + 1) (deletions t)
  | Deletions => Tally (changed_files t) (additions t) (deletions t + 1)
  end.

(** [s.startswith(prefix)] *)
Fixpoint startswith (s prefix : text) {struct prefix} : bool :=
  match prefix, s with
  | [], _ => true
  | p :: prefix', x :: s' => same_char x p && startswith s' prefix'
  | _ :: _, [] => false
  end.

(** [next((i for (i, s) in enumerate(_sections) if filename.startswith(s)),
    len(_sections) - 1)] *)
Definition section_of (filename : text) : nat :=
  default (length _sections - 1)%nat
    (fst <$> list_find (fun s => Is_true (startswith filename s)) _sections).

(** The three variables of the loop of [_get_section_changes]. *)
Record attribution : Type := Attribution {
  section_data : list tally;
  current_section : nat;
  current_filename : text
}.

Definition is_anchor (line : text) : bool :=
  bool_decide (is_Some (re_match _diff_file_anchor_pattern line)).

(** The body of [for line in diff]. *)
Definition attribute_line (st : attribution) (line : text) : attribution :=
  match re_match _diff_file_pattern line with
  | Some filename =>
    if bool_decide (filename = current_filename st) then st
    else
      let current_section := section_of filename in
      Attribution
        (alter (increment Changed_files) current_section (section_data st))
        current_section filename
  | None =>
    if startswith line (str "+") && negb (is_anchor line) then
      Attribution
        (alter (increment Additions) (current_section st) (section_data st))
        (current_section st) (current_filename st)
    else if startswith line (str "-") && negb (is_anchor line) then
      Attribution
        (alter (increment Deletions) (current_section st) (section_data st))
        (current_section st) (current_filename st)
    else st
  end.

Definition initial_attribution : attribution :=
  Attribution (replicate (length _sections) (Tally 0 0 0))
              (length _sections - 1)%nat [].

(** The list left in [pull['section_data']]. *)
Definition _get_section_changes (diff : list text) : list tally :=
  section_data (fold_left attribute_line diff initial_attribution).

(** ** The export step of writer.py: the body of the loop over pulls *)

(** The fields of a saved pull that lines 167-196 read. *)
Record saved_pull : Type := SavedPull {
  saved_number : Z;
  saved_created_at : Z;
  saved_linked_issue_numbers : list Z;
  saved_changed_files : Z;
  saved_additions : Z;
  saved_deletions : Z
}.

(** [pull[a]] *)
Definition pull_total (a : attribute) (pull : saved_pull) : Z :=
  match a with
  | Changed_files => saved_changed_files pull
  | Additions => saved_additions pull
  | Deletions => saved_deletions pull
  end.

Record saved_issue : Type := SavedIssue {
  issue_number_of : Z;
  issue_created_at : Z
}.

(** What [print] is given. *)
Inductive printed : Type :=
| PrintList (l : list Z)
| PrintInt (n : Z).

(** [[pull['section_data'][i][a] for i in range(len(_sections))]] *)
Definition section_column (a : attribute) (data : list tally) : list Z :=
  (fun i => tally_get a (nth i data (Tally 0 0 0))) <$> seq 0 (length _sections).

Definition sum (l : list Z) : Z := foldr Z.add 0 l.

(** Lines 176-180 for one attribute; [pull_number] is the variable of the
    loop of line 166, the number in the name of the file the pull was read
    from. *)
Definition check_attribute (pull_number : Z) (pull : saved_pull)
    (data : list tally) (a : attribute) : list printed :=
  if negb (sum (section_column a data) =? pull_total a pull) then
    [PrintList (section_column a data);
     PrintInt (sum (section_column a data));
     PrintInt (pull_total a pull);
     PrintInt pull_number]
  else [].

(** Lines 175-180. *)
Definition check_sections (pull_number : Z) (pull : saved_pull)
    (data : list tally) : list printed :=
  flat_map (check_attribute pull_number pull data) _section_attributes.

(** A row of the dataset: the issue and pull numbers and the cells of
    [section_row_data], each cell kept as the two operands of the division
    [pull['section_data'][i][a] / max(1, ...)] that line 276 performs. *)
Record row : Type := Row {
  row_issue : Z;
  row_pull : Z;
  section_row_data : list (Z * Z)
}.

(** Line 276 for a row that has a pull. *)
Definition section_cells (pull : saved_pull) (data : list tally) : list (Z * Z) :=
  flat_map (fun relative : bool =>
    flat_map (fun a =>
      (fun i => (tally_get a (nth i data (Tally 0 0 0)),
                 Z.max 1 (if relative then pull_total a pull else 1)))
      <$> seq 0 (length _sections))
    _section_attributes)
  [false; true].

Definition _dataset_row (issue : saved_issue) (pull : saved_pull)
    (data : list tally) : row :=
  Row (issue_number_of issue) (saved_number pull) (section_cells pull data).

(** What the body of the loop leaves behind: the text printed, the rows
    written, [total_num_rows], whether [write_dataset] returned because the
    row limit was reached, and the exception that ended it, if any. *)
Record exported : Type := Exported {
  prints : list printed;
  rows : list row;
  total_num_rows : Z;
  limit_reached : bool;
  raised : option exn
}.

Section ExportStep.
Variable issue_files : Z -> option saved_issue.
Variable start_date_w end_date_w : Z.
Variable limit_rows : Z.

(** Lines 185-196: a row per linked issue inside the window; reading the
    file of an issue that was not saved raises. *)
Fixpoint write_rows (pull : saved_pull) (data : list tally)
    (issue_numbers : list Z) (acc : exported) : exported :=
  match issue_numbers with
  | [] => acc
  | issue_number :: rest =>
    match issue_files issue_number with
    | None =>
      Exported (prints acc) (rows acc) (total_num_rows acc) false
               (Some FileNotFoundError)
    | Some issue =>
      if (issue_created_at issue <? start_date_w)
         || (end_date_w <? issue_created_at issue)
      then write_rows pull data rest acc
      else
        let acc := Exported (prints acc)
                     (rows acc ++ [_dataset_row issue pull data])
                     (total_num_rows acc + 1) false None in
        if total_num_rows acc =? limit_rows
        then Exported (prints acc) (rows acc) (total_num_rows acc) true None
        else write_rows pull data rest acc
    end
  end.

(** Lines 167-196 for the pull read from the file of [pull_number]
    together with its diff (no probabilities file). *)
Definition export_pull (pull_number : Z) (pull : saved_pull) (diff : list text)
    (total : Z) : exported :=
  if (saved_created_at pull <? start_date_w)
     || (end_date_w <? saved_created_at pull)
  then Exported [] [] total false None
  else
    let linked := merge_sort Z.le (saved_linked_issue_numbers pull) in
    let data := _get_section_changes diff in
    write_rows pull data linked
      (Exported (check_sections pull_number pull data) [] total false None).

End ExportStep.


(** ** Streams given page by page, and what the boundary search is for *)

(** A list endpoint that serves the given pages (page 1 first) and the
    empty list beyond them. *)
Definition serve_pages (pages : list (list item)) (page : Z) : fetched (list item) :=
  if page <? 1 then Got []
  else Got (default [] (pages !! Z.to_nat (page - 1))).

(** A network whose two list endpoints serve [pages], with the last page
    announced in the [Link] header, and no detail objects. *)
Definition network_of_pages (pages : list (list item)) : network :=
  Network (fun _ => serve_pages pages)
          (fun _ => LinkLast (Z.of_nat (length pages)))
          (fun _ => Absent) (fun _ => Absent) (fun _ => Absent).

(** A crawler with the default attributes and the given window. *)
Definition crawler_of_window (start_date end_date : Z) : Crawler :=
  {| per_page := 100; save_pull_pages := false; max_request_tries := 100;
     request_retry_wait_secs := 10; start_date := start_date;
     end_date := end_date; _max_issue_number := -1 |}.

Fixpoint strictly_ascending (times : list Z) : bool :=
  match times with
  | t1 :: (t2 :: _) as rest => (t1 <? t2) && strictly_ascending rest
  | _ => true
  end.

(** Every page has an item, and creation times increase within and across
    the pages. *)
Definition ascending_stream (pages : list (list item)) : bool :=
  forallb (fun page => negb (bool_decide (page = []))) pages
  && strictly_ascending (created_at <$> concat pages).

(** Page [page] holds an item created at or after [t] / at or before [t]. *)
Definition has_item_from (net : network) (s : stream) (t page : Z) : Prop :=
  exists l i, list_page net s page = Got l /\ i ∈ l /\ t <= created_at i.

Definition has_item_until (net : network) (s : stream) (t page : Z) : Prop :=
  exists l i, list_page net s page = Got l /\ i ∈ l /\ created_at i <= t.

(** The pages the two searches are meant to find among [1 .. last_page]. *)
Definition smallest_page_from (net : network) (s : stream) (last_page t page : Z) : Prop :=
  1 <= page <= last_page /\ has_item_from net s t page
  /\ forall q, 1 <= q < page -> ~ has_item_from net s t q.

Definition largest_page_until (net : network) (s : stream) (last_page t page : Z) : Prop :=
  1 <= page <= last_page /\ has_item_until net s t page
  /\ forall q, page < q <= last_page -> ~ has_item_until net s t q.

(** The stream [s] of [net] is served on the pages [1 .. last_page], none
    of them empty, with creation times that increase within a page (from
    its first item to its last) and strictly from one page to the next. *)
Definition ascending_pages (net : network) (s : stream) (last_page : Z) : Prop :=
  (forall p, 1 <= p <= last_page ->
     exists p0 ps, list_page net s p = Got (p0 :: ps)
                   /\ forall i, i ∈ p0 :: ps ->
                        created_at p0 <= created_at i <= created_at (last_item p0 ps))
  /\ (forall p q lp lq i j,
        1 <= p -> p < q -> q <= last_page ->
        list_page net s p = Got lp -> list_page net s q = Got lq ->
        i ∈ lp -> j ∈ lq -> created_at i < created_at j).

(** Noon of the [n]-th day. *)
Definition noon (n : Z) : Z := day n + 43200.

(** Items created in November and December 2013 (days 16010 to 16070),
    two per page. *)
Definition two_pages : list (list item) :=
  [[Item 1 (noon 16010) None; Item 2 (noon 16020) None];
   [Item 3 (noon 16030) None; Item 4 (noon 16040) None]].

Definition three_pages : list (list item) :=
  [[Item 1 (noon 16010) None; Item 2 (noon 16020) None];
   [Item 3 (noon 16030) None; Item 4 (noon 16040) None];
   [Item 5 (noon 16060) None; Item 6 (noon 16070) None]].

(** ** Rate limiting as the fetcher sees it *)

(** The answers line 375 is reached with and takes for rate limiting:
    refused, not a 404, the remaining-quota header below 1 and the reset
    header present. *)
Definition rate_limited (r : response) (reset : Z) : Prop :=
  ok r = false /\ status_code r <> 404 /\ ratelimit_hit r = Some reset.

(** The durations slept over a run of rate-limited answers with the given
    reset times, starting at [clock], and the clock after them. *)
Fixpoint ratelimit_waits (clock : Z) (resets : list Z) : list Z :=
  match resets with
  | [] => []
  | reset :: rest => (reset - clock + 1) :: ratelimit_waits (reset + 1) rest
  end.

Definition clock_after (clock : Z) (resets : list Z) : Z :=
  foldl (fun _ reset => reset + 1) clock resets.

Definition ok_response : response := Response 200 None None false.
Definition server_error : response := Response 500 None None false.
Definition error_payload : response := Response 200 None None true.
Definition quota_exhausted (reset : Z) : response :=
  Response 403 (Some 0) (Some reset) false.

(** ** Bodies made of closing references *)

(** The characters of a GitHub owner or repository name. *)
Definition name_char (c : ascii) : bool :=
  is_digit c || is_upper c || is_lower c
  || same_char c "-" || same_char c "_" || same_char c ".".

(** A pull body that closes, one after the other, the issues whose numbers
    are written [ds]. *)
Definition closing_body (ds : list text) : text :=
  concat ((fun d => str "fixes #" ++ d ++ str " ") <$> ds).

(** ** The list pages a crawl asks for *)

(** The pages of stream [s] among the requests [l], in order. *)
Definition pages_requested (s : stream) (l : list request) : list Z :=
  omap (fun r =>
          match r, s with
          | ListPage Pulls page, Pulls => Some page
          | ListPage Issues page, Issues => Some page
          | _, _ => None
          end) l.

(** A step of the crawl that finishes (returns or raises) and asks for no
    list page. *)
Definition asks_no_page {A} (m : M A) : Prop :=
  forall w, fst (m w) <> Unfinished
            /\ forall s, pages_requested s (requested (snd (m w)))
                         = pages_requested s (requested w).

(** Run from world [w], the step [m] asks only for list pages of stream
    [s] that satisfy [P]. *)
Definition asks_pages_within {A} (s : stream) (P : Z -> Prop) (m : M A)
    (w : world) : Prop :=
  exists qs, pages_requested s (requested (snd (m w)))
             = pages_requested s (requested w) ++ qs
             /\ Forall P qs.

(** [count] items numbered from [first], created one second apart from
    instant [t]. *)
Definition items_from (first t : Z) (count : nat) : list item :=
  (fun i => Item (first + Z.of_nat i) (t + Z.of_nat i) None) <$> seq 0 count.

(** A stream of 137 items served 100 per page, and a signal handler that
    is never triggered. *)
Definition pages_100_and_37 : list (list item) :=
  [items_from 1 1000 100; items_from 101 1100 37].

Definition never_interrupted : world -> bool := fun _ => false.

(** ** Diffs given file by file, and the tallies they call for *)

(** The part of a diff that belongs to one file: the two paths of its
    [diff --git] header and the lines that follow it (index and mode lines,
    the [---] and [+++] lines, hunks), any number of them. *)
Record file_diff : Type := FileDiff {
  old_path : text;
  new_path : text;
  hunk_lines : list text
}.

Definition header_line (f : file_diff) : text :=
  str "diff --git a/" ++ old_path f ++ str " b/" ++ new_path f ++ [newline].

Definition render_file (f : file_diff) : list text :=
  header_line f :: hunk_lines f.

Definition render_diff (fs : list file_diff) : list text :=
  concat (render_file <$> fs).

(** A line that counts as added ([sign] is [+]) or removed ([-]). *)
Definition counts_as (sign : ascii) (line : text) : bool :=
  startswith line [sign] && negb (is_anchor line).

Definition count_lines (sign : ascii) (lines : list text) : Z :=
  Z.of_nat (length (filter (fun l => Is_true (counts_as sign l)) lines)).







(** ** A two-file diff and a pull whose totals disagree with it *)

Definition line (s : string) : text := str s ++ [newline].

(** A file under the [src/] prefix, changed in two hunks. *)
Definition file_under_src : file_diff :=
  FileDiff (str "src/vs/editor.ts") (str "src/vs/editor.ts")
    [line "index 1a2b3c4..5d6e7f8 100644";
     line "--- a/src/vs/editor.ts";
     line "+++ b/src/vs/editor.ts";
     line "@@ -1,3 +1,4 @@";
     line " import a";
     line "+import b";
     line "@@ -10,2 +11,2 @@";
     line "-let x = 1";
     line "+let x = 2"].

(** A file no section prefix matches. *)
Definition file_unmatched : file_diff :=
  FileDiff (str "README.md") (str "README.md")
    [line "--- a/README.md";
     line "+++ b/README.md";
     line "@@ -1 +1,2 @@";
     line " ghpr";
     line "+tools"].

(** Pull 42 links issue 7 and reports 3 changed files, 10 additions and
    1 deletion. *)
Definition pull_with_other_totals : saved_pull := SavedPull 42 100 [7] 3 10 1.

Definition only_issue_7 (n : Z) : option saved_issue :=
  if n =? 7 then Some (SavedIssue 7 90) else None.

(** A network for one page of three pulls: pull 7 has no detail object,
    pull 8 has one but no diff, pull 9 has both and its body closes
    issue 3. *)
Definition diff_url_of (n : Z) : text :=
  str "https://github.com/octocat/Hello-World/pull/"
  ++ (if n =? 8 then str "8" else str "9") ++ str ".diff".

Definition page_of_three_pulls : list item :=
  [Item 7 1007 (Some (str "Closes #4"));
   Item 8 1008 None;
   Item 9 1009 (Some (str "Fixes #3"))].

Definition network_of_three_pulls : network :=
  Network (fun _ => serve_pages [page_of_three_pulls])
          (fun _ => LinkLast 1)
          (fun n => if (n =? 8) || (n =? 9)
                    then Got (PullObject n (diff_url_of n) None) else Absent)
          (fun url => if bool_decide (url = diff_url_of 9)
                      then Got (str "diff --git a/README b/README") else Absent)
          (fun n => if n =? 3 then Got 3 else Absent).

(** ** Answers of the server as the retry loop sorts them *)

(** A refused answer that is neither a 404 nor taken for rate limiting:
    the one [_try_to_get] answers with [(None, False)] (line 381). *)
Definition refused (r : response) : Prop :=
  ok r = false /\ status_code r <> 404 /\ ratelimit_hit r = None.

(** An answer [_try_to_get] hands back with [True]: not refused, and no
    error message in its payload. *)
Definition accepted (r : response) : Prop :=
  ok r = true /\ error_message r = false.

(** ** A listing that fits on one page *)

(** The repository of [network_of_three_pulls] with its listing served
    the way GitHub serves one that fits on a single page: without a
    [Link] header. *)
Definition network_without_link : network :=
  Network (list_page network_of_three_pulls) (fun _ => NoLink)
          (pull_detail network_of_three_pulls)
          (diff_text network_of_three_pulls)
          (issue_detail network_of_three_pulls).

(** ** Interrupts and repositories that do not exist *)

(** The interrupt key is pressed once [n] requests have gone out. *)
Definition interrupted_after (n : nat) : world -> bool :=
  fun w => (n <=? length (requested w))%nat.

(** A repository that does not exist: every request is answered 404. *)
Definition network_not_found : network :=
  Network (fun _ _ => Absent) (fun _ => NoLink)
          (fun _ => Absent) (fun _ => Absent) (fun _ => Absent).

(** ** What a step of the crawl adds to the world *)

(** Run from world [w], the step [m] only appends to the requests made
    and to the files written, and what it appends satisfies [Pr] and
    [Pw]. *)
Definition adds {A} (Pr : request -> Prop) (Pw : file -> Prop) (m : M A)
    (w : world) : Prop :=
  exists reqs files,
    requested (snd (m w)) = requested w ++ reqs
    /\ written (snd (m w)) = written w ++ files
    /\ Forall Pr reqs /\ Forall Pw files.

(** The item [i] is on some list page of stream [s] and was created
    inside the window of the crawler. *)
Definition item_in_window (self : Crawler) (net : network) (s : stream)
    (i : item) : Prop :=
  (exists page l, list_page net s page = Got l /\ i ∈ l)
  /\ start_date self <= created_at i <= end_date self.

(** The requests and files that stem from a pull listed in the window:
    its detail object, the diff that object points to, the issues its
    listed body links. *)
Definition request_of_pulls_pass (self : Crawler) (net : network)
    (re : compiled) (r : request) : Prop :=
  match r with
  | ListPage Pulls _ => True
  | ListPage Issues _ => False
  | PullDetail n => exists i, item_in_window self net Pulls i /\ number i = n
  | DiffOf url =>
    exists i pull, item_in_window self net Pulls i
      /\ pull_detail net (number i) = Got pull /\ url = diff_url pull
  | IssueDetail n =>
    exists i, item_in_window self net Pulls i
      /\ n ∈ _extract_linked_issue_numbers (body i) re
  end.

Definition file_of_pulls_pass (self : Crawler) (net : network)
    (re : compiled) (f : file) : Prop :=
  match f with
  | PullsPageFile page pulls =>
    save_pull_pages self = true /\ list_page net Pulls page = Got pulls
  | DiffFile n diff =>
    exists i pull, item_in_window self net Pulls i /\ number i = n
      /\ pull_detail net n = Got pull /\ diff_text net (diff_url pull) = Got diff
  | PullFile n saved =>
    exists i pull, item_in_window self net Pulls i /\ number i = n
      /\ pull_detail net n = Got pull
      /\ saved = with_linked pull (_extract_linked_issue_numbers (body i) re)
  | IssueFile n issue =>
    exists i, item_in_window self net Pulls i
      /\ n ∈ _extract_linked_issue_numbers (body i) re
      /\ issue_detail net n = Got issue
  end.

(** The requests and files that stem from an issue listed in the window
    whose number is not in [seen]. *)
Definition request_of_issues_pass (self : Crawler) (net : network)
    (seen : gset Z) (r : request) : Prop :=
  match r with
  | ListPage Issues _ => True
  | IssueDetail n =>
    (n ∉ seen) /\ exists i, item_in_window self net Issues i /\ number i = n
  | _ => False
  end.

Definition file_of_issues_pass (self : Crawler) (net : network)
    (seen : gset Z) (f : file) : Prop :=
  match f with
  | IssueFile n issue =>
    (n ∉ seen) /\ (exists i, item_in_window self net Issues i /\ number i = n)
    /\ issue_detail net n = Got issue
  | _ => False
  end.

(** ** Counting what was written *)

Definition pulls_saved (files : list file) : list Z :=
  omap (fun f => match f with PullFile n _ => Some n | _ => None end) files.

Definition diffs_saved (files : list file) : list Z :=
  omap (fun f => match f with DiffFile n _ => Some n | _ => None end) files.

Definition issues_saved (files : list file) : list Z :=
  omap (fun f => match f with IssueFile n _ => Some n | _ => None end) files.

(** The counters [c'] account for the files written since they were [c]:
    [num_pulls] counts the pull files, each written with its diff,
    [num_issues] the issue files, and [list_issues] holds their numbers. *)
Definition accounts_for (c : counters) (files : list file) (c' : counters) : Prop :=
  num_pulls c' = num_pulls c + Z.of_nat (length (pulls_saved files))
  /\ num_issues c' = num_issues c + Z.of_nat (length (issues_saved files))
  /\ list_issues c' = list_issues c ∪ list_to_set (issues_saved files)
  /\ diffs_saved files = pulls_saved files.

(** ** A cap on the number of issues *)

(** A crawler with the default attributes, the window from the epoch to
    the end of its first day, and the given [_max_issue_number]. *)
Definition crawler_with_cap (cap : Z) : Crawler :=
  {| per_page := 100; save_pull_pages := false; max_request_tries := 100;
     request_retry_wait_secs := 10; start_date := 0; end_date := day 1;
     _max_issue_number := cap |}.

(** The repository of [network_of_three_pulls] with an issue object for
    every number. *)
Definition network_with_issues : network :=
  Network (list_page network_of_three_pulls)
          (link_of_first_page network_of_three_pulls)
          (pull_detail network_of_three_pulls)
          (diff_text network_of_three_pulls)
          (fun n => Got n).

(** ** Shapes of patterns and of captures *)

(** A pattern without a capture group. *)
Fixpoint group_free (r : regex) : Prop :=
  match r with
  | Group _ => False
  | Seq r1 r2 | Alt r1 r2 => group_free r1 /\ group_free r2
  | _ => True
  end.

(** A pattern whose character classes do not tell the case of a letter. *)
Fixpoint case_blind (r : regex) : Prop :=
  match r with
  | Plus class | LazyStar class => forall c, class (fold_case c) = class c
  | Seq r1 r2 | Alt r1 r2 => case_blind r1 /\ case_blind r2
  | Group r1 => case_blind r1
  | _ => True
  end.

(** A non-empty run of decimal digits, on which [int] does not raise. *)
Definition is_digits (n : text) : Prop :=
  n <> [] /\ Forall (fun c => is_digit c = true) n.

(** The result of a match with every letter folded. *)
Definition fold_match (m : option (text * text)) : option (text * text) :=
  match m with
  | Some (n, rest) => Some (map fold_case n, map fold_case rest)
  | None => None
  end.

(** Two continuations that agree up to the case of the letters they are
    given. *)
Definition fold_related (k k' : continuation) : Prop :=
  forall p s c,
    k' (option_map fold_case p) (map fold_case s) (option_map (map fold_case) c)
    = fold_match (k p s c).

(** ** Diffs of any shape *)

(** The file names captured from the lines of a diff that the header
    pattern matches, in order. *)
Definition header_names (diff : list text) : list text :=
  omap (re_match _diff_file_pattern) diff.

(** How many of the names differ from the name before them, the first
    being compared with [prev]. *)
Fixpoint file_switches (prev : text) (names : list text) : Z :=
  match names with
  | [] => 0
  | name :: rest =>
    (if bool_decide (name = prev) then 0 else 1) + file_switches name rest
  end.

(** ** A pull that links three issues *)

(** Pull 42 links the issues 9, 7 and 8, in that order. *)
Definition pull_linking_three : saved_pull := SavedPull 42 100 [9; 7; 8] 3 10 1.

(** A directory that holds a file for every issue, each created at [t]
    and carrying the number its file is named after. *)
Definition issue_saved_at (t : Z) (n : Z) : option saved_issue :=
  Some (SavedIssue n t).

(** ** The repository names given to [main] *)

(** [s.find(c)] for a single character [c]: the index of its first
    occurrence, or -1. *)
Fixpoint find (s : text) (c : ascii) : Z :=
  match s with
  | [] => -1
  | x :: s' =>
    if same_char x c then 0
    else let n := find s' c in if n <? 0 then -1 else n + 1
  end.

(** The position a slice bound [n] stands for in a text of length [len]:
    a negative bound counts from the end, and bounds are clamped to the
    text. *)
Definition slice_bound (len : nat) (n : Z) : nat :=
  Z.to_nat (if n <? 0 then Z.max 0 (Z.of_nat len + n) else Z.min n (Z.of_nat len)).

(** [s[:n]] and [s[n:]]. *)
Definition slice_until (s : text) (n : Z) : text := take (slice_bound (length s) n) s.
Definition slice_from (s : text) (n : Z) : text := drop (slice_bound (length s) n) s.

(** Lines 462-464 of [main]: the owner and the repository of a full
    name [r]. *)
Definition owner_and_repo (r : text) : text * text :=
  let n := find r "/" in
  let owner := slice_until r n in
  let repo := slice_from r (n + 1) in
  (owner, repo).

(** ** The loop of [main] over the repositories *)

(** Lines 461-474 of [main]: each full name is split and crawled, and an
    exception of the crawl is caught and printed with the two names.
    [nets] gives what the server holds for an owner and a repository,
    [now] the clock when a crawl starts; the value returned lists what
    was printed after [Terminated with error]. *)
Fixpoint main (self : Crawler) (nets : text -> text -> network)
    (sigint : world -> bool) (depth fuel : nat) (now : world -> Z)
    (start_page_pulls start_page_issues end_page_pulls end_page_issues : Z)
    (repos : list text) : M (list (exn * text * text)) :=
  match repos with
  | [] => ret []
  | r :: rest =>
    let owner := fst (owner_and_repo r) in
    let repo := snd (owner_and_repo r) in
    fun w =>
      match crawl self (nets owner repo) sigint depth fuel (now w) owner repo
                  start_page_pulls start_page_issues end_page_pulls end_page_issues w
      with
      | (Returns _, w') =>
        main self nets sigint depth fuel now
             start_page_pulls start_page_issues end_page_pulls end_page_issues rest w'
      | (Raises e, w') =>
        (let* errors := main self nets sigint depth fuel now
                          start_page_pulls start_page_issues
                          end_page_pulls end_page_issues rest in
         ret ((e, owner, repo) :: errors)) w'
      | (Unfinished, w') => (Unfinished, w')
      end
  end.

(** ** The export of a repository: lines 164-208 of [write_dataset] *)

(** The rows of the issues that no exported pull links, with the count of
    rows and the way the loop ended. *)
Record exported_alone : Type := ExportedAlone {
  alone : list saved_issue;
  alone_total_num_rows : Z;
  alone_limit_reached : bool;
  alone_raised : option exn
}.

Section ExportRepo.
Variable pull_files : Z -> option saved_pull.
Variable diff_files : Z -> option (list text).
Variable issue_files : Z -> option saved_issue.
Variable start_date_w end_date_w : Z.
Variable limit_rows : Z.

(** Lines 185-196 together with the memo [issue_list] that line 189
    fills. *)
Fixpoint write_rows_listing (pull : saved_pull) (data : list tally)
    (issue_numbers : list Z) (acc : exported) (issue_list : gset Z)
  : exported * gset Z :=
  match issue_numbers with
  | [] => (acc, issue_list)
  | issue_number :: rest =>
    match issue_files issue_number with
    | None =>
      (Exported (prints acc) (rows acc) (total_num_rows acc) false
                (Some FileNotFoundError), issue_list)
    | Some issue =>
      if (issue_created_at issue <? start_date_w)
         || (end_date_w <? issue_created_at issue)
      then write_rows_listing pull data rest acc issue_list
      else
        let issue_list := {[ issue_number ]} ∪ issue_list in
        let acc := Exported (prints acc)
                     (rows acc ++ [_dataset_row issue pull data])
                     (total_num_rows acc + 1) false None in
        if total_num_rows acc =? limit_rows
        then (Exported (prints acc) (rows acc) (total_num_rows acc) true None,
              issue_list)
        else write_rows_listing pull data rest acc issue_list
    end
  end.

(** Lines 166-196: the loop over the numbers of the saved pulls.  It
    stops when the row limit is reached and when a file is missing. *)
Fixpoint export_pulls (pull_numbers : list Z) (acc : exported)
    (issue_list : gset Z) : exported * gset Z :=
  match pull_numbers with
  | [] => (acc, issue_list)
  | pull_number :: rest =>
    match pull_files pull_number with
    | None =>
      (Exported (prints acc) (rows acc) (total_num_rows acc) false
                (Some FileNotFoundError), issue_list)
    | Some pull =>
      if (saved_created_at pull <? start_date_w)
         || (end_date_w <? saved_created_at pull)
      then export_pulls rest acc issue_list
      else
        let linked := merge_sort Z.le (saved_linked_issue_numbers pull) in
        match diff_files pull_number with
        | None =>
          (Exported (prints acc) (rows acc) (total_num_rows acc) false
                    (Some FileNotFoundError), issue_list)
        | Some diff =>
          let data := _get_section_changes diff in
          let acc := Exported (prints acc ++ check_sections pull_number pull data) (rows acc)
                              (total_num_rows acc) false None in
          let r := write_rows_listing pull data linked acc issue_list in
          if limit_reached (fst r) || bool_decide (is_Some (raised (fst r)))
          then r
          else export_pulls rest (fst r) (snd r)
        end
    end
  end.

(** Lines 198-208: a row of its own for every saved issue of the window
    that [issue_list] does not hold. *)
Fixpoint export_issues (issue_numbers : list Z) (issue_list : gset Z)
    (acc : exported_alone) : exported_alone :=
  match issue_numbers with
  | [] => acc
  | issue_number :: rest =>
    match issue_files issue_number with
    | None =>
      ExportedAlone (alone acc) (alone_total_num_rows acc) false
                    (Some FileNotFoundError)
    | Some issue =>
      if bool_decide (issue_number ∈ issue_list)
         || (issue_created_at issue <? start_date_w)
         || (end_date_w <? issue_created_at issue)
      then export_issues rest issue_list acc
      else
        let acc := ExportedAlone (alone acc ++ [issue])
                                 (alone_total_num_rows acc + 1) false None in
        if alone_total_num_rows acc =? limit_rows
        then ExportedAlone (alone acc) (alone_total_num_rows acc) true None
        else export_issues rest issue_list acc
    end
  end.

(** Lines 164-208 for one repository, given the sorted numbers of its
    pull files and of its issue files and the count of rows so far: the
    second loop runs only when the first ended neither by [return] nor by
    an exception. *)
Definition export_repo (pull_numbers issue_numbers : list Z) (total : Z)
  : exported * exported_alone :=
  let r := export_pulls pull_numbers (Exported [] [] total false None) ∅ in
  let after := ExportedAlone [] (total_num_rows (fst r)) false None in
  if limit_reached (fst r) || bool_decide (is_Some (raised (fst r)))
  then (fst r, after)
  else (fst r, export_issues issue_numbers (snd r) after).

End ExportRepo.

(** A repository directory with the pull 42 of [pull_linking_three], an
    empty diff for it, and an issue file for every number from 1 to 10. *)
Definition only_pull_42 (n : Z) : option saved_pull :=
  if n =? 42 then Some pull_linking_three else None.

Definition empty_diff_of_42 (n : Z) : option (list text) :=
  if n =? 42 then Some [] else None.

Definition issues_1_to_10 (n : Z) : option saved_issue :=
  if (1 <=? n) && (n <=? 10) then Some (SavedIssue n 90) else None.

(** [issue_list] holds the issue numbers of the rows written so far. *)
Definition lists_the_rows (acc : exported) (issue_list : gset Z) : Prop :=
  forall n, n ∈ issue_list <-> exists x, x ∈ rows acc /\ row_issue x = n.

(** The row lines 186-190 write for a linked issue: none when the file of
    the issue is missing or the issue lies outside the window. *)
Definition linked_row (issue_files : Z -> option saved_issue)
    (start_date_w end_date_w : Z) (pull : saved_pull) (data : list tally)
    (issue_number : Z) : option row :=
  match issue_files issue_number with
  | Some issue =>
    if (issue_created_at issue <? start_date_w)
       || (end_date_w <? issue_created_at issue)
    then None
    else Some (Row (issue_number_of issue) (saved_number pull)
                   (section_cells pull data))
  | None => None
  end.

(** One crawl of the loop of [main]: the owner and the repository crawled,
    how the crawl ended, and the world it left. *)
Record crawl_run : Type := CrawlRun {
  run_owner : text;
  run_repo : text;
  run_outcome : outcome unit;
  run_world : world
}.

(** The crawls of the repositories [repos], each started in the world the
    one before it left, however that one ended. *)
Fixpoint crawls_in_turn (self : Crawler) (nets : text -> text -> network)
    (sigint : world -> bool) (depth fuel : nat) (now : world -> Z)
    (start_page_pulls start_page_issues end_page_pulls end_page_issues : Z)
    (repos : list text) (w : world) : list crawl_run :=
  match repos with
  | [] => []
  | r :: rest =>
    let owner := fst (owner_and_repo r) in
    let repo := snd (owner_and_repo r) in
    let run := crawl self (nets owner repo) sigint depth fuel (now w) owner repo
                     start_page_pulls start_page_issues end_page_pulls
                     end_page_issues w in
    CrawlRun owner repo (fst run) (snd run)
    :: crawls_in_turn self nets sigint depth fuel now start_page_pulls
         start_page_issues end_page_pulls end_page_issues rest (snd run)
  end.

(** What [main] prints for a crawl that raised. *)
Definition error_of_run (run : crawl_run) : option (exn * text * text) :=
  match run_outcome run with
  | Raises e => Some (e, run_owner run, run_repo run)
  | _ => None
  end.

(** ** Closing references read directly off a body *)

(** [s] without its prefix [p], when [s] starts with [p] up to the case
    of the letters. *)
Fixpoint strip_prefix (p s : text) {struct p} : option text :=
  match p, s with
  | [], _ => Some s
  | c :: p', x :: s' =>
    if same_char (fold_case x) (fold_case c) then strip_prefix p' s' else None
  | _ :: _, [] => None
  end.

(** The longest run of characters of [class] that [s] starts with, and
    what follows it. *)
Fixpoint span (class : ascii -> bool) (s : text) : text * text :=
  match s with
  | x :: s' =>
    if class x then (x :: fst (span class s'), snd (span class s')) else ([], s)
  | [] => ([], [])
  end.

(** The first answer [f] gives on the elements of [l], taken in order. *)
Fixpoint first_of {A B} (f : A -> option B) (l : list A) : option B :=
  match l with
  | [] => None
  | a :: l' =>
    match f a with
    | Some b => Some b
    | None => first_of f l'
    end
  end.

(** The closing keywords. *)
Definition closing_words : list text :=
  [str "close"; str "closes"; str "closed"; str "fix"; str "fixes"; str "fixed";
   str "resolve"; str "resolves"; str "resolved"].

(** The three forms of a reference, up to the number: the URL of an issue
    of the repository, [owner/repo#] and the bare [#]. *)
Definition reference_forms (owner repo : text) : list text :=
  [str "https://github.com/" ++ owner ++ str "/" ++ repo ++ str "/issues/";
   owner ++ str "/" ++ repo ++ str "#";
   str "#"].

(** A number at the start of [s]: a run of digits, as long as it can be,
    that no word character follows.  The answer is the run and the text
    after it. *)
Definition number_at (s : text) : option (text * text) :=
  match span is_digit s with
  | ([], _) => None
  | (ds, rest) => if is_word_at (head rest) then None else Some (ds, rest)
  end.

(** A closing reference at the start of [s], [prev] being the character
    before it: a closing keyword that does not continue a word, white
    space, one of the three forms and a number; keyword and form are read
    without regard to case. *)
Definition closing_reference_at (owner repo : text) (prev : option ascii)
    (s : text) : option (text * text) :=
  if is_word_at prev then None
  else
    first_of (fun word =>
      match strip_prefix word s with
      | Some after_word =>
        match span is_space after_word with
        | ([], _) => None
        | (_, after_space) =>
          first_of (fun form =>
            match strip_prefix form after_space with
            | Some after_form => number_at after_form
            | None => None
            end) (reference_forms owner repo)
        end
      | None => None
      end) closing_words.

(** The numbers of the closing references of a text, from left to right,
    each as often as it is referred to; the search for the next reference
    resumes where the last one ended.  [skip] counts the characters of the
    last reference still to step over. *)
Fixpoint closing_references_from (owner repo : text) (prev : option ascii)
    (s : text) (skip : nat) : list Z :=
  match s with
  | [] => []
  | x :: s' =>
    match skip with
    | S n => closing_references_from owner repo (Some x) s' n
    | O =>
      match closing_reference_at owner repo prev s with
      | Some (ds, rest) =>
        int_of_digits ds
        :: closing_references_from owner repo (Some x) s'
             (length s - length rest - 1)
      | None => closing_references_from owner repo (Some x) s' 0
      end
    end
  end.

Definition closing_references (owner repo : text) (body : text) : list Z :=
  closing_references_from owner repo None body 0.

(** A pattern that reads the text [p] and nothing else, whatever the case
    of the letters. *)
Definition reads (r : regex) (p : text) : Prop :=
  forall (prev : option ascii) (s : text) (cap : option text) (k : continuation),
    (forall p1 p2 s' c, k p1 s' c = k p2 s' c) ->
    rmatch true r prev s cap k
    = match strip_prefix p s with
      | Some rest => k None rest cap
      | None => None
      end.

(** * Properties *)

(** ** Boundary search *)

Lemma round_half_odd_pair (k : Z) : Z.odd k = true -> round_half (k + (k + 1)) = k + 1.
Proof.
  intros Hk. unfold round_half.
  replace (k + (k + 1)) with (1 + 2 * k) by lia.
  rewrite Z.even_add_mul_2. cbn [Z.even].
  replace ((1 + 2 * k) / 2) with k by (apply Z.div_unique with (r := 1); lia).
  rewrite <- Z.negb_odd, Hk. reflexivity.
Qed.

Lemma round_half_even_pair (k : Z) : Z.even k = true -> round_half (k + (k + 1)) = k.
Proof.
  intros Hk. unfold round_half.
  replace (k + (k + 1)) with (1 + 2 * k) by lia.
  rewrite Z.even_add_mul_2. cbn [Z.even].
  replace ((1 + 2 * k) / 2) with k by (apply Z.div_unique with (r := 1); lia).
  rewrite Hk. reflexivity.
Qed.

Section BoundaryFacts.
Variable self : Crawler.
Variable net : network.

Lemma probe_page (s : stream) (page : Z) (l : list item) (w : world) :
  list_page net s page = Got l ->
  _get_json_page net s page w
  = (Returns (Some l), World (requested w ++ [ListPage s page]) (written w)).
Proof.
  intros H. unfold _get_json_page, fetch, bind, log_request, ret. rewrite H. reflexivity.
Qed.

(** A probe that sends the start search back to the interval it was
    called on keeps doing so at every depth. *)
Lemma _find_start_page_stuck (depth : nat) (s : stream) (a b : Z) (w : world)
    (p0 : item) (ps : list item) :
  a <> b ->
  list_page net s (round_half (a + b)) = Got (p0 :: ps) ->
  (start_date self < created_at p0 /\ round_half (a + b) = b)
  \/ (created_at p0 <= start_date self
      /\ created_at (last_item p0 ps) < start_date self
      /\ round_half (a + b) = a) ->
  fst (_find_start_page self net depth s a b w) = Unfinished.
Proof.
  intros Hab Hpage Hcase. revert w.
  induction depth as [|d IH]; intros w; [reflexivity|].
  cbn [_find_start_page]. unfold bind at 1.
  rewrite (probe_page _ _ _ _ Hpage).
  destruct (Z.eqb_spec a b) as [?|_]; [contradiction|].
  destruct Hcase as [[Hlt Hm]|(Hge & Hlast & Hm)].
  - destruct (Z.ltb_spec (start_date self) (created_at p0)); [|lia].
    rewrite Hm at 1. apply IH.
  - destruct (Z.ltb_spec (start_date self) (created_at p0)); [lia|].
    destruct (Z.ltb_spec (created_at (last_item p0 ps)) (start_date self)); [|lia].
    rewrite Hm at 1. apply IH.
Qed.

Lemma _find_end_page_stuck (depth : nat) (s : stream) (a b : Z) (w : world)
    (p0 : item) (ps : list item) :
  a <> b ->
  list_page net s (round_half (a + b)) = Got (p0 :: ps) ->
  (end_date self < created_at p0 /\ round_half (a + b) = b)
  \/ (created_at p0 <= end_date self
      /\ created_at (last_item p0 ps) < end_date self
      /\ round_half (a + b) = a) ->
  fst (_find_end_page self net depth s a b w) = Unfinished.
Proof.
  intros Hab Hpage Hcase. revert w.
  induction depth as [|d IH]; intros w; [reflexivity|].
  cbn [_find_end_page]. unfold bind at 1.
  rewrite (probe_page _ _ _ _ Hpage).
  destruct (Z.eqb_spec a b) as [?|_]; [contradiction|].
  destruct Hcase as [[Hlt Hm]|(Hge & Hlast & Hm)].
  - destruct (Z.ltb_spec (end_date self) (created_at p0)); [|lia].
    rewrite Hm at 1. apply IH.
  - destruct (Z.ltb_spec (end_date self) (created_at p0)); [lia|].
    destruct (Z.ltb_spec (created_at (last_item p0 ps)) (end_date self)); [|lia].
    rewrite Hm at 1. apply IH.
Qed.

(** On a two-page interval [k, k + 1] the midpoint is the even one of the
    two pages: the start search is stuck when that is [k + 1] and the
    window starts before its first item, or when it is [k] and the window
    starts after its last item; the end search likewise. *)
Lemma _find_start_page_two_pages (depth : nat) (s : stream) (k : Z) (w : world)
    (p0 : item) (ps : list item) :
  (Z.odd k = true /\ list_page net s (k + 1) = Got (p0 :: ps)
   /\ start_date self < created_at p0)
  \/ (Z.even k = true /\ list_page net s k = Got (p0 :: ps)
      /\ created_at p0 <= start_date self
      /\ created_at (last_item p0 ps) < start_date self) ->
  fst (_find_start_page self net depth s k (k + 1) w) = Unfinished.
Proof.
  intros [(Hk & Hpage & Hlt)|(Hk & Hpage & Hge & Hlt)];
    apply (_find_start_page_stuck depth s k (k + 1) w p0 ps); try lia.
  - rewrite (round_half_odd_pair k Hk). exact Hpage.
  - left. split; [exact Hlt|apply round_half_odd_pair; exact Hk].
  - rewrite (round_half_even_pair k Hk). exact Hpage.
  - right. split; [exact Hge|]. split; [exact Hlt|apply round_half_even_pair; exact Hk].
Qed.

Lemma _find_end_page_two_pages (depth : nat) (s : stream) (k : Z) (w : world)
    (p0 : item) (ps : list item) :
  (Z.odd k = true /\ list_page net s (k + 1) = Got (p0 :: ps)
   /\ end_date self < created_at p0)
  \/ (Z.even k = true /\ list_page net s k = Got (p0 :: ps)
      /\ created_at p0 <= end_date self
      /\ created_at (last_item p0 ps) < end_date self) ->
  fst (_find_end_page self net depth s k (k + 1) w) = Unfinished.
Proof.
  intros [(Hk & Hpage & Hlt)|(Hk & Hpage & Hge & Hlt)];
    apply (_find_end_page_stuck depth s k (k + 1) w p0 ps); try lia.
  - rewrite (round_half_odd_pair k Hk). exact Hpage.
  - left. split; [exact Hlt|apply round_half_odd_pair; exact Hk].
  - rewrite (round_half_even_pair k Hk). exact Hpage.
  - right. split; [exact Hge|]. split; [exact Hlt|apply round_half_even_pair; exact Hk].
Qed.

End BoundaryFacts.

Lemma round_half_between (a b : Z) :
  a <= b -> a <= round_half (a + b) <= b.
Proof.
  intros H. unfold round_half.
  pose proof (Zmod_even (a + b)) as Hev.
  pose proof (Z.div_mod (a + b) 2 ltac:(lia)) as Hdm.
  pose proof (Z.mod_pos_bound (a + b) 2 ltac:(lia)) as Hb.
  destruct (Z.even (a + b)); [lia|].
  destruct (Z.even ((a + b) / 2)); lia.
Qed.

Lemma round_half_same (a : Z) : round_half (a + a) = a.
Proof.
  pose proof (round_half_between a a ltac:(lia)). lia.
Qed.

Lemma last_item_in (p0 : item) (ps : list item) : last_item p0 ps ∈ p0 :: ps.
Proof.
  unfold last_item. revert p0. induction ps as [|p ps IH]; intros p0.
  - apply list_elem_of_here.
  - apply list_elem_of_further.
    replace (List.last (p :: ps) p0) with (List.last ps p); [apply IH|].
    clear. revert p p0. induction ps as [|q ps IH]; intros p p0; [reflexivity|].
    change (List.last (p :: q :: ps) p0) with (List.last (q :: ps) p0).
    rewrite <- (IH q p0), <- (IH q p). reflexivity.
Qed.

Section PartialCorrectness.
Variable self : Crawler.
Variable net : network.
Variable s : stream.
Variable last_page : Z.
Hypothesis ascending : ascending_pages net s last_page.

(** When the start search returns, it returns the page it is meant to
    find, or the page after the last one when no item is late enough. *)
Lemma _find_start_page_returns (depth : nat) (a b : Z) (w w' : world) (p : Z) :
  1 <= a -> a <= b -> b <= last_page ->
  (forall q, 1 <= q < a -> ~ has_item_from net s (start_date self) q) ->
  (b = last_page
   \/ exists p0 ps, list_page net s b = Got (p0 :: ps)
                    /\ start_date self < created_at p0) ->
  _find_start_page self net depth s a b w = (Returns p, w') ->
  smallest_page_from net s last_page (start_date self) p
  \/ (p = last_page + 1
      /\ forall q, 1 <= q <= last_page -> ~ has_item_from net s (start_date self) q).
Proof.
  destruct ascending as [Hpages Hacross].
  revert a b w. induction depth as [|d IH]; intros a b w Ha Hab Hb I1 I2 Hrun;
    [discriminate|].
  cbn [_find_start_page] in Hrun. unfold bind at 1 in Hrun.
  pose proof (round_half_between a b Hab) as Hmid.
  pose proof (round_half_same a) as Hsame.
  remember (round_half (a + b)) as mid eqn:Emid.
  destruct (Hpages mid ltac:(lia)) as (p0 & ps & Hpage & Hwithin).
  rewrite (probe_page net s mid _ w Hpage) in Hrun.
  pose proof (Hwithin p0 (list_elem_of_here _ _)) as Hfirst_last.
  assert (Hbefore : forall q, 1 <= q < mid ->
            created_at p0 <= start_date self ->
            ~ has_item_from net s (start_date self) q).
  { intros q Hq Hfirst (l & i & Hl & Hi & Ht).
    pose proof (Hacross q mid l (p0 :: ps) i p0 ltac:(lia) ltac:(lia) ltac:(lia)
                  Hl Hpage Hi (list_elem_of_here _ _)). lia. }
  assert (Hhere : created_at (last_item p0 ps) < start_date self ->
            ~ has_item_from net s (start_date self) mid).
  { intros Hlt (l & i & Hl & Hi & Ht). rewrite Hpage in Hl. injection Hl as <-.
    pose proof (Hwithin i Hi). lia. }
  assert (Hlast : start_date self <= created_at (last_item p0 ps) ->
            has_item_from net s (start_date self) mid).
  { intros Hle. exists (p0 :: ps), (last_item p0 ps).
    split; [exact Hpage|]. split; [apply last_item_in|exact Hle]. }
  destruct (Z.eqb_spec a b) as [Heq|Hne].
  - subst b. rewrite Hsame in Emid. subst mid.
    destruct (Z.ltb_spec (created_at (last_item p0 ps)) (start_date self)) as [Hlt|Hge];
      injection Hrun as <- _.
    + right. assert (a = last_page) as ->.
      { destruct I2 as [?|(q0 & qs & Hq & Hlt')]; [assumption|].
        rewrite Hpage in Hq. injection Hq as <- <-. lia. }
      split; [lia|]. intros q Hq.
      destruct (Z.eq_dec q last_page) as [->|]; [auto|apply I1; lia].
    + left. split; [lia|]. split; [auto|]. intros q Hq. apply I1. lia.
  - destruct (Z.ltb_spec (start_date self) (created_at p0)) as [Hlt|Hge].
    + refine (IH a mid _ Ha _ _ I1 _ Hrun); [lia|lia|].
      right. exists p0, ps. auto.
    + destruct (Z.ltb_spec (created_at (last_item p0 ps)) (start_date self)) as [Hlt|Hle].
      * refine (IH mid b _ _ _ Hb _ I2 Hrun); [lia|lia|].
        intros q Hq. apply Hbefore; lia.
      * injection Hrun as <- _. left. split; [lia|]. split; [auto|].
        intros q Hq. apply Hbefore; lia.
Qed.

(** When the end search returns, it returns the page it is meant to find,
    or page 0 when no item is early enough. *)
Lemma _find_end_page_returns (depth : nat) (a b : Z) (w w' : world) (p : Z) :
  1 <= a -> a <= b -> b <= last_page ->
  (forall q, b < q <= last_page -> ~ has_item_until net s (end_date self) q) ->
  (a = 1
   \/ exists p0 ps, list_page net s a = Got (p0 :: ps)
                    /\ created_at (last_item p0 ps) < end_date self) ->
  _find_end_page self net depth s a b w = (Returns p, w') ->
  largest_page_until net s last_page (end_date self) p
  \/ (p = 0
      /\ forall q, 1 <= q <= last_page -> ~ has_item_until net s (end_date self) q).
Proof.
  destruct ascending as [Hpages Hacross].
  revert a b w. induction depth as [|d IH]; intros a b w Ha Hab Hb I1 I2 Hrun;
    [discriminate|].
  cbn [_find_end_page] in Hrun. unfold bind at 1 in Hrun.
  pose proof (round_half_between a b Hab) as Hmid.
  pose proof (round_half_same a) as Hsame.
  remember (round_half (a + b)) as mid eqn:Emid.
  destruct (Hpages mid ltac:(lia)) as (p0 & ps & Hpage & Hwithin).
  rewrite (probe_page net s mid _ w Hpage) in Hrun.
  pose proof (Hwithin p0 (list_elem_of_here _ _)) as Hfirst_last.
  assert (Hafter : forall q, mid < q <= last_page ->
            end_date self <= created_at (last_item p0 ps) ->
            ~ has_item_until net s (end_date self) q).
  { intros q Hq Hlast (l & i & Hl & Hi & Ht).
    pose proof (Hacross mid q (p0 :: ps) l (last_item p0 ps) i ltac:(lia) ltac:(lia)
                  ltac:(lia) Hpage Hl (last_item_in _ _) Hi). lia. }
  assert (Hhere : end_date self < created_at p0 ->
            ~ has_item_until net s (end_date self) mid).
  { intros Hlt (l & i & Hl & Hi & Ht). rewrite Hpage in Hl. injection Hl as <-.
    pose proof (Hwithin i Hi). lia. }
  assert (Hfirst : created_at p0 <= end_date self ->
            has_item_until net s (end_date self) mid).
  { intros Hle. exists (p0 :: ps), p0.
    split; [exact Hpage|]. split; [apply list_elem_of_here|exact Hle]. }
  destruct (Z.eqb_spec a b) as [Heq|Hne].
  - subst b. rewrite Hsame in Emid. subst mid.
    destruct (Z.ltb_spec (end_date self) (created_at p0)) as [Hlt|Hge];
      injection Hrun as <- _.
    + right. assert (a = 1) as ->.
      { destruct I2 as [?|(q0 & qs & Hq & Hlt')]; [assumption|].
        rewrite Hpage in Hq. injection Hq as <- <-. lia. }
      split; [lia|]. intros q Hq.
      destruct (Z.eq_dec q 1) as [->|]; [auto|apply I1; lia].
    + left. split; [lia|]. split; [auto|]. intros q Hq. apply I1. lia.
  - destruct (Z.ltb_spec (end_date self) (created_at p0)) as [Hlt|Hge].
    + refine (IH a mid _ Ha _ _ _ I2 Hrun); [lia|lia|].
      intros q Hq. apply Hafter; lia.
    + destruct (Z.ltb_spec (created_at (last_item p0 ps)) (end_date self)) as [Hlt|Hle].
      * refine (IH mid b _ _ _ Hb I1 _ Hrun); [lia|lia|].
        right. exists p0, ps. auto.
      * injection Hrun as <- _. left. split; [lia|]. split; [auto|].
        intros q Hq. apply Hafter; lia.
Qed.

End PartialCorrectness.

Lemma resolve_start_page_searches (self : Crawler) (net : network) (depth : nat)
    (s : stream) (start_page : Z) (w : world) :
  start_page < 1 ->
  resolve_start_page self net depth s start_page w = _get_starting_page self net depth s w.
Proof.
  intros H. unfold resolve_start_page.
  destruct (Z.ltb_spec start_page 1); [|lia].
  unfold bind at 1. destruct (_get_starting_page self net depth s w) as [[a|e|] w']; reflexivity.
Qed.

(** C10, the failing input.  On the two-page interval [1, 2] the midpoint
    [round(1.5)] is 2; with the window's instant (day 16025) before the
    first item of page 2 both searches recurse on [start, mid], the
    interval they were called on, and no depth of recursion lets them
    return. *)
Theorem boundary_search_two_pages_never_returns :
  let self := crawler_of_window (day 16025) (day 16025) in
  let net := network_of_pages two_pages in
  round_half (1 + 2) = 2
  /\ forall (depth : nat) (w : world),
       fst (_find_start_page self net depth Pulls 1 2 w) = Unfinished
       /\ fst (_find_end_page self net depth Pulls 1 2 w) = Unfinished.
Proof.
  intros self net. split; [reflexivity|]. intros depth w. split.
  - eapply (_find_start_page_stuck self net depth Pulls 1 2 w); [lia|reflexivity|].
    left. split; reflexivity.
  - eapply (_find_end_page_stuck self net depth Pulls 1 2 w); [lia|reflexivity|].
    left. split; reflexivity.
Qed.

Lemma three_pages_item (page : Z) (l : list item) (i : item) :
  serve_pages three_pages page = Got l -> i ∈ l ->
  (page = 1 /\ (created_at i = noon 16010 \/ created_at i = noon 16020))
  \/ (page = 2 /\ (created_at i = noon 16030 \/ created_at i = noon 16040))
  \/ (page = 3 /\ (created_at i = noon 16060 \/ created_at i = noon 16070)).
Proof.
  unfold serve_pages. intros Hl Hi.
  destruct (Z.ltb_spec page 1) as [?|Hp].
  { injection Hl as <-. inversion Hi. }
  injection Hl as <-.
  destruct (Z.to_nat (page - 1)) as [|[|[|n]]] eqn:E; cbn in Hi;
    rewrite ?elem_of_cons, ?elem_of_nil in Hi.
  - left. split; [lia|]. destruct Hi as [->|[->|[]]]; cbn; auto.
  - right; left. split; [lia|]. destruct Hi as [->|[->|[]]]; cbn; auto.
  - right; right. split; [lia|]. destruct Hi as [->|[->|[]]]; cbn; auto.
  - destruct Hi.
Qed.

(** C1, the failing input.  Three pages of strictly increasing creation
    times and a window that starts and ends on day 16050, between the
    items of page 2 and those of page 3: page 3 is the smallest page with
    an item at or after that instant and page 2 the largest with an item
    at or before it, yet neither search returns, at any depth: after the
    probe of page 2 both are called on [2, 3], whose midpoint [round(2.5)]
    is 2 again. *)
Theorem boundary_search_misses_gap_between_pages :
  let self := crawler_of_window (day 16050) (day 16050) in
  let net := network_of_pages three_pages in
  ascending_stream three_pages = true
  /\ smallest_page_from net Pulls 3 (day 16050) 3
  /\ largest_page_until net Pulls 3 (day 16050) 2
  /\ forall (depth : nat) (w : world),
       fst (_get_starting_page self net depth Pulls w) = Unfinished
       /\ fst (_get_ending_page self net depth Pulls w) = Unfinished.
Proof.
  intros self net. split; [reflexivity|]. split; [|split].
  - split; [lia|]. split.
    + exists [Item 5 (noon 16060) None; Item 6 (noon 16070) None],
             (Item 5 (noon 16060) None).
      split; [reflexivity|]. split; [apply list_elem_of_here|discriminate].
    + intros q Hq (l & i & Hl & Hi & Ht).
      unfold noon, day in *.
      destruct (three_pages_item q l i Hl Hi) as [[? ?]|[[? ?]|[? ?]]];
        unfold noon, day in *; lia.
  - split; [lia|]. split.
    + exists [Item 3 (noon 16030) None; Item 4 (noon 16040) None],
             (Item 3 (noon 16030) None).
      split; [reflexivity|]. split; [apply list_elem_of_here|discriminate].
    + intros q Hq (l & i & Hl & Hi & Ht).
      unfold noon, day in *.
      destruct (three_pages_item q l i Hl Hi) as [[? ?]|[[? ?]|[? ?]]];
        unfold noon, day in *; lia.
  - intros depth w. split.
    + unfold _get_starting_page, bind. cbn -[_find_start_page].
      destruct depth as [|d]; [reflexivity|].
      cbn -[_find_start_page].
      eapply (_find_start_page_stuck self net d Pulls 2 3); [lia|reflexivity|].
      right. repeat split; (reflexivity || discriminate).
    + unfold _get_ending_page, bind. cbn -[_find_end_page].
      destruct depth as [|d]; [reflexivity|].
      cbn -[_find_end_page].
      eapply (_find_end_page_stuck self net d Pulls 2 3); [lia|reflexivity|].
      right. repeat split; (reflexivity || discriminate).
Qed.

(** C5, the failing input.  The window starts on day 16035 (in November
    2013, before 2015) and no start page is given; the start page is
    nevertheless the one the binary search finds (page 2), after its probe
    of page 2: the assignment of page 1 is overwritten by the call of
    [_get_starting_page]. *)
Theorem start_before_2015_still_searches :
  let self := crawler_of_window (day 16035) (day 18262) in
  let net := network_of_pages three_pages in
  (start_date self <? epoch_2015) = true
  /\ resolve_start_page self net 1000 Pulls (-1) empty_world
     = (Returns 2, World [ListPage Pulls 1; ListPage Pulls 2] [])
  /\ resolve_start_page self net 1000 Issues (-1) empty_world
     = (Returns 2, World [ListPage Issues 1; ListPage Issues 2] []).
Proof.
  intros self net. split; [reflexivity|]. split; reflexivity.
Qed.

(** ** The request fetcher *)

(** [_try_to_get] hands a response back only with [ok] true, and the only
    pair it returns with [ok] false and a first component is the [{}] of
    a 404. *)
Lemma _try_to_get_pair (answers : list attempt) (now : Z) (naps : list Z)
    (r : reply) (good : bool) (w' : wire) :
  _try_to_get answers now naps = (Returns (Pair (Some r) good), w') ->
  (good = false /\ r = EmptyDict) \/ (good = true /\ exists resp, r = Full resp).
Proof.
  revert now naps. induction answers as [|a answers IH]; intros now naps H;
    cbn [_try_to_get] in H; [discriminate|].
  destruct a as [|resp]; [discriminate|].
  destruct (negb (ok resp)).
  - destruct (status_code resp =? 404).
    + injection H as <- <- _. left. auto.
    + destruct (ratelimit_hit resp) as [reset|]; [|discriminate].
      destruct (reset - now + 1 <? 0); [discriminate|]. exact (IH _ _ H).
  - destruct (error_message resp); [discriminate|].
    injection H as <- <- _. right. eauto.
Qed.

Lemma _try_to_get_uses_script (answers : list attempt) (now : Z) (naps : list Z)
    (t : tried) (w' : wire) :
  _try_to_get answers now naps = (Returns t, w') ->
  (length (script w') < length answers)%nat.
Proof.
  revert now naps. induction answers as [|a answers IH]; intros now naps H;
    cbn [_try_to_get] in H; [discriminate|].
  destruct a as [|resp]; [injection H as _ <-; cbn; lia|].
  destruct (negb (ok resp)).
  - destruct (status_code resp =? 404); [injection H as _ <-; cbn; lia|].
    destruct (ratelimit_hit resp) as [reset|]; [|injection H as _ <-; cbn; lia].
    destruct (reset - now + 1 <? 0); [injection H as _ <-; cbn; lia|].
    specialize (IH _ _ H). cbn [length]. lia.
  - destruct (error_message resp); injection H as _ <-; cbn; lia.
Qed.

(** The retry loop never needs more iterations than there are scripted
    answers: with more fuel than that the result does not depend on it. *)
Lemma _get_loop_fuel (self : Crawler) (fuel fuel' : nat) (tries : Z) (w : wire) :
  (length (script w) < fuel)%nat -> (length (script w) < fuel')%nat ->
  _get_loop fuel self tries w = _get_loop fuel' self tries w.
Proof.
  revert fuel' tries w. induction fuel as [|fuel IH]; intros fuel' tries w H H'; [lia|].
  destruct fuel' as [|fuel']; [lia|]. cbn [_get_loop].
  destruct (_try_to_get (script w) (clock w) (slept w)) as [[[|[r|] ok]|e|] w1] eqn:E;
    try reflexivity.
  pose proof (_try_to_get_uses_script _ _ _ _ _ E) as Hlen.
  destruct (max_request_tries self <=? tries + 1); [reflexivity|].
  destruct (request_retry_wait_secs self <? 0); [reflexivity|].
  apply IH; cbn [script]; lia.
Qed.

(** A fetch that comes back not ok is the [{}] of a 404. *)
Lemma _get_not_ok_is_404 (self : Crawler) (fuel : nat) (tries : Z) (w w' : wire)
    (r : reply) :
  _get_loop fuel self tries w = (Returns (r, false), w') -> r = EmptyDict.
Proof.
  revert tries w. induction fuel as [|fuel IH]; intros tries w H;
    cbn [_get_loop] in H; [discriminate|].
  destruct (_try_to_get (script w) (clock w) (slept w)) as [[[|[r0|] ok]|e|] w1] eqn:E;
    try discriminate.
  - injection H as -> -> _.
    destruct (_try_to_get_pair _ _ _ _ _ _ E) as [[_ ->]|[? _]]; [reflexivity|discriminate].
  - destruct (max_request_tries self <=? tries + 1); [discriminate|].
    destruct (request_retry_wait_secs self <? 0); [discriminate|].
    exact (IH _ _ H).
Qed.

(** A refused answer that is neither a 404 nor rate limiting uses up one
    try: the loop raises when the budget is reached, and otherwise sleeps
    [request_retry_wait_secs] and goes on with [tries + 1]. *)
Lemma _get_loop_refused (self : Crawler) (fuel : nat) (tries now : Z)
    (naps : list Z) (r : response) (rest : list attempt) :
  ok r = false -> status_code r <> 404 -> ratelimit_hit r = None ->
  _get_loop (S fuel) self tries (Wire now naps (Answers r :: rest))
  = if max_request_tries self <=? tries + 1 then
      (Raises TooManyRequestFailures, Wire now naps rest)
    else if request_retry_wait_secs self <? 0 then
      (Raises ValueError, Wire now naps rest)
    else
      _get_loop fuel self (tries + 1)
        (Wire (now + request_retry_wait_secs self)
              (naps ++ [request_retry_wait_secs self]) rest).
Proof.
  intros Hok H404 Hhit. cbn [_get_loop script clock slept _try_to_get].
  rewrite Hok. cbn [negb].
  destruct (Z.eqb_spec (status_code r) 404); [contradiction|].
  rewrite Hhit. reflexivity.
Qed.

Lemma _try_to_get_rate_limited (now reset : Z) (naps : list Z) (r : response)
    (rest : list attempt) :
  rate_limited r reset -> 0 <= reset - now + 1 ->
  _try_to_get (Answers r :: rest) now naps
  = _try_to_get rest (reset + 1) (naps ++ [reset - now + 1]).
Proof.
  intros (Hok & H404 & Hhit) Hwait. cbn [_try_to_get].
  rewrite Hok. cbn [negb].
  destruct (Z.eqb_spec (status_code r) 404); [contradiction|].
  rewrite Hhit.
  destruct (Z.ltb_spec (reset - now + 1) 0); [lia|].
  f_equal. lia.
Qed.

(** A run of rate-limited answers none of which names a reset time more
    than a second in the past is waited out inside one call of
    [_try_to_get]: it sleeps until one second after each reset time and
    asks again. *)
Lemma _try_to_get_waits_out (now : Z) (naps : list Z) (rs : list response)
    (resets : list Z) (rest : list attempt) :
  Forall2 rate_limited rs resets ->
  Forall (Z.le 0) (ratelimit_waits now resets) ->
  _try_to_get ((Answers <$> rs) ++ rest) now naps
  = _try_to_get rest (clock_after now resets) (naps ++ ratelimit_waits now resets).
Proof.
  intros Hrs. revert now naps.
  induction Hrs as [|r reset rs resets Hr Hrs IH]; intros now naps Hwaits.
  - cbn. rewrite app_nil_r. reflexivity.
  - cbn [ratelimit_waits] in Hwaits. apply Forall_cons in Hwaits as [Hw Hwaits].
    cbn [fmap list_fmap app].
    rewrite (_try_to_get_rate_limited now reset naps r _ Hr Hw).
    rewrite (IH (reset + 1) (naps ++ [reset - now + 1]) Hwaits).
    cbn [ratelimit_waits clock_after foldl]. rewrite <- app_assoc. reflexivity.
Qed.

(** C4, the failing input.  At 1000 on the clock a 403 comes back with
    the remaining quota at 0 and the reset time 998: a rate-limited answer,
    whose wait [998 - 1000 + 1] is negative.  [time.sleep] refuses it inside
    the [try] block, [_try_to_get] returns the bare [None] and the unpacking
    in [_get] raises [TypeError]: nothing is slept, no retry is made, and
    the answer that would have succeeded is never asked for.  With the reset
    time one second in the past, or in the future, the same answer is waited
    out as documented: one sleep of [reset - now + 1] seconds (0 and 61),
    then the retry, which returns the next answer without a try being used
    (a budget of a single try is enough); two such answers in a row give two
    sleeps, and no number of them ends the fetch by
    [TooManyRequestFailures]. *)
Theorem rate_limit_reset_in_the_past_ends_fetch_with_type_error :
  let self := crawler_of_window 0 0 in
  let single_try :=
    {| per_page := 100; save_pull_pages := false; max_request_tries := 1;
       request_retry_wait_secs := 10; start_date := 0; end_date := 0;
       _max_issue_number := -1 |} in
  rate_limited (quota_exhausted 998) 998
  /\ _try_to_get [Answers (quota_exhausted 998); Answers ok_response] 1000 []
     = (Returns BareNone, Wire 1000 [] [Answers ok_response])
  /\ _get self (Wire 1000 [] [Answers (quota_exhausted 998); Answers ok_response])
     = (Raises TypeError, Wire 1000 [] [Answers ok_response])
  /\ _get self (Wire 1000 [] [Answers (quota_exhausted 999); Answers ok_response])
     = (Returns (Full ok_response, true), Wire 1000 [0] [])
  /\ _get self (Wire 1000 [] [Answers (quota_exhausted 1060); Answers ok_response])
     = (Returns (Full ok_response, true), Wire 1061 [61] [])
  /\ _get single_try
          (Wire 1000 [] [Answers (quota_exhausted 1060); Answers (quota_exhausted 4660);
                         Answers ok_response])
     = (Returns (Full ok_response, true), Wire 4661 [61; 3600] [])
  /\ fst (_get single_try
            (Wire 1000 [] (replicate 200 (Answers (quota_exhausted 1060)))))
     = Unfinished.
Proof.
  intros self single_try.
  split; [repeat split; cbn; congruence|].
  repeat split; vm_compute; reflexivity.
Qed.

(** Whatever their reset times, rate-limited answers alone never end the
    fetch by [TooManyRequestFailures], however many tries were used
    before them. *)
Lemma rate_limited_answers_never_exhaust_budget (self : Crawler) (fuel : nat)
    (tries now : Z) (naps : list Z) (rs : list response) :
  Forall (fun r => exists reset, rate_limited r reset) rs ->
  fst (_get_loop fuel self tries (Wire now naps (Answers <$> rs)))
  <> Raises TooManyRequestFailures.
Proof.
  intros Hrs.
  assert (Htry : forall now naps,
    fst (_try_to_get (Answers <$> rs) now naps) = Unfinished
    \/ fst (_try_to_get (Answers <$> rs) now naps) = Returns BareNone).
  { induction Hrs as [|r rs (reset & Hok & H404 & Hhit) _ IH]; intros now' naps'.
    - left. reflexivity.
    - cbn [fmap list_fmap _try_to_get]. rewrite Hok. cbn [negb].
      destruct (Z.eqb_spec (status_code r) 404); [contradiction|].
      rewrite Hhit. destruct (reset - now' + 1 <? 0); [right; reflexivity|apply IH]. }
  destruct fuel as [|fuel]; [discriminate|].
  cbn [_get_loop script clock slept].
  destruct (Htry now naps) as [H|H];
    destruct (_try_to_get (Answers <$> rs) now naps) as [o w'];
    cbn [fst] in H; subst o; discriminate.
Qed.

(** C3, the failing input.  When [requests.get] raises, or the payload
    carries an error message, [_try_to_get] returns the bare [None] and the
    unpacking in [_get] raises [TypeError] at once: no try is used, nothing
    is slept, the answer that would have succeeded is never asked for.  The
    sibling path of a refused answer behaves as documented: two 500s and a
    success use two tries and sleep twice, and a budget of failures ends in
    [TooManyRequestFailures]. *)
Theorem network_exception_ends_fetch_with_type_error :
  let self := crawler_of_window 0 0 in
  _get self (Wire 0 [] [ConnectionFails; Answers ok_response])
  = (Raises TypeError, Wire 0 [] [Answers ok_response])
  /\ _get self (Wire 0 [] [Answers error_payload; Answers ok_response])
     = (Raises TypeError, Wire 0 [] [Answers ok_response])
  /\ _get self (Wire 0 [] [Answers server_error; Answers server_error; Answers ok_response])
     = (Returns (Full ok_response, true), Wire 20 [10; 10] [])
  /\ fst (_get self (Wire 0 [] (replicate 100 (Answers server_error))))
     = Raises TooManyRequestFailures.
Proof.
  intros self. repeat split; vm_compute; reflexivity.
Qed.

(** ** The link extractor *)

Lemma fold_case_idem (c : ascii) : fold_case (fold_case c) = fold_case c.
Proof. destruct c as [[] [] [] [] [] [] [] []]; reflexivity. Qed.

Lemma is_newline_fold (c : ascii) : is_newline (fold_case c) = is_newline c.
Proof. destruct c as [[] [] [] [] [] [] [] []]; reflexivity. Qed.

Lemma is_word_fold (c : ascii) : is_word (fold_case c) = is_word c.
Proof. destruct c as [[] [] [] [] [] [] [] []]; reflexivity. Qed.

Lemma is_space_fold (c : ascii) : is_space (fold_case c) = is_space c.
Proof. destruct c as [[] [] [] [] [] [] [] []]; reflexivity. Qed.

Lemma is_digit_fold (c : ascii) : is_digit (fold_case c) = is_digit c.
Proof. destruct c as [[] [] [] [] [] [] [] []]; reflexivity. Qed.

Lemma fold_case_digit (c : ascii) : is_digit c = true -> fold_case c = c.
Proof. destruct c as [[] [] [] [] [] [] [] []]; (reflexivity || discriminate). Qed.

Lemma last_default_cons {A} (d x : A) (ds : list A) : List.last (d :: ds) x = List.last ds d.
Proof.
  revert d x. induction ds as [|a ds IH]; intros d x; [reflexivity|].
  change (List.last (d :: a :: ds) x) with (List.last (a :: ds) x).
  rewrite (IH a x), (IH a d). reflexivity.
Qed.

Lemma plus_more_all (class : ascii -> bool) (ds : text) (x : ascii) (rest : text)
    (cap : option text) (k : continuation) (m : text * text) :
  Forall (fun c => class c = true) ds ->
  (forall c, head rest = Some c -> class c = false) ->
  k (Some (List.last ds x)) rest cap = Some m ->
  plus_more class x (ds ++ rest) cap k = Some m.
Proof.
  intros Hds Hrest. revert x. induction Hds as [|d ds Hd Hds IH]; intros x Hk.
  - cbn in *. destruct rest as [|c rest]; [exact Hk|].
    cbn. rewrite (Hrest c eq_refl). exact Hk.
  - cbn [app plus_more]. rewrite Hd. rewrite IH; [reflexivity|].
    rewrite <- (last_default_cons d x). exact Hk.
Qed.

Lemma keywords_then_space (R : regex) (prev : option ascii) (s : text)
    (cap : option text) (k : continuation) :
  is_word_at prev = false ->
  rmatch true (Seq WordBoundary (Seq closing_keywords (Seq (Plus is_space) R)))
         prev (str "fixes #" ++ s) cap k
  = rmatch true R (Some " "%char) ("#"%char :: s) cap k.
Proof.
  intros Hprev. simpl. rewrite Hprev. simpl.
  destruct (rmatch true R (Some " "%char) ("#"%char :: s) cap k); reflexivity.
Qed.

Lemma name_char_not_hash (c : ascii) :
  name_char c = true -> char_matches true "#" c = false.
Proof.
  destruct c as [[] [] [] [] [] [] [] []]; vm_compute; congruence.
Qed.

Lemma name_char_not_backslash (c : ascii) :
  name_char c = true -> same_char c "\" = false.
Proof.
  destruct c as [[] [] [] [] [] [] [] []]; vm_compute; congruence.
Qed.

Lemma name_char_not_anchor (c : ascii) :
  name_char c = true -> same_char c "^" = false /\ same_char c "$" = false.
Proof.
  destruct c as [[] [] [] [] [] [] [] []]; vm_compute; split; congruence.
Qed.

Lemma name_on_hash (name : text) (prev : option ascii) (s : text)
    (cap : option text) (k : continuation) :
  Forall (fun c => name_char c = true) name ->
  rmatch true (compile_name (escape_dots name)) prev ("#"%char :: s) cap k
  = match name with
    | [] => k prev ("#"%char :: s) cap
    | _ :: _ => None
    end.
Proof.
  intros Hname. destruct Hname as [|c name Hc Hname]; [reflexivity|].
  cbn [escape_dots flat_map].
  destruct (same_char c ".") eqn:Hdot.
  - reflexivity.
  - cbn [app compile_name]. rewrite (name_char_not_backslash c Hc), Hdot.
    destruct (name_char_not_anchor c Hc) as [-> ->].
    cbn [rmatch]. rewrite (name_char_not_hash c Hc). reflexivity.
Qed.

Lemma reference_bare_hash (owner repo : text) (R : regex) (s : text)
    (cap : option text) (k : continuation) :
  Forall (fun c => name_char c = true) owner ->
  rmatch true
    (Seq (Alt (Seq (lit (str "https://github.com/"))
                 (Seq (compile_name (escape_dots owner))
                      (Seq (Lit "/") (Seq (compile_name (escape_dots repo))
                                          (lit (str "/issues/"))))))
         (Alt (Seq (compile_name (escape_dots owner))
                   (Seq (Lit "/") (Seq (compile_name (escape_dots repo)) (Lit "#"))))
              (Lit "#"))) R)
    (Some " "%char) ("#"%char :: s) cap k
  = rmatch true R (Some "#"%char) s cap k.
Proof.
  intros Howner. cbn [rmatch].
  rewrite (name_on_hash owner _ _ _ _ Howner).
  simpl. destruct owner; reflexivity.
Qed.

Lemma last_default_Forall {A} (P : A -> Prop) (d0 : A) (ds : list A) :
  Forall P (d0 :: ds) -> P (List.last ds d0).
Proof.
  revert d0. induction ds as [|d ds IH]; intros d0 H.
  - apply Forall_cons in H as [H _]. exact H.
  - rewrite last_default_cons. apply IH. apply Forall_cons in H as [_ H]. exact H.
Qed.

Lemma digit_is_word (c : ascii) : is_digit c = true -> is_word c = true.
Proof. intros H. unfold is_word. rewrite H. reflexivity. Qed.

Lemma digits_then_boundary (d0 : ascii) (ds rest : text) (prev : option ascii) :
  Forall (fun c => is_digit c = true) (d0 :: ds) ->
  rmatch true (Seq (Group (Plus is_digit)) WordBoundary) prev
         ((d0 :: ds) ++ " "%char :: rest) None matched
  = Some (d0 :: ds, " "%char :: rest).
Proof.
  intros Hd. pose proof (last_default_Forall _ _ _ Hd) as Hlast. cbn beta in Hlast.
  apply Forall_cons in Hd as [Hd0 Hds].
  cbn [rmatch app]. rewrite Hd0.
  apply plus_more_all; [exact Hds| |].
  - intros c [= <-]. reflexivity.
  - cbn [is_word_at head]. rewrite (digit_is_word _ Hlast).
    change (is_word " ") with false. cbn [xorb matched default].
    replace (length (d0 :: ds ++ " "%char :: rest) - length (" "%char :: rest))%nat
      with (length (d0 :: ds)) by (cbn [length]; rewrite length_app; cbn [length]; lia).
    rewrite (app_comm_cons ds), take_app_length. reflexivity.
Qed.

Section ClosingBodies.
Variables owner repo : text.
Hypothesis owner_is_name : Forall (fun c => name_char c = true) owner.

Let re := _make_linked_issues_regex owner repo.

Lemma closing_reference_matches (prev : option ascii) (d rest : text) :
  is_word_at prev = false -> d <> [] ->
  Forall (fun c => is_digit c = true) d ->
  rmatch (ignorecase re) (pattern re) prev
         (str "fixes #" ++ d ++ " "%char :: rest) None matched
  = Some (d, " "%char :: rest).
Proof.
  intros Hprev Hne Hd. destruct d as [|d0 ds]; [contradiction|].
  unfold re, _make_linked_issues_regex, _linked_issues_pattern.
  cbn [ignorecase pattern].
  rewrite keywords_then_space by exact Hprev.
  rewrite reference_bare_hash by exact owner_is_name.
  apply digits_then_boundary. exact Hd.
Qed.

Lemma findall_skip (c : compiled) (a b : text) (prev : option ascii) :
  findall_from c prev (a ++ b) (length a)
  = findall_from c (from_option Some prev (last a)) b 0.
Proof.
  revert prev. induction a as [|x a IH]; intros prev; [reflexivity|].
  cbn [app length findall_from]. rewrite IH, last_cons.
  destruct (last a); reflexivity.
Qed.

Lemma no_reference_at_space (prev : option ascii) (rest : text) :
  rmatch (ignorecase re) (pattern re) prev (" "%char :: rest) None matched = None.
Proof.
  unfold re, _make_linked_issues_regex, _linked_issues_pattern.
  cbn [ignorecase pattern]. simpl.
  destruct (xorb (is_word_at prev) (is_word " ")); reflexivity.
Qed.

Lemma findall_closing_reference (prev : option ascii) (d rest : text) :
  is_word_at prev = false -> d <> [] ->
  Forall (fun c => is_digit c = true) d ->
  findall_from re prev (str "fixes #" ++ d ++ " "%char :: rest) 0
  = d :: findall_from re (Some " "%char) rest 0.
Proof.
  intros Hprev Hne Hd.
  pose proof (closing_reference_matches prev d rest Hprev Hne Hd) as Hm.
  change (str "fixes #" ++ d ++ " "%char :: rest)
    with ("f"%char :: (str "ixes #" ++ d ++ " "%char :: rest)) in *.
  cbn [findall_from]. rewrite Hm. f_equal.
  replace (length ("f"%char :: str "ixes #" ++ d ++ " "%char :: rest)
           - length (" "%char :: rest) - 1)%nat
    with (length (str "ixes #" ++ d))
    by (cbn [length]; rewrite !length_app; cbn [length]; lia).
  rewrite (app_assoc (str "ixes #") d), findall_skip.
  destruct (last (str "ixes #" ++ d)) as [x|]; cbn [from_option findall_from];
    rewrite no_reference_at_space; reflexivity.
Qed.

Lemma findall_closing_body (prev : option ascii) (ds : list text) :
  is_word_at prev = false ->
  Forall (fun d => d <> [] /\ Forall (fun c => is_digit c = true) d) ds ->
  findall_from re prev (closing_body ds) 0 = ds.
Proof.
  intros Hprev Hds. revert prev Hprev.
  induction Hds as [|d ds [Hne Hd] Hds IH]; intros prev Hprev.
  - cbn. unfold re, _make_linked_issues_regex. cbn. rewrite Hprev. reflexivity.
  - unfold closing_body. cbn [fmap list_fmap concat].
    rewrite <- !app_assoc. change (str " " ++ ?x) with (" "%char :: x).
    rewrite findall_closing_reference by assumption.
    f_equal. apply IH. reflexivity.
Qed.

End ClosingBodies.

(** *** Literal pieces of a pattern *)

Lemma same_char_eq (a b : ascii) : same_char a b = true -> a = b.
Proof.
  unfold same_char, code. intros H. apply N.eqb_eq in H.
  rewrite <- (ascii_N_embedding a), <- (ascii_N_embedding b), H. reflexivity.
Qed.

Lemma strip_prefix_app (p1 p2 s : text) :
  strip_prefix (p1 ++ p2) s
  = match strip_prefix p1 s with
    | Some rest => strip_prefix p2 rest
    | None => None
    end.
Proof.
  revert s. induction p1 as [|c p1 IH]; intros s; [reflexivity|].
  destruct s as [|x s]; cbn [app strip_prefix]; [reflexivity|].
  destruct (same_char (fold_case x) (fold_case c)); [apply IH|reflexivity].
Qed.

Lemma reads_nothing : reads Nothing [].
Proof. intros prev s cap k Hk. cbn. apply Hk. Qed.

Lemma reads_char (c : ascii) : reads (Lit c) [c].
Proof.
  intros prev s cap k Hk. cbn [rmatch strip_prefix]. destruct s as [|x s]; [reflexivity|].
  unfold char_matches. destruct (same_char (fold_case x) (fold_case c)); [apply Hk|reflexivity].
Qed.

Lemma reads_seq (r1 r2 : regex) (p1 p2 : text) :
  reads r1 p1 -> reads r2 p2 -> reads (Seq r1 r2) (p1 ++ p2).
Proof.
  intros H1 H2 prev s cap k Hk. cbn [rmatch].
  rewrite H1.
  2:{ intros q1 q2 s' c. rewrite (H2 q1 s' c k Hk), (H2 q2 s' c k Hk). reflexivity. }
  rewrite strip_prefix_app. destruct (strip_prefix p1 s) as [rest|]; [|reflexivity].
  apply H2. exact Hk.
Qed.

Lemma reads_lit (p : text) : reads (lit p) p.
Proof.
  induction p as [|c p IH]; [exact reads_nothing|].
  exact (reads_seq (Lit c) (lit p) [c] p (reads_char c) IH).
Qed.

Lemma reads_name (name : text) :
  Forall (fun c => name_char c = true) name ->
  reads (compile_name (escape_dots name)) name.
Proof.
  induction 1 as [|c name Hc _ IH]; [exact reads_nothing|].
  cbn [escape_dots flat_map]. fold (escape_dots name).
  destruct (same_char c ".") eqn:Hdot.
  - apply same_char_eq in Hdot. subst c.
    change (compile_name (["\"; "."]%char ++ escape_dots name))
      with (Seq (Lit ".") (compile_name (escape_dots name))).
    exact (reads_seq _ _ ["."%char] name (reads_char _) IH).
  - cbn [app compile_name]. rewrite (name_char_not_backslash c Hc), Hdot.
    destruct (name_char_not_anchor c Hc) as [-> ->].
    exact (reads_seq _ _ [c] name (reads_char c) IH).
Qed.

(** *** Greedy runs *)

Lemma span_app (class : ascii -> bool) (s : text) :
  fst (span class s) ++ snd (span class s) = s.
Proof.
  induction s as [|x s IH]; [reflexivity|]. cbn [span].
  destruct (class x); cbn [fst snd app]; [rewrite IH|]; reflexivity.
Qed.

Lemma span_Forall (class : ascii -> bool) (s : text) :
  Forall (fun c => class c = true) (fst (span class s)).
Proof.
  induction s as [|x s IH]; [constructor|]. cbn [span].
  destruct (class x) eqn:Hx; cbn [fst]; [constructor; assumption|constructor].
Qed.

Lemma plus_more_span (class : ascii -> bool) (prev : ascii) (s : text)
    (cap : option text) (k : continuation) :
  class prev = true ->
  (forall p c s', class p = true -> class c = true -> k (Some p) (c :: s') cap = None) ->
  plus_more class prev s cap k
  = k (Some (List.last (fst (span class s)) prev)) (snd (span class s)) cap.
Proof.
  intros Hprev Hk. revert prev Hprev. induction s as [|x s IH]; intros prev Hprev;
    [reflexivity|].
  cbn [plus_more span]. destruct (class x) eqn:Hx; [|reflexivity].
  cbn [fst snd]. rewrite last_default_cons, (IH x Hx).
  destruct (k (Some (List.last (fst (span class s)) x)) (snd (span class s)) cap);
    [reflexivity|].
  apply Hk; assumption.
Qed.

(** Greedy [class+] before a continuation that fails on a character of
    the class: the whole run is taken. *)
Lemma plus_takes_the_run (class : ascii -> bool) (prev : option ascii) (s : text)
    (cap : option text) (k : continuation) :
  (forall p c s', class p = true -> class c = true -> k (Some p) (c :: s') cap = None) ->
  rmatch true (Plus class) prev s cap k
  = match span class s with
    | ([], _) => None
    | (x :: run, rest) => k (Some (List.last run x)) rest cap
    end.
Proof.
  intros Hk. cbn [rmatch]. destruct s as [|x s]; [reflexivity|].
  cbn [span]. destruct (class x) eqn:Hx; [|reflexivity].
  apply plus_more_span; assumption.
Qed.

(** *** The number and the boundary after it *)

Lemma number_then_boundary (prev : option ascii) (s : text) :
  rmatch true (Seq (Group (Plus is_digit)) WordBoundary) prev s None matched
  = number_at s.
Proof.
  change (rmatch true (Seq (Group (Plus is_digit)) WordBoundary) prev s None matched)
    with (rmatch true (Plus is_digit) prev s None
            (fun p s' (_ : option text) =>
               if xorb (is_word_at p) (is_word_at (head s'))
               then matched p s' (Some (take (length s - length s') s))
               else None)).
  rewrite plus_takes_the_run.
  2:{ intros p c s' Hp Hc. cbn [is_word_at head].
      rewrite (digit_is_word p Hp), (digit_is_word c Hc). reflexivity. }
  unfold number_at.
  pose proof (span_app is_digit s) as Happ.
  pose proof (span_Forall is_digit s) as Hall.
  destruct (span is_digit s) as [[|x run] rest]; [reflexivity|].
  cbn [fst snd] in *.
  pose proof (last_default_Forall _ _ _ Hall) as Hlast. cbn beta in Hlast.
  cbn [is_word_at]. rewrite (digit_is_word _ Hlast). cbn [xorb].
  destruct (is_word_at (head rest)); cbn [negb]; [reflexivity|].
  unfold matched. cbn [default]. f_equal. f_equal.
  rewrite <- Happ at 2. 
  replace (length s - length rest)%nat with (length (x :: run)).
  - apply take_app_length.
  - rewrite <- Happ. rewrite length_app. lia.
Qed.

(** *** The pattern, piece by piece *)

Lemma rmatch_seq (ic : bool) (r1 r2 : regex) (prev : option ascii) (s : text)
    (cap : option text) (k : continuation) :
  rmatch ic (Seq r1 r2) prev s cap k
  = rmatch ic r1 prev s cap (fun p s' c => rmatch ic r2 p s' c k).
Proof. reflexivity. Qed.

Lemma rmatch_alt (ic : bool) (r1 r2 : regex) (prev : option ascii) (s : text)
    (cap : option text) (k : continuation) :
  rmatch ic (Alt r1 r2) prev s cap k
  = match rmatch ic r1 prev s cap k with
    | Some m => Some m
    | None => rmatch ic r2 prev s cap k
    end.
Proof. reflexivity. Qed.

Lemma space_is_no_name_char (c : ascii) : name_char c = true -> is_space c = false.
Proof. destruct c as [[] [] [] [] [] [] [] []]; vm_compute; congruence. Qed.

Lemma strip_prefix_at_space (d c : ascii) (p s : text) :
  is_space c = true -> is_space d = false -> strip_prefix (d :: p) (c :: s) = None.
Proof.
  intros Hc Hd. cbn [strip_prefix].
  destruct (same_char (fold_case c) (fold_case d)) eqn:E; [|reflexivity].
  apply same_char_eq in E.
  rewrite <- (is_space_fold c), E, is_space_fold, Hd in Hc. discriminate.
Qed.

Lemma strip_prefix_word (d : ascii) (p s rest : text) :
  is_word d = true -> strip_prefix (d :: p) s = Some rest ->
  is_word_at (head s) = true.
Proof.
  intros Hd. destruct s as [|x s]; cbn [strip_prefix]; [discriminate|].
  destruct (same_char (fold_case x) (fold_case d)) eqn:E; [|discriminate].
  intros _. apply same_char_eq in E. cbn [head is_word_at].
  rewrite <- (is_word_fold x), E, is_word_fold. exact Hd.
Qed.

Lemma first_of_ext {A B} (f g : A -> option B) (l : list A) :
  (forall a, f a = g a) -> first_of f l = first_of g l.
Proof.
  intros H. induction l as [|a l IH]; [reflexivity|].
  cbn [first_of]. rewrite H, IH. reflexivity.
Qed.

Lemma keywords_first_of (prev : option ascii) (s : text) (cap : option text)
    (k : continuation) :
  (forall p1 p2 s' c, k p1 s' c = k p2 s' c) ->
  rmatch true closing_keywords prev s cap k
  = first_of (fun word =>
                match strip_prefix word s with
                | Some after_word => k None after_word cap
                | None => None
                end) closing_words.
Proof.
  intros Hk. unfold closing_keywords. rewrite !rmatch_alt.
  rewrite !reads_lit by exact Hk.
  unfold closing_words. cbn [first_of].
  destruct (strip_prefix (str "resolved") s) as [rest|]; [|reflexivity].
  destruct (k None rest cap); reflexivity.
Qed.

Section References.
Variables owner repo : text.
Hypothesis owner_is_name : Forall (fun c => name_char c = true) owner.
Hypothesis repo_is_name : Forall (fun c => name_char c = true) repo.

Lemma forms_then_number (prev : option ascii) (s : text) :
  rmatch true
    (Seq (Alt (Seq (lit (str "https://github.com/"))
                   (Seq (compile_name (escape_dots owner))
                        (Seq (Lit "/") (Seq (compile_name (escape_dots repo))
                                            (lit (str "/issues/"))))))
              (Alt (Seq (compile_name (escape_dots owner))
                        (Seq (Lit "/") (Seq (compile_name (escape_dots repo)) (Lit "#"))))
                   (Lit "#")))
         (Seq (Group (Plus is_digit)) WordBoundary))
    prev s None matched
  = first_of (fun form =>
                match strip_prefix form s with
                | Some after_form => number_at after_form
                | None => None
                end) (reference_forms owner repo).
Proof.
  pose proof (reads_name owner owner_is_name) as Ho.
  pose proof (reads_name repo repo_is_name) as Hr.
  assert (H1 : reads (Seq (lit (str "https://github.com/"))
                      (Seq (compile_name (escape_dots owner))
                        (Seq (Lit "/") (Seq (compile_name (escape_dots repo))
                                            (lit (str "/issues/"))))))
                     (str "https://github.com/" ++ owner ++ str "/" ++ repo
                      ++ str "/issues/")).
  { repeat apply reads_seq; auto using reads_lit, reads_char. }
  assert (H2 : reads (Seq (compile_name (escape_dots owner))
                        (Seq (Lit "/") (Seq (compile_name (escape_dots repo)) (Lit "#"))))
                     (owner ++ str "/" ++ repo ++ str "#")).
  { repeat apply reads_seq; auto using reads_lit, reads_char. }
  rewrite rmatch_seq, !rmatch_alt.
  rewrite H1, H2, (reads_char "#") by (intros; reflexivity).
  unfold reference_forms. cbn [first_of].
  change (str "#") with ["#"%char].
  repeat match goal with
  | |- context [strip_prefix ?p s] =>
      destruct (strip_prefix p s) as [?rest|] eqn:?E; rewrite ?number_then_boundary
  end;
  repeat match goal with
  | |- context [number_at ?r] => destruct (number_at r)
  end; reflexivity.
Qed.

Lemma forms_not_at_space (c : ascii) (s : text) :
  is_space c = true ->
  first_of (fun form =>
              match strip_prefix form (c :: s) with
              | Some after_form => number_at after_form
              | None => None
              end) (reference_forms owner repo) = None.
Proof.
  intros Hc. unfold reference_forms. cbn [first_of].
  change (str "https://github.com/" ++ owner ++ str "/" ++ repo ++ str "/issues/")
    with ("h"%char :: (str "ttps://github.com/" ++ owner ++ str "/" ++ repo
                       ++ str "/issues/")).
  rewrite (strip_prefix_at_space "h" c _ s Hc eq_refl).
  change (str "#") with ["#"%char].
  rewrite (strip_prefix_at_space "#" c _ s Hc eq_refl).
  destruct owner_is_name as [|o owner' Ho _].
  - change ([] ++ str "/" ++ repo ++ ["#"%char])
      with ("/"%char :: (repo ++ ["#"%char])).
    rewrite (strip_prefix_at_space "/" c _ s Hc eq_refl). reflexivity.
  - cbn [app]. rewrite (strip_prefix_at_space o c _ s Hc (space_is_no_name_char o Ho)).
    reflexivity.
Qed.

Lemma space_then_forms (prev : option ascii) (s : text) :
  rmatch true
    (Seq (Plus is_space)
    (Seq (Alt (Seq (lit (str "https://github.com/"))
                   (Seq (compile_name (escape_dots owner))
                        (Seq (Lit "/") (Seq (compile_name (escape_dots repo))
                                            (lit (str "/issues/"))))))
              (Alt (Seq (compile_name (escape_dots owner))
                        (Seq (Lit "/") (Seq (compile_name (escape_dots repo)) (Lit "#"))))
                   (Lit "#")))
         (Seq (Group (Plus is_digit)) WordBoundary)))
    prev s None matched
  = match span is_space s with
    | ([], _) => None
    | (_, after_space) =>
      first_of (fun form =>
                  match strip_prefix form after_space with
                  | Some after_form => number_at after_form
                  | None => None
                  end) (reference_forms owner repo)
    end.
Proof.
  rewrite rmatch_seq, plus_takes_the_run.
  2:{ intros p c s' _ Hc. rewrite forms_then_number. apply forms_not_at_space. exact Hc. }
  destruct (span is_space s) as [[|x run] rest]; [reflexivity|].
  apply forms_then_number.
Qed.

Lemma strip_prefix_of_word (w s : text) :
  is_word_at (head s) = false -> is_word_at (head w) = true ->
  strip_prefix w s = None.
Proof.
  intros Hs Hw. destruct w as [|d w]; [discriminate|].
  destruct (strip_prefix (d :: w) s) as [rest|] eqn:E; [|reflexivity].
  apply (strip_prefix_word d w s rest Hw) in E. congruence.
Qed.

Lemma keywords_need_a_word (s : text) (f : text -> option (text * text)) :
  is_word_at (head s) = false ->
  first_of (fun word =>
              match strip_prefix word s with
              | Some after_word => f after_word
              | None => None
              end) closing_words = None.
Proof.
  intros Hs. unfold closing_words. cbn [first_of].
  rewrite !(strip_prefix_of_word _ s Hs) by reflexivity. reflexivity.
Qed.

(** What the pattern of linked issues matches at a position is the
    closing reference that starts there. *)
Lemma pattern_reads_closing_reference (prev : option ascii) (s : text) :
  rmatch true (pattern (_make_linked_issues_regex owner repo)) prev s None matched
  = closing_reference_at owner repo prev s.
Proof.
  cbn [_make_linked_issues_regex pattern]. unfold _linked_issues_pattern.
  rewrite rmatch_seq.
  change (rmatch true WordBoundary prev s None ?k)
    with (if xorb (is_word_at prev) (is_word_at (head s)) then k prev s None else None).
  cbn beta. unfold closing_reference_at.
  rewrite rmatch_seq, keywords_first_of by (intros; reflexivity).
  rewrite (first_of_ext _
             (fun word =>
                match strip_prefix word s with
                | Some after_word =>
                  match span is_space after_word with
                  | ([], _) => None
                  | (_, after_space) =>
                    first_of (fun form =>
                      match strip_prefix form after_space with
                      | Some after_form => number_at after_form
                      | None => None
                      end) (reference_forms owner repo)
                  end
                | None => None
                end)).
  2:{ intros word. destruct (strip_prefix word s) as [after_word|]; [|reflexivity].
      apply space_then_forms. }
  destruct (is_word_at (head s)) eqn:Hs.
  - destruct (is_word_at prev); reflexivity.
  - rewrite keywords_need_a_word by exact Hs. destruct (is_word_at prev); reflexivity.
Qed.

Lemma findall_reads_closing_references (prev : option ascii) (s : text) (skip : nat) :
  int_of_digits <$> findall_from (_make_linked_issues_regex owner repo) prev s skip
  = closing_references_from owner repo prev s skip.
Proof.
  revert prev skip. induction s as [|x s IH]; intros prev skip.
  - cbn [findall_from closing_references_from ignorecase _make_linked_issues_regex].
    destruct skip; [|reflexivity].
    rewrite pattern_reads_closing_reference. unfold closing_reference_at.
    destruct (is_word_at prev); [reflexivity|].
    rewrite keywords_need_a_word by reflexivity. reflexivity.
  - cbn [findall_from closing_references_from ignorecase _make_linked_issues_regex].
    destruct skip; [|apply IH].
    change (Compiled true (_linked_issues_pattern (compile_name (escape_dots owner))
                             (compile_name (escape_dots repo))))
      with (_make_linked_issues_regex owner repo).
    rewrite pattern_reads_closing_reference.
    destruct (closing_reference_at owner repo prev (x :: s)) as [[ds rest]|].
    + cbn [fmap list_fmap]. f_equal. apply IH.
    + apply IH.
Qed.

End References.

(** *** What a closing reference is made of *)

Lemma first_of_Some {A B} (f : A -> option B) (l : list A) (b : B) :
  first_of f l = Some b -> exists a, a ∈ l /\ f a = Some b.
Proof.
  induction l as [|a l IH]; cbn [first_of]; [discriminate|].
  destruct (f a) as [b'|] eqn:E.
  - intros [= <-]. exists a. split; [apply list_elem_of_here|exact E].
  - intros H. destruct (IH H) as (a' & Hin & Ha'). exists a'.
    split; [apply list_elem_of_further; exact Hin|exact Ha'].
Qed.

Lemma strip_prefix_suffix (p s rest : text) :
  strip_prefix p s = Some rest -> exists pre, s = pre ++ rest.
Proof.
  revert s. induction p as [|c p IH]; intros s; cbn [strip_prefix].
  - intros [= <-]. exists []. reflexivity.
  - destruct s as [|x s]; [discriminate|].
    destruct (same_char (fold_case x) (fold_case c)); [|discriminate].
    intros H. destruct (IH s H) as (pre & ->). exists (x :: pre). reflexivity.
Qed.

Lemma number_at_Some (s n rest : text) :
  number_at s = Some (n, rest) ->
  is_digits n /\ is_word_at (head rest) = false /\ s = n ++ rest.
Proof.
  unfold number_at.
  pose proof (span_app is_digit s) as Happ.
  pose proof (span_Forall is_digit s) as Hall.
  destruct (span is_digit s) as [[|x run] rest']; [discriminate|].
  cbn [fst snd] in *.
  destruct (is_word_at (head rest')) eqn:Hw; [discriminate|].
  intros [= <- <-]. split; [split; [discriminate|exact Hall]|].
  split; [exact Hw|]. symmetry. exact Happ.
Qed.

Lemma closing_reference_at_Some (owner repo : text) (prev : option ascii)
    (s n rest : text) :
  closing_reference_at owner repo prev s = Some (n, rest) ->
  is_word_at prev = false /\ is_digits n /\ is_word_at (head rest) = false
  /\ exists before, s = before ++ n ++ rest.
Proof.
  unfold closing_reference_at. destruct (is_word_at prev); [discriminate|].
  intros H. split; [reflexivity|].
  apply first_of_Some in H as (word & _ & H).
  destruct (strip_prefix word s) as [after_word|] eqn:Hword; [|discriminate].
  apply strip_prefix_suffix in Hword as (pre1 & ->).
  pose proof (span_app is_space after_word) as Hspace.
  destruct (span is_space after_word) as [[|x ws] after_space]; [discriminate|].
  cbn [fst snd] in Hspace.
  apply first_of_Some in H as (form & _ & H).
  destruct (strip_prefix form after_space) as [after_form|] eqn:Hform; [|discriminate].
  apply strip_prefix_suffix in Hform as (pre2 & ->).
  apply number_at_Some in H as (Hn & Hrest & ->).
  split; [exact Hn|]. split; [exact Hrest|].
  exists (pre1 ++ (x :: ws) ++ pre2). rewrite <- Hspace, <- !app_assoc. reflexivity.
Qed.

(** C6, amended.  For an owner and a repository named with the
    characters GitHub allows (letters, digits, [-], [_] and [.]) and for
    every body:
    - the numbers extracted are those of the closing references of the
      body, from left to right, each as often as it is referred to: a
      closing reference being a closing keyword that does not continue a
      word, white space, one of the three forms (the URL of an issue of the
      repository, [owner/repo#], the bare [#]) and a run of digits that no
      word character follows, keyword and form being read without regard to
      case and the dots of the names as dots;
    - a null body yields the empty list;
    - whatever the pattern matches starts where no word is running and
      captures a run of digits that is followed by no word character, so
      that the number of [#123abc] is not one;
    - a body that closes issues one after the other yields their numbers
      in the order written, repeated ones included;
    - the example of the specification yields [12; 34], [#123abc] yields
      nothing, keywords and names match in any case, and a dot of the
      owner's name matches a dot only. *)
Theorem linked_issue_numbers_in_order_of_appearance (owner repo : text)
    (body : text) :
  Forall (fun c => name_char c = true) owner ->
  Forall (fun c => name_char c = true) repo ->
  let re := _make_linked_issues_regex owner repo in
  _extract_linked_issue_numbers (Some body) re = closing_references owner repo body
  /\ _extract_linked_issue_numbers None re = []
  /\ (forall prev s n rest,
        rmatch (ignorecase re) (pattern re) prev s None matched = Some (n, rest) ->
        is_word_at prev = false /\ is_digits n /\ is_word_at (head rest) = false
        /\ exists before, s = before ++ n ++ rest)
  /\ (forall ds : list text,
        Forall (fun d => d <> [] /\ Forall (fun c => is_digit c = true) d) ds ->
        _extract_linked_issue_numbers (Some (closing_body ds)) re
        = int_of_digits <$> ds)
  /\ _extract_linked_issue_numbers
       (Some (str "Fixes #12 and closes OWNER/REPO#34"))
       (_make_linked_issues_regex (str "OWNER") (str "REPO")) = [12; 34]
  /\ _extract_linked_issue_numbers (Some (str "fixes #123abc"))
       (_make_linked_issues_regex (str "OWNER") (str "REPO")) = []
  /\ _extract_linked_issue_numbers
       (Some (str "RESOLVED #7, Closes owner/repo#8, prefixes #9"))
       (_make_linked_issues_regex (str "OWNER") (str "REPO")) = [7; 8]
  /\ _extract_linked_issue_numbers
       (Some (str "fix aXb/r#10, fix a.b/r#11, fix https://github.com/a.b/r/issues/12"))
       (_make_linked_issues_regex (str "a.b") (str "r")) = [11; 12].
Proof.
  intros Howner Hrepo re.
  split.
  { unfold _extract_linked_issue_numbers, findall, closing_references.
    apply (findall_reads_closing_references owner repo Howner Hrepo). }
  split; [reflexivity|].
  split.
  { intros prev s n rest H. subst re. cbn [ignorecase _make_linked_issues_regex] in H.
    change (_linked_issues_pattern (compile_name (escape_dots owner))
              (compile_name (escape_dots repo)))
      with (pattern (_make_linked_issues_regex owner repo)) in H.
    rewrite (pattern_reads_closing_reference owner repo Howner Hrepo) in H.
    exact (closing_reference_at_Some owner repo prev s n rest H). }
  split.
  { intros ds Hds. unfold _extract_linked_issue_numbers, findall.
    subst re. rewrite (findall_closing_body owner repo Howner None ds eq_refl Hds).
    reflexivity. }
  repeat split; vm_compute; reflexivity.
Qed.

Lemma linked_issue_numbers_in_order_of_appearance_witness :
  let owner := str "octo.cat" in
  let repo := str "Hello-World" in
  let re := _make_linked_issues_regex owner repo in
  let body :=
    str "Closes #3; fixes Octo.Cat/hello-world#1, RESOLVED https://github.com/octo.cat/Hello-World/issues/3 and fixed #20." in
  _extract_linked_issue_numbers (Some body) re = closing_references owner repo body
  /\ closing_references owner repo body = [3; 1; 3; 20]
  /\ _extract_linked_issue_numbers (Some (closing_body [str "3"; str "1"; str "3"]))
       re = [3; 1; 3].
Proof.
  intros owner repo re body.
  destruct (linked_issue_numbers_in_order_of_appearance owner repo body)
    as (Hbody & _ & _ & Hds & _).
  - repeat constructor.
  - repeat constructor.
  - split; [exact Hbody|]. split; [vm_compute; reflexivity|].
    apply (Hds [str "3"; str "1"; str "3"]). repeat constructor; discriminate.
Defined.

(** C6 as stated, for every owner and repository, fails for a name that
    holds an operator of [re] other than the dot, which line 32 leaves
    unescaped: in the owner [ca$h] the dollar sign is read as the end of
    the text, so the reference [ca$h/r#5] to issue 5 of that repository is
    not found. *)
Lemma owner_with_an_operator_is_not_read_as_written :
  let owner := str "ca$h" in
  let repo := str "r" in
  let body := str "fixes ca$h/r#5" in
  closing_references owner repo body = [5]
  /\ _extract_linked_issue_numbers (Some body) (_make_linked_issues_regex owner repo)
     = []
  /\ _extract_linked_issue_numbers (Some body) (_make_linked_issues_regex owner repo)
     <> closing_references owner repo body.
Proof.
  intros owner repo body.
  split; [vm_compute; reflexivity|]. split; [vm_compute; reflexivity|].
  vm_compute. discriminate.
Qed.

(** ** The crawl loops *)

Lemma asks_no_page_ret {A} (a : A) : asks_no_page (ret a).
Proof. intros w. split; [discriminate|reflexivity]. Qed.

Lemma asks_no_page_raise {A} (e : exn) : asks_no_page (@raise A e).
Proof. intros w. split; [discriminate|reflexivity]. Qed.

Lemma asks_no_page_bind {A B} (m : M A) (k : A -> M B) :
  asks_no_page m -> (forall a, asks_no_page (k a)) -> asks_no_page (bind m k).
Proof.
  intros Hm Hk w. unfold bind. destruct (Hm w) as [Hfin Hpages].
  destruct (m w) as [[a|e|] w'] eqn:E; cbn [fst snd] in *.
  - destruct (Hk a w') as [Hfin' Hpages']. split; [exact Hfin'|].
    intros s. rewrite Hpages', Hpages. reflexivity.
  - split; [discriminate|exact Hpages].
  - contradiction.
Qed.

Lemma asks_no_page_save (f : file) : asks_no_page (save f).
Proof. intros w. split; [discriminate|reflexivity]. Qed.

Lemma pages_requested_snoc (s : stream) (l : list request) (r : request) :
  pages_requested s (l ++ [r])
  = pages_requested s l ++ pages_requested s [r].
Proof. unfold pages_requested. apply omap_app. Qed.

Lemma asks_no_page_fetch {A} (r : request) (answer : fetched A) :
  (forall s page, r <> ListPage s page) -> asks_no_page (fetch r answer).
Proof.
  intros Hr w. unfold fetch, bind, log_request.
  assert (Hp : forall s, pages_requested s (requested w ++ [r]) = pages_requested s (requested w)).
  { intros s. rewrite pages_requested_snoc.
    destruct r as [s' page| | |]; [|cbn; rewrite app_nil_r; reflexivity..].
    destruct (Hr s' page eq_refl). }
  destruct answer; cbn; (split; [discriminate|exact Hp]).
Qed.

Section CrawlFacts.
Variable self : Crawler.
Variable net : network.
Variable sigint : world -> bool.
Variable re : compiled.

Lemma asks_no_page_save_linked_issues (ns : list Z) (c : counters) :
  asks_no_page (save_linked_issues net ns c).
Proof.
  revert c. induction ns as [|n ns IH]; intros c; cbn [save_linked_issues].
  - apply asks_no_page_ret.
  - apply asks_no_page_bind; [apply asks_no_page_fetch; discriminate|].
    intros [issue|]; [|apply IH].
    apply asks_no_page_bind; [apply asks_no_page_save|]. intros _. apply IH.
Qed.

Lemma asks_no_page_process_pull (p : item) (c : counters) :
  asks_no_page (process_pull self net re p c).
Proof.
  unfold process_pull. destruct (outside_window self (created_at p)).
  - apply asks_no_page_ret.
  - apply asks_no_page_bind; [apply asks_no_page_fetch; discriminate|].
    intros [pull|]; [|apply asks_no_page_ret].
    apply asks_no_page_bind; [apply asks_no_page_fetch; discriminate|].
    intros [diff|]; [|apply asks_no_page_ret].
    repeat (apply asks_no_page_bind; [apply asks_no_page_save|]; intros _).
    apply asks_no_page_bind; [apply asks_no_page_save_linked_issues|].
    intros c'. apply asks_no_page_ret.
Qed.

Lemma asks_no_page_process_pulls (pulls : list item) (c : counters) :
  asks_no_page (process_pulls self net re pulls c).
Proof.
  revert c. induction pulls as [|p pulls IH]; intros c; cbn [process_pulls].
  - apply asks_no_page_ret.
  - apply asks_no_page_bind; [apply asks_no_page_process_pull|].
    intros [c' brk]. cbn [fst snd]. destruct brk; [apply asks_no_page_ret|apply IH].
Qed.

Lemma asks_no_page_process_issue (seen : gset Z) (i : item) (n : Z) :
  asks_no_page (process_issue self net seen i n).
Proof.
  unfold process_issue.
  destruct (bool_decide (number i ∈ seen) || outside_window self (created_at i)).
  - apply asks_no_page_ret.
  - apply asks_no_page_bind; [apply asks_no_page_fetch; discriminate|].
    intros [issue|]; [|apply asks_no_page_ret].
    apply asks_no_page_bind; [apply asks_no_page_save|]. intros _. apply asks_no_page_ret.
Qed.

Lemma asks_no_page_process_issues (seen : gset Z) (issues : list item) (n : Z) :
  asks_no_page (process_issues self net seen issues n).
Proof.
  revert n. induction issues as [|i issues IH]; intros n; cbn [process_issues].
  - apply asks_no_page_ret.
  - apply asks_no_page_bind; [apply asks_no_page_process_issue|].
    intros [n' brk]. cbn [fst snd]. destruct brk; [apply asks_no_page_ret|apply IH].
Qed.

Lemma asks_no_page_read_interrupted : asks_no_page (read_interrupted sigint).
Proof. intros w. split; [discriminate|reflexivity]. Qed.

(** The part of an iteration of the pulls loop that follows the fetch of
    the page, when the page is short. *)
Lemma short_pulls_page_rest (pulls : list item) (page : Z) (c : counters)
    (k : counters -> M (loop_exit * counters)) :
  Z.of_nat (length pulls) < per_page self ->
  asks_no_page
    (let* _ := if save_pull_pages self
               then save (PullsPageFile page pulls) else ret tt in
     let* c := process_pulls self net re pulls c in
     if (Z.of_nat (length pulls) <? per_page self)
        || cap_reached self (num_issues c)
     then
       let* interrupted := read_interrupted sigint in
       if interrupted then ret (CrawlReturned, c) else ret (LoopDone, c)
     else k c).
Proof.
  intros Hshort.
  apply asks_no_page_bind.
  { destruct (save_pull_pages self); [apply asks_no_page_save|apply asks_no_page_ret]. }
  intros _. apply asks_no_page_bind; [apply asks_no_page_process_pulls|].
  intros c'. destruct (Z.ltb_spec (Z.of_nat (length pulls)) (per_page self)); [|lia].
  cbn [orb]. apply asks_no_page_bind; [apply asks_no_page_read_interrupted|].
  intros []; apply asks_no_page_ret.
Qed.

Lemma short_issues_page_rest (seen : gset Z) (issues : list item) (n : Z)
    (k : Z -> M (loop_exit * Z)) :
  Z.of_nat (length issues) < per_page self ->
  asks_no_page
    (let* n := process_issues self net seen issues n in
     if (Z.of_nat (length issues) <? per_page self) || cap_reached self n
     then
       let* interrupted := read_interrupted sigint in
       if interrupted then ret (CrawlReturned, n) else ret (LoopDone, n)
     else k n).
Proof.
  intros Hshort.
  apply asks_no_page_bind; [apply asks_no_page_process_issues|].
  intros n'. destruct (Z.ltb_spec (Z.of_nat (length issues)) (per_page self)); [|lia].
  cbn [orb]. apply asks_no_page_bind; [apply asks_no_page_read_interrupted|].
  intros []; apply asks_no_page_ret.
Qed.

Lemma pulls_loop_enters (fuel : nat) (end_page page : Z) (pulls : list item)
    (c : counters) (w : world) :
  sigint w = false ->
  (0 <? end_page) && (end_page <? page) = false ->
  cap_reached self (num_issues c) = false ->
  list_page net Pulls page = Got pulls ->
  pulls_loop self net sigint re (S fuel) end_page page c w
  = (let* _ := if save_pull_pages self
               then save (PullsPageFile page pulls) else ret tt in
     let* c := process_pulls self net re pulls c in
     if (Z.of_nat (length pulls) <? per_page self)
        || cap_reached self (num_issues c)
     then
       let* interrupted := read_interrupted sigint in
       if interrupted then ret (CrawlReturned, c) else ret (LoopDone, c)
     else pulls_loop self net sigint re fuel end_page (page + 1) c)
    (World (requested w ++ [ListPage Pulls page]) (written w)).
Proof.
  intros Hsig Hend Hcap Hpage. cbn [pulls_loop].
  unfold bind at 1, read_interrupted at 1. rewrite Hsig, Hcap, Hend. cbn [orb].
  unfold bind at 1. rewrite (probe_page net Pulls page pulls w Hpage). reflexivity.
Qed.

Lemma issues_loop_enters (fuel : nat) (seen : gset Z) (end_page page n : Z)
    (issues : list item) (w : world) :
  sigint w = false ->
  (0 <? end_page) && (end_page <? page) = false ->
  cap_reached self n = false ->
  list_page net Issues page = Got issues ->
  issues_loop self net sigint (S fuel) seen end_page page n w
  = (let* n := process_issues self net seen issues n in
     if (Z.of_nat (length issues) <? per_page self) || cap_reached self n
     then
       let* interrupted := read_interrupted sigint in
       if interrupted then ret (CrawlReturned, n) else ret (LoopDone, n)
     else issues_loop self net sigint fuel seen end_page (page + 1) n)
    (World (requested w ++ [ListPage Issues page]) (written w)).
Proof.
  intros Hsig Hend Hcap Hpage. cbn [issues_loop].
  unfold bind at 1, read_interrupted at 1. rewrite Hsig, Hcap, Hend. cbn [orb].
  unfold bind at 1. rewrite (probe_page net Issues page issues w Hpage). reflexivity.
Qed.

(** When the loop of a stream goes into an iteration (not interrupted,
    cap not reached, end page not passed) and the page it fetches has
    fewer items than [per_page], the loop finishes within that iteration,
    whatever fuel is left, and that page is the only list page requested
    from then on.  The state [(page, c, w)] is any state the loop is in at
    the top of an iteration. *)
Lemma short_page_ends_the_loop (fuel : nat) (end_page page : Z)
    (items : list item) (w : world) :
  Z.of_nat (length items) < per_page self ->
  sigint w = false ->
  (0 <? end_page) && (end_page <? page) = false ->
  (forall c : counters,
     list_page net Pulls page = Got items ->
     cap_reached self (num_issues c) = false ->
     let r := pulls_loop self net sigint re (S fuel) end_page page c w in
     fst r <> Unfinished
     /\ pages_requested Pulls (requested (snd r))
        = pages_requested Pulls (requested w) ++ [page])
  /\ (forall (seen : gset Z) (n : Z),
        list_page net Issues page = Got items ->
        cap_reached self n = false ->
        let r := issues_loop self net sigint (S fuel) seen end_page page n w in
        fst r <> Unfinished
        /\ pages_requested Issues (requested (snd r))
           = pages_requested Issues (requested w) ++ [page]).
Proof.
  intros Hshort Hsig Hend. split.
  - intros c Hpage Hcap r. subst r.
    rewrite (pulls_loop_enters fuel end_page page items c w Hsig Hend Hcap Hpage).
    destruct (short_pulls_page_rest items page c
                (pulls_loop self net sigint re fuel end_page (page + 1)) Hshort
                (World (requested w ++ [ListPage Pulls page]) (written w)))
      as [Hfin Hpages].
    split; [exact Hfin|].
    rewrite (Hpages Pulls). cbn [requested]. apply pages_requested_snoc.
  - intros seen n Hpage Hcap r. subst r.
    rewrite (issues_loop_enters fuel seen end_page page n items w Hsig Hend Hcap Hpage).
    destruct (short_issues_page_rest seen items n
                (issues_loop self net sigint fuel seen end_page (page + 1)) Hshort
                (World (requested w ++ [ListPage Issues page]) (written w)))
      as [Hfin Hpages].
    split; [exact Hfin|].
    rewrite (Hpages Issues). cbn [requested]. apply pages_requested_snoc.
Qed.

Lemma save_linked_issues_appends (ns : list Z) (c : counters) (w : world) :
  exists more, written (snd (save_linked_issues net ns c w)) = written w ++ more.
Proof.
  revert c w. induction ns as [|n ns IH]; intros c w; cbn [save_linked_issues].
  - exists []. cbn. rewrite app_nil_r. reflexivity.
  - unfold fetch, bind, log_request, save, ret, raise.
    destruct (issue_detail net n) as [issue| |e]; cbn [requested written].
    + destruct (IH (Counters (num_issues c + 1) (num_pulls c)
                             ({[n]} ∪ list_issues c))
                   (World (requested w ++ [IssueDetail n])
                          (written w ++ [IssueFile n issue]))) as [more Hmore].
      exists (IssueFile n issue :: more). rewrite Hmore. cbn [written].
      rewrite <- app_assoc. reflexivity.
    + destruct (IH c (World (requested w ++ [IssueDetail n]) (written w)))
        as [more Hmore].
      exists more. exact Hmore.
    + exists []. cbn. rewrite app_nil_r. reflexivity.
Qed.

(** C8.  For a pull of the page that lies in the window: when the fetch of
    its detail object, or of its diff, comes back not ok, nothing is
    written for it, the counters are unchanged, and the loop over the page
    goes on with the items that remain; when both come back, the diff and
    then the pull, carrying the extracted list under
    [linked_issue_numbers], are written. *)
Theorem absent_pull_is_skipped_not_the_page (p : item) (c : counters) (w : world)
    (rest : list item) :
  outside_window self (created_at p) = false ->
  let n := number p in
  let linked := _extract_linked_issue_numbers (body p) re in
  (pull_detail net n = Absent ->
     let w' := World (requested w ++ [PullDetail n]) (written w) in
     process_pull self net re p c w = (Returns (c, false), w')
     /\ process_pulls self net re (p :: rest) c w
        = process_pulls self net re rest c w')
  /\ (forall pull : pull_object,
        pull_detail net n = Got pull ->
        diff_text net (diff_url pull) = Absent ->
        let w' := World (requested w ++ [PullDetail n; DiffOf (diff_url pull)])
                        (written w) in
        process_pull self net re p c w = (Returns (c, false), w')
        /\ process_pulls self net re (p :: rest) c w
           = process_pulls self net re rest c w')
  /\ (forall (pull : pull_object) (diff : text),
        pull_detail net n = Got pull ->
        diff_text net (diff_url pull) = Got diff ->
        exists more,
          written (snd (process_pull self net re p c w))
          = written w
            ++ [DiffFile n diff; PullFile n (with_linked pull linked)] ++ more).
Proof.
  intros Hin n linked. split; [|split].
  - intros Hdetail w'.
    assert (H : process_pull self net re p c w = (Returns (c, false), w')).
    { unfold process_pull. rewrite Hin. fold n.
      unfold bind, fetch, bind, log_request. rewrite Hdetail. reflexivity. }
    split; [exact H|]. cbn [process_pulls]. unfold bind at 1. rewrite H. reflexivity.
  - intros pull Hdetail Hdiff w'.
    assert (H : process_pull self net re p c w = (Returns (c, false), w')).
    { unfold process_pull. rewrite Hin. fold n.
      unfold bind, fetch, bind, log_request. rewrite Hdetail. cbn.
      rewrite Hdiff. cbn. unfold w'. rewrite <- app_assoc. reflexivity. }
    split; [exact H|]. cbn [process_pulls]. unfold bind at 1. rewrite H. reflexivity.
  - intros pull diff Hdetail Hdiff.
    unfold process_pull. rewrite Hin. fold n. fold linked.
    unfold bind at 1, fetch at 1, bind at 1, log_request at 1. rewrite Hdetail. cbn [ret].
    unfold bind at 1, fetch at 1, bind at 1, log_request at 1.
    cbn [diff_url with_linked]. rewrite Hdiff. cbn [ret].
    unfold bind at 1, save at 1. unfold bind at 1, save at 1. cbn [requested written].
    unfold bind at 1.
    match goal with |- context [save_linked_issues net linked c ?w0] =>
      destruct (save_linked_issues_appends linked c w0) as [more Hmore];
      destruct (save_linked_issues net linked c w0) as [[c'|e|] w1]
    end; unfold ret; cbn [snd written] in *; exists more;
      rewrite Hmore, <- !app_assoc; reflexivity.
Qed.

End CrawlFacts.

Lemma within_of_no_page {A} (s : stream) (P : Z -> Prop) (m : M A) (w : world) :
  asks_no_page m -> asks_pages_within s P m w.
Proof.
  intros H. exists []. destruct (H w) as [_ Hp]. rewrite Hp, app_nil_r. auto.
Qed.

Lemma within_bind {A B} (s : stream) (P : Z -> Prop) (m : M A) (k : A -> M B)
    (w : world) :
  asks_pages_within s P m w ->
  (forall a w', m w = (Returns a, w') -> asks_pages_within s P (k a) w') ->
  asks_pages_within s P (bind m k) w.
Proof.
  intros (qs & Hqs & HP) Hk. unfold asks_pages_within, bind.
  destruct (m w) as [[a|e|] w'] eqn:E; cbn [snd] in *.
  - destruct (Hk a w' eq_refl) as (qs' & Hqs' & HP').
    exists (qs ++ qs'). rewrite Hqs', Hqs, app_assoc. split; [reflexivity|].
    apply Forall_app. auto.
  - exists qs. auto.
  - exists qs. auto.
Qed.

Lemma within_unfinished {A} (s : stream) (P : Z -> Prop) (w : world) :
  asks_pages_within s P (@unfinished A) w.
Proof. exists []. cbn. rewrite app_nil_r. auto. Qed.

Section CrawlBound.
Variable self : Crawler.
Variable net : network.

Lemma within_get_json_page (s : stream) (P : Z -> Prop) (page : Z) (w : world) :
  P page -> asks_pages_within s P (_get_json_page net s page) w.
Proof.
  intros HP. exists [page]. split; [|repeat constructor; exact HP].
  unfold _get_json_page, fetch, bind, log_request.
  destruct (list_page net s page); cbn -[pages_requested];
    rewrite pages_requested_snoc; destruct s; reflexivity.
Qed.

Lemma get_json_page_returns (s : stream) (page : Z) (w w' : world)
    (r : option (list item)) :
  _get_json_page net s page w = (Returns r, w') ->
  match r with
  | Some l => list_page net s page = Got l
  | None => list_page net s page = Absent
  end.
Proof.
  unfold _get_json_page, fetch, bind, log_request.
  destruct (list_page net s page); cbn; intros [= <- _]; reflexivity.
Qed.

Variable sigint : world -> bool.
Variable re : compiled.

(** Once some page [p] of the pulls is short, a run of the pulls loop from
    a page at or before [p] asks for no page outside [page .. p]. *)
Lemma pulls_loop_stays_before_short_page (end_page p : Z) (items : list item) :
  list_page net Pulls p = Got items ->
  Z.of_nat (length items) < per_page self ->
  forall (fuel : nat) (page : Z) (c : counters) (w : world),
    page <= p ->
    asks_pages_within Pulls (fun q => page <= q <= p)
      (pulls_loop self net sigint re fuel end_page page c) w.
Proof.
  intros Hp Hshort fuel. induction fuel as [|fuel IH]; intros page c w Hle.
  - apply within_unfinished.
  - cbn [pulls_loop]. apply within_bind.
    { apply within_of_no_page, asks_no_page_read_interrupted. }
    intros i w1 _.
    destruct (i || cap_reached self (num_issues c)
              || (0 <? end_page) && (end_page <? page)).
    { apply within_of_no_page, asks_no_page_ret. }
    apply within_bind; [apply within_get_json_page; lia|].
    intros [pulls|] w2 Hget; apply get_json_page_returns in Hget.
    + apply within_bind.
      { apply within_of_no_page.
        destruct (save_pull_pages self); [apply asks_no_page_save|apply asks_no_page_ret]. }
      intros _ w3 _. apply within_bind.
      { apply within_of_no_page, asks_no_page_process_pulls. }
      intros c' w4 _.
      destruct (Z.ltb_spec (Z.of_nat (length pulls)) (per_page self)) as [|Hfull];
        cbn [orb].
      { apply within_bind; [apply within_of_no_page, asks_no_page_read_interrupted|].
        intros [] ? _; apply within_of_no_page, asks_no_page_ret. }
      destruct (cap_reached self (num_issues c')).
      { apply within_bind; [apply within_of_no_page, asks_no_page_read_interrupted|].
        intros [] ? _; apply within_of_no_page, asks_no_page_ret. }
      assert (page <> p) by (intros ->; rewrite Hp in Hget; injection Hget as <-; lia).
      destruct (IH (page + 1) c' w4 ltac:(lia)) as (qs & Hqs & HP).
      exists qs. split; [exact Hqs|]. eapply Forall_impl; [exact HP|]. cbn. lia.
    + apply IH. exact Hle.
Qed.

Lemma issues_loop_stays_before_short_page (end_page p : Z) (items : list item) :
  list_page net Issues p = Got items ->
  Z.of_nat (length items) < per_page self ->
  forall (fuel : nat) (seen : gset Z) (page n : Z) (w : world),
    page <= p ->
    asks_pages_within Issues (fun q => page <= q <= p)
      (issues_loop self net sigint fuel seen end_page page n) w.
Proof.
  intros Hp Hshort fuel. induction fuel as [|fuel IH]; intros seen page n w Hle.
  - apply within_unfinished.
  - cbn [issues_loop]. apply within_bind.
    { apply within_of_no_page, asks_no_page_read_interrupted. }
    intros i w1 _.
    destruct (i || cap_reached self n || (0 <? end_page) && (end_page <? page)).
    { apply within_of_no_page, asks_no_page_ret. }
    apply within_bind; [apply within_get_json_page; lia|].
    intros [issues|] w2 Hget; apply get_json_page_returns in Hget.
    + apply within_bind.
      { apply within_of_no_page, asks_no_page_process_issues. }
      intros n' w4 _.
      destruct (Z.ltb_spec (Z.of_nat (length issues)) (per_page self)) as [|Hfull];
        cbn [orb].
      { apply within_bind; [apply within_of_no_page, asks_no_page_read_interrupted|].
        intros [] ? _; apply within_of_no_page, asks_no_page_ret. }
      destruct (cap_reached self n').
      { apply within_bind; [apply within_of_no_page, asks_no_page_read_interrupted|].
        intros [] ? _; apply within_of_no_page, asks_no_page_ret. }
      assert (page <> p) by (intros ->; rewrite Hp in Hget; injection Hget as <-; lia).
      destruct (IH seen (page + 1) n' w4 ltac:(lia)) as (qs & Hqs & HP).
      exists qs. split; [exact Hqs|]. eapply Forall_impl; [exact HP|]. cbn. lia.
    + apply IH. exact Hle.
Qed.

(** C7.  When page [p] of a stream has fewer items than [per_page]: a run
    of the stream's loop from any page at or before [p], with any fuel,
    counters and world, asks for no list page beyond [p]; and an iteration
    that fetches [p] (flag not set, cap not reached, end page not passed)
    finishes the loop, [p] being the last page requested. *)
Theorem short_page_is_the_last_requested (end_page p : Z) (items : list item) :
  Z.of_nat (length items) < per_page self ->
  (list_page net Pulls p = Got items ->
     (forall (fuel : nat) (page : Z) (c : counters) (w : world),
        page <= p ->
        asks_pages_within Pulls (fun q => page <= q <= p)
          (pulls_loop self net sigint re fuel end_page page c) w)
     /\ (forall (fuel : nat) (c : counters) (w : world),
           sigint w = false ->
           (0 <? end_page) && (end_page <? p) = false ->
           cap_reached self (num_issues c) = false ->
           let r := pulls_loop self net sigint re (S fuel) end_page p c w in
           fst r <> Unfinished
           /\ pages_requested Pulls (requested (snd r))
              = pages_requested Pulls (requested w) ++ [p]))
  /\ (list_page net Issues p = Got items ->
       (forall (fuel : nat) (seen : gset Z) (page n : Z) (w : world),
          page <= p ->
          asks_pages_within Issues (fun q => page <= q <= p)
            (issues_loop self net sigint fuel seen end_page page n) w)
       /\ (forall (fuel : nat) (seen : gset Z) (n : Z) (w : world),
             sigint w = false ->
             (0 <? end_page) && (end_page <? p) = false ->
             cap_reached self n = false ->
             let r := issues_loop self net sigint (S fuel) seen end_page p n w in
             fst r <> Unfinished
             /\ pages_requested Issues (requested (snd r))
                = pages_requested Issues (requested w) ++ [p])).
Proof.
  intros Hshort. split; intros Hp; split.
  - apply (pulls_loop_stays_before_short_page end_page p items Hp Hshort).
  - intros fuel c w Hsig Hend Hcap.
    exact (proj1 (short_page_ends_the_loop self net sigint re fuel end_page p
                    items w Hshort Hsig Hend) c Hp Hcap).
  - apply (issues_loop_stays_before_short_page end_page p items Hp Hshort).
  - intros fuel seen n w Hsig Hend Hcap.
    exact (proj2 (short_page_ends_the_loop self net sigint re fuel end_page p
                    items w Hshort Hsig Hend) seen n Hp Hcap).
Qed.

End CrawlBound.

Lemma short_page_is_the_last_requested_witness :
  let self := crawler_of_window 0 (day 1) in
  let net := network_of_pages pages_100_and_37 in
  let re := _make_linked_issues_regex (str "octocat") (str "Hello-World") in
  asks_pages_within Pulls (fun q => 1 <= q <= 2)
    (pulls_loop self net never_interrupted re 1000 (-1) 1 (Counters 0 0 ∅))
    empty_world
  /\ (let r := pulls_loop self net never_interrupted re 1 (-1) 2 (Counters 0 0 ∅)
                 empty_world in
      fst r <> Unfinished /\ pages_requested Pulls (requested (snd r)) = [2]).
Proof.
  intros self net re.
  pose proof (proj1 (short_page_is_the_last_requested self net never_interrupted
                       re (-1) 2 (items_from 101 1100 37) eq_refl) eq_refl)
    as [Hrun Hlast].
  split.
  - apply (Hrun 1000%nat 1 (Counters 0 0 ∅) empty_world). discriminate.
  - apply (Hlast 0%nat (Counters 0 0 ∅) empty_world); reflexivity.
Defined.


(** Page size 100 and a final page of 37 items: a crawl of the pulls from
    page 1 requests pages 1 and 2 and no other, and leaves the loop. *)
Example crawl_of_137_pulls_requests_two_pages :
  let self := crawler_of_window 0 (day 1) in
  let net := network_of_pages pages_100_and_37 in
  let re := _make_linked_issues_regex (str "octocat") (str "Hello-World") in
  let r := pulls_loop self net never_interrupted re 1000 (-1) 1 (Counters 0 0 ∅)
             empty_world in
  fst <$> (match fst r with Returns x => Some x | _ => None end) = Some LoopDone
  /\ pages_requested Pulls (requested (snd r)) = [1; 2].
Proof. vm_compute. split; reflexivity. Qed.

Lemma absent_pull_is_skipped_not_the_page_witness :
  let self := crawler_of_window 0 (day 1) in
  let net := network_of_three_pulls in
  let re := _make_linked_issues_regex (str "octocat") (str "Hello-World") in
  let c := Counters 0 0 ∅ in
  process_pull self net re (Item 7 1007 (Some (str "Closes #4"))) c empty_world
  = (Returns (c, false), World [PullDetail 7] [])
  /\ process_pull self net re (Item 8 1008 None) c empty_world
     = (Returns (c, false), World [PullDetail 8; DiffOf (diff_url_of 8)] [])
  /\ exists more,
       written (snd (process_pull self net re
                       (Item 9 1009 (Some (str "Fixes #3"))) c empty_world))
       = [DiffFile 9 (str "diff --git a/README b/README");
          PullFile 9 (PullObject 9 (diff_url_of 9) (Some [3]))] ++ more.
Proof.
  intros self net re c. split; [|split].
  - apply (proj1 (absent_pull_is_skipped_not_the_page self net re
                    (Item 7 1007 (Some (str "Closes #4"))) c empty_world []
                    eq_refl) eq_refl).
  - apply (proj1 (proj2 (absent_pull_is_skipped_not_the_page self net re
                           (Item 8 1008 None) c empty_world [] eq_refl))
                 (PullObject 8 (diff_url_of 8) None) eq_refl eq_refl).
  - apply (proj2 (proj2 (absent_pull_is_skipped_not_the_page self net re
                           (Item 9 1009 (Some (str "Fixes #3"))) c empty_world []
                           eq_refl))
                 (PullObject 9 (diff_url_of 9) None)
                 (str "diff --git a/README b/README") eq_refl eq_refl).
Defined.

(** One page of three pulls: the first has no detail object, the second no
    diff, the third has both.  Nothing is written for the first two, the
    page is processed to its end, and the third is saved: its diff, the
    pull with the extracted list, then the issue it links. *)
Example page_with_two_absent_pulls :
  let self := crawler_of_window 0 (day 1) in
  let net := network_of_three_pulls in
  let re := _make_linked_issues_regex (str "octocat") (str "Hello-World") in
  let r := process_pulls self net re page_of_three_pulls (Counters 0 0 ∅)
             empty_world in
  requested (snd r)
  = [PullDetail 7; PullDetail 8; DiffOf (diff_url_of 8);
     PullDetail 9; DiffOf (diff_url_of 9); IssueDetail 3]
  /\ written (snd r)
     = [DiffFile 9 (str "diff --git a/README b/README");
        PullFile 9 (PullObject 9 (diff_url_of 9) (Some [3]));
        IssueFile 3 3]
  /\ (fun c => (num_issues c, num_pulls c))
       <$> (match fst r with Returns c => Some c | _ => None end)
     = Some (1, 1).
Proof. vm_compute. repeat split; reflexivity. Qed.

(** ** The diff attribution pass *)

Lemma same_char_refl (c : ascii) : same_char c c = true.
Proof. apply N.eqb_refl. Qed.

Lemma lit_fails (p s : text) (prev : option ascii) (cap : option text)
    (k : continuation) :
  startswith s p = false -> rmatch false (lit p) prev s cap k = None.
Proof.
  revert s prev. induction p as [|c p IH]; intros s prev H; [discriminate|].
  destruct s as [|x s]; [reflexivity|].
  cbn [lit foldr rmatch char_matches]. cbn [startswith] in H.
  destruct (same_char x c); [|reflexivity]. apply IH. exact H.
Qed.



Lemma hunk_line_is_no_header (line : text) :
  startswith line (str "diff --git a/") = false ->
  re_match _diff_file_pattern line = None.
Proof.
  intros H. unfold re_match, _diff_file_pattern. cbn [ignorecase pattern rmatch].
  rewrite lit_fails by exact H. reflexivity.
Qed.


Lemma section_of_in_range (filename : text) :
  (section_of filename < length _sections)%nat.
Proof.
  unfold section_of.
  destruct (list_find _ _sections) as [[i s]|] eqn:E; cbn [fmap option_fmap option_map default fst].
  - apply list_find_Some in E as (Hi & _). apply lookup_lt_Some in Hi. exact Hi.
  - cbn. lia.
Qed.


Lemma count_lines_cons (sign : ascii) (line : text) (lines : list text) :
  count_lines sign (line :: lines)
  = (if counts_as sign line then 1 else 0) + count_lines sign lines.
Proof.
  unfold count_lines. rewrite filter_cons.
  destruct (counts_as sign line) eqn:E.
  - rewrite decide_True by exact I. cbn [length]. lia.
  - rewrite decide_False by (intros []). lia.
Qed.

Lemma added_is_not_removed (line : text) :
  counts_as "+" line = true -> counts_as "-" line = false.
Proof.
  unfold counts_as. destruct line as [|x line]; [discriminate|].
  cbn [startswith]. destruct x as [[] [] [] [] [] [] [] []]; cbn; auto; discriminate.
Qed.











Lemma sum_one_credited (g : nat -> Z) (v : Z) (k start n : nat) :
  sum ((fun i => if bool_decide (k = i) then v + g i else g i) <$> seq start n)
  = (if bool_decide (start <= k < start + n)%nat then v else 0)
    + sum (g <$> seq start n).
Proof.
  revert start. induction n as [|n IH]; intros start.
  - cbn. rewrite bool_decide_eq_false_2 by lia. reflexivity.
  - cbn [seq fmap list_fmap sum foldr]. fold (sum ((fun i => if bool_decide (k = i) then v + g i else g i) <$> seq (S start) n)).
    fold (sum (g <$> seq (S start) n)). rewrite IH.
    repeat case_bool_decide; lia.
Qed.







(** The two-file diff evaluated: one file and its two additions and one
    deletion under [src/], one file and its addition under the catch-all. *)
Example two_file_diff_tallies :
  _get_section_changes (render_diff [file_under_src; file_unmatched])
  = [Tally 0 0 0; Tally 0 0 0; Tally 0 0 0; Tally 0 0 0; Tally 0 0 0;
     Tally 0 0 0; Tally 1 2 1; Tally 0 0 0; Tally 1 1 0].
Proof. vm_compute. reflexivity. Qed.

(** ** The export step *)

Section ExportFacts.
Variable issue_files : Z -> option saved_issue.
Variable start_date_w end_date_w : Z.
Variable limit_rows : Z.


(** What has been printed plays no part in the rows written. *)
Lemma write_rows_prints (pull : saved_pull) (data : list tally) (ns : list Z)
    (p : list printed) (rs : list row) (total : Z) (l : bool) (e : option exn) :
  let r := write_rows issue_files start_date_w end_date_w limit_rows pull data ns (Exported [] rs total l e) in
  write_rows issue_files start_date_w end_date_w limit_rows pull data ns (Exported p rs total l e)
  = Exported p (rows r) (total_num_rows r) (limit_reached r) (raised r).
Proof.
  revert rs total l e. induction ns as [|n ns IH]; intros rs total l e; [reflexivity|].
  cbn [write_rows]. destruct (issue_files n) as [issue|]; [|reflexivity].
  destruct ((issue_created_at issue <? start_date_w)
            || (end_date_w <? issue_created_at issue)); [apply IH|].
  cbn [prints rows total_num_rows].
  destruct (total + 1 =? limit_rows); [reflexivity|apply IH].
Qed.

Lemma write_rows_cells (pull : saved_pull) (data : list tally) (ns : list Z)
    (acc : exported) :
  Forall (fun r => section_row_data r = section_cells pull data) (rows acc) ->
  Forall (fun r => section_row_data r = section_cells pull data)
         (rows (write_rows issue_files start_date_w end_date_w limit_rows pull data ns acc)).
Proof.
  revert acc. induction ns as [|n ns IH]; intros acc Hacc; [exact Hacc|].
  cbn [write_rows]. destruct (issue_files n) as [issue|]; [|exact Hacc].
  destruct ((issue_created_at issue <? start_date_w)
            || (end_date_w <? issue_created_at issue)); [apply IH; exact Hacc|].
  cbn [prints rows total_num_rows].
  assert (Hnew : Forall (fun r => section_row_data r = section_cells pull data)
                        (rows acc ++ [_dataset_row issue pull data])).
  { apply Forall_app. split; [exact Hacc|]. repeat constructor. }
  destruct (total_num_rows acc + 1 =? limit_rows); [exact Hnew|].
  apply IH. exact Hnew.
Qed.

Lemma write_rows_reads_all (pull : saved_pull) (data : list tally) (ns : list Z)
    (acc : exported) :
  Forall (fun n => is_Some (issue_files n)) ns -> raised acc = None ->
  raised (write_rows issue_files start_date_w end_date_w limit_rows pull data ns acc) = None.
Proof.
  intros Hns. revert acc. induction Hns as [|n ns [issue Hn] _ IH]; intros acc Hacc;
    [exact Hacc|].
  cbn [write_rows]. rewrite Hn.
  destruct ((issue_created_at issue <? start_date_w)
            || (end_date_w <? issue_created_at issue)); [apply IH; exact Hacc|].
  cbn [prints rows total_num_rows].
  destruct (total_num_rows acc + 1 =? limit_rows); [reflexivity|].
  apply IH. reflexivity.
Qed.

(** The first operands of the cells of a row are the tallies as the
    attribution pass left them: the three columns, twice. *)
Lemma section_cells_tallies (pull : saved_pull) (data : list tally) :
  fst <$> section_cells pull data
  = concat ((fun a => section_column a data)
             <$> (_section_attributes ++ _section_attributes)).
Proof. reflexivity. Qed.

(** The rows written when every linked issue has a file: those of the
    linked issues of the window, in the order of the list, up to the row
    that brings the count to the limit. *)
Lemma write_rows_written (pull : saved_pull) (data : list tally) (ns : list Z)
    (acc : exported) :
  Forall (fun n => is_Some (issue_files n)) ns ->
  let expected := omap (linked_row issue_files start_date_w end_date_w pull data) ns in
  let r := write_rows issue_files start_date_w end_date_w limit_rows pull data ns acc in
  rows r
  = rows acc ++ (if limit_rows <=? total_num_rows acc then expected
                 else take (Z.to_nat (limit_rows - total_num_rows acc)) expected).
Proof.
  intros Hns. revert acc.
  induction Hns as [|n ns [issue Hn] _ IH]; intros acc; cbn zeta in *.
  { cbn [write_rows omap list_omap]. rewrite take_nil.
    destruct (limit_rows <=? total_num_rows acc); rewrite app_nil_r; reflexivity. }
  cbn [write_rows omap list_omap].
  assert (Hrow : linked_row issue_files start_date_w end_date_w pull data n
                 = if (issue_created_at issue <? start_date_w)
                      || (end_date_w <? issue_created_at issue)
                   then None else Some (_dataset_row issue pull data)).
  { unfold linked_row. rewrite Hn. reflexivity. }
  rewrite Hrow, Hn.
  destruct ((issue_created_at issue <? start_date_w)
            || (end_date_w <? issue_created_at issue)); [apply IH|].
  cbn [prints rows total_num_rows].
  destruct (Z.eqb_spec (total_num_rows acc + 1) limit_rows) as [Heq|Hne].
  - cbn [rows]. destruct (Z.leb_spec limit_rows (total_num_rows acc)); [lia|].
    replace (Z.to_nat (limit_rows - total_num_rows acc)) with 1%nat by lia.
    cbn [take]. rewrite take_0. reflexivity.
  - rewrite IH. cbn [rows total_num_rows]. rewrite <- app_assoc. cbn [app].
    destruct (Z.leb_spec limit_rows (total_num_rows acc)),
             (Z.leb_spec limit_rows (total_num_rows acc + 1)); try lia;
      [reflexivity|].
    replace (Z.to_nat (limit_rows - total_num_rows acc))
      with (S (Z.to_nat (limit_rows - (total_num_rows acc + 1)))) by lia.
    reflexivity.
Qed.

(** The count grows by one for each row written, and the limit is
    reported as reached only when the count has climbed to it. *)
Lemma write_rows_counts (pull : saved_pull) (data : list tally) (ns : list Z)
    (acc : exported) :
  limit_reached acc = false ->
  let r := write_rows issue_files start_date_w end_date_w limit_rows pull data ns acc in
  total_num_rows r - total_num_rows acc
  = Z.of_nat (length (rows r)) - Z.of_nat (length (rows acc))
  /\ (limit_reached r = true
      -> total_num_rows acc < limit_rows /\ total_num_rows r = limit_rows).
Proof.
  revert acc. induction ns as [|n ns IH]; intros acc Hacc; cbn [write_rows].
  { rewrite Hacc. split; [lia|discriminate]. }
  destruct (issue_files n) as [issue|].
  2:{ cbn [total_num_rows rows limit_reached]. split; [lia|discriminate]. }
  destruct ((issue_created_at issue <? start_date_w)
            || (end_date_w <? issue_created_at issue)); [apply IH; assumption|].
  cbn [prints rows total_num_rows].
  destruct (Z.eqb_spec (total_num_rows acc + 1) limit_rows) as [Heq|Hne].
  - cbn [total_num_rows rows limit_reached]. rewrite length_app. cbn [length].
    split; [lia|]. intros _. lia.
  - match goal with |- context [write_rows _ _ _ _ _ _ ns ?acc'] =>
      destruct (IH acc') as (H1 & H2) end; [reflexivity|].
    cbn [total_num_rows rows] in H1, H2. rewrite length_app in H1. cbn [length] in H1.
    split; [lia|]. intros Hr. destruct (H2 Hr). lia.
Qed.

(** C9.  For the pull read from the file of [pull_number], inside the
    window, whatever totals it reports and whatever its diff.
    - What is printed is, for [changed_files], [additions] and [deletions]
      in turn, nothing when the tallies of the sections add up to the total
      the pull reports, and otherwise the column of tallies, its sum, the
      total and [pull_number].
    - When every issue the pull links has a file, no exception is raised and
      the rows written are the rows of the linked issues of the window, in
      ascending order of the numbers linked, up to the row that brings the
      count to the limit (all of them when the limit is not above the count
      so far): each holds the number of the issue, the number of the pull
      and the cells of line 276 for the tallies of the attribution pass.
      The count grows by the number of rows, and the loop over the pulls
      goes on unless the limit was reached.  None of this depends on whether
      the sums agree.
    - In every case the rows, the count, the limit flag and the exception
      are those of the loop over the linked issues run with nothing printed,
      and the first operands of the cells of every row are the tallies as
      the attribution pass left them, the catch-all section included. *)
Theorem sum_mismatch_is_printed_and_the_rows_are_written (pull_number : Z)
    (pull : saved_pull) (diff : list text) (total : Z) :
  (saved_created_at pull <? start_date_w) || (end_date_w <? saved_created_at pull)
  = false ->
  let data := _get_section_changes diff in
  let linked := merge_sort Z.le (saved_linked_issue_numbers pull) in
  let r := export_pull issue_files start_date_w end_date_w limit_rows pull_number
             pull diff total in
  let quiet := write_rows issue_files start_date_w end_date_w limit_rows pull data
                 linked (Exported [] [] total false None) in
  let expected :=
    omap (fun n =>
            match issue_files n with
            | Some issue =>
              if (issue_created_at issue <? start_date_w)
                 || (end_date_w <? issue_created_at issue)
              then None
              else Some (Row (issue_number_of issue) (saved_number pull)
                             (section_cells pull data))
            | None => None
            end) linked in
  prints r
  = flat_map (fun a =>
                if sum (section_column a data) =? pull_total a pull then []
                else [PrintList (section_column a data);
                      PrintInt (sum (section_column a data));
                      PrintInt (pull_total a pull);
                      PrintInt pull_number])
             [Changed_files; Additions; Deletions]
  /\ (Forall (fun n => is_Some (issue_files n)) (saved_linked_issue_numbers pull)
      -> raised r = None
         /\ rows r = (if limit_rows <=? total then expected
                      else take (Z.to_nat (limit_rows - total)) expected)
         /\ total_num_rows r = total + Z.of_nat (length (rows r))
         /\ (limit_reached r = true
             -> total < limit_rows /\ total_num_rows r = limit_rows))
  /\ rows r = rows quiet
  /\ total_num_rows r = total_num_rows quiet
  /\ limit_reached r = limit_reached quiet
  /\ raised r = raised quiet
  /\ Forall (fun row => fst <$> section_row_data row
                        = concat ((fun a => section_column a data)
                                  <$> (_section_attributes ++ _section_attributes)))
            (rows r).
Proof.
  intros Hin data linked r quiet expected.
  assert (Hr : r = Exported (check_sections pull_number pull data) (rows quiet)
                     (total_num_rows quiet) (limit_reached quiet) (raised quiet)).
  { subst r. unfold export_pull. rewrite Hin. apply write_rows_prints. }
  rewrite Hr. cbn [prints rows total_num_rows limit_reached raised].
  split.
  { unfold check_sections, check_attribute, _section_attributes.
    cbn [flat_map].
    destruct (sum (section_column Changed_files data) =? pull_total Changed_files pull),
             (sum (section_column Additions data) =? pull_total Additions pull),
             (sum (section_column Deletions data) =? pull_total Deletions pull);
      reflexivity. }
  split.
  { intros Hfiles.
    assert (Hlinked : Forall (fun n => is_Some (issue_files n)) linked).
    { rewrite Forall_forall in *. intros n Hn. apply Hfiles.
      rewrite <- (merge_sort_Permutation Z.le). exact Hn. }
    split; [apply write_rows_reads_all; [exact Hlinked|reflexivity]|].
    assert (Hrows := write_rows_written pull data linked
                       (Exported [] [] total false None) Hlinked).
    cbn zeta in Hrows. cbn [rows total_num_rows app] in Hrows.
    split; [exact Hrows|].
    destruct (write_rows_counts pull data linked (Exported [] [] total false None))
      as (H1 & H2); [reflexivity|].
    fold quiet in H1, H2. cbn [rows total_num_rows length] in H1, H2.
    split; [lia|exact H2]. }
  repeat (split; [reflexivity|]).
  eapply Forall_impl.
  + apply (write_rows_cells pull data linked (Exported [] [] total false None)).
    constructor.
  + intros row Hrow. cbn beta in Hrow. rewrite Hrow. apply section_cells_tallies.
Qed.

End ExportFacts.

Lemma sum_mismatch_is_printed_and_the_rows_are_written_witness :
  let pull := pull_with_other_totals in
  let diff := render_diff [file_under_src; file_unmatched] in
  let data := _get_section_changes diff in
  let r := export_pull only_issue_7 0 1000 0 42 pull diff 0 in
  prints r
  = [PrintList [0; 0; 0; 0; 0; 0; 1; 0; 1]; PrintInt 2; PrintInt 3; PrintInt 42;
     PrintList [0; 0; 0; 0; 0; 0; 2; 0; 1]; PrintInt 3; PrintInt 10; PrintInt 42]
  /\ raised r = None
  /\ rows r = [Row 7 42 (section_cells pull data)]
  /\ total_num_rows r = 1.
Proof.
  intros pull diff data r.
  destruct (sum_mismatch_is_printed_and_the_rows_are_written only_issue_7 0 1000 0
              42 pull_with_other_totals
              (render_diff [file_under_src; file_unmatched]) 0 eq_refl)
    as (Hprints & Hrows & _).
  destruct Hrows as (Hraised & Hrows & Htotal & _).
  { repeat constructor. exists (SavedIssue 7 90). reflexivity. }
  split; [exact Hprints|]. split; [exact Hraised|]. split; [exact Hrows|].
  etransitivity; [exact Htotal|]. rewrite Hrows. reflexivity.
Defined.

(** The pull reports 3 changed files and 10 additions where the diff shows
    2 and 3: both mismatches are printed (the deletions agree), each with
    the number in the name of the file, and the row of issue 7 is written
    with the tallies of the diff. *)
Example mismatching_pull_is_exported :
  let r := export_pull only_issue_7 0 1000 0 42 pull_with_other_totals
             (render_diff [file_under_src; file_unmatched]) 0 in
  prints r
  = [PrintList [0; 0; 0; 0; 0; 0; 1; 0; 1]; PrintInt 2; PrintInt 3; PrintInt 42;
     PrintList [0; 0; 0; 0; 0; 0; 2; 0; 1]; PrintInt 3; PrintInt 10; PrintInt 42]
  /\ (row_issue <$> rows r) = [7]
  /\ ((fun row => fst <$> section_row_data row) <$> rows r)
     = [[0; 0; 0; 0; 0; 0; 1; 0; 1;  0; 0; 0; 0; 0; 0; 2; 0; 1;
         0; 0; 0; 0; 0; 0; 1; 0; 0;
         0; 0; 0; 0; 0; 0; 1; 0; 1;  0; 0; 0; 0; 0; 0; 2; 0; 1;
         0; 0; 0; 0; 0; 0; 1; 0; 0]]
  /\ raised r = None.
Proof. vm_compute. repeat split; reflexivity. Qed.

(** A repository whose only pull reports 3 changed files, 10 additions
    and 1 deletion for an empty diff: the three mismatches are printed, the
    rows of the three issues it links are written all the same, and the
    export goes on to the issues no pull links. *)
Example export_goes_on_after_a_mismatch :
  let r := export_repo only_pull_42 empty_diff_of_42 issues_1_to_10 0 1000 0
             [42] [1; 2; 3; 4; 5; 6; 7; 8; 9; 10] 0 in
  prints (fst r)
  = [PrintList [0; 0; 0; 0; 0; 0; 0; 0; 0]; PrintInt 0; PrintInt 3; PrintInt 42;
     PrintList [0; 0; 0; 0; 0; 0; 0; 0; 0]; PrintInt 0; PrintInt 10; PrintInt 42;
     PrintList [0; 0; 0; 0; 0; 0; 0; 0; 0]; PrintInt 0; PrintInt 1; PrintInt 42]
  /\ (fun x => (row_pull x, row_issue x)) <$> rows (fst r) = [(42, 7); (42, 8); (42, 9)]
  /\ raised (fst r) = None
  /\ issue_number_of <$> alone (snd r) = [1; 2; 3; 4; 5; 6; 10]
  /\ alone_raised (snd r) = None.
Proof. vm_compute. repeat split; reflexivity. Qed.

(** ** A whole crawl *)

(** The crawl of the one-page repository of [network_of_three_pulls], with
    no page given, after the end of the window: both boundary searches
    probe page 1, the pulls pass saves pull 9 and issue 3, and the issues
    pass, which finds no issue object for the three numbers of the page,
    saves nothing more. *)
Example crawl_of_one_page :
  let self := crawler_of_window 0 (day 1) in
  let r := crawl self network_of_three_pulls never_interrupted 1000 1000 (day 2)
             (str "octocat") (str "Hello-World") (-1) (-1) (-1) (-1) empty_world in
  fst r = Returns tt
  /\ requested (snd r)
     = [ListPage Pulls 1; ListPage Pulls 1; ListPage Issues 1; ListPage Issues 1;
        ListPage Pulls 1; ListPage Pulls 1; ListPage Issues 1; ListPage Issues 1;
        ListPage Pulls 1;
        PullDetail 7; PullDetail 8; DiffOf (diff_url_of 8);
        PullDetail 9; DiffOf (diff_url_of 9); IssueDetail 3;
        ListPage Issues 1; IssueDetail 7; IssueDetail 8; IssueDetail 9]
  /\ written (snd r)
     = [DiffFile 9 (str "diff --git a/README b/README");
        PullFile 9 (PullObject 9 (diff_url_of 9) (Some [3]));
        IssueFile 3 3].
Proof. vm_compute. repeat split; reflexivity. Qed.

(** * Further properties *)

(** ** The retry loop of [_get] *)

(** A run of refused answers within the budget: each uses one try and one
    sleep of [request_retry_wait_secs]. *)
Lemma _get_loop_after_refusals (self : Crawler) (rs : list response)
    (fuel : nat) (tries now : Z) (naps : list Z) (rest : list attempt) :
  Forall refused rs ->
  rs = [] \/ tries + Z.of_nat (length rs) < max_request_tries self ->
  0 <= request_retry_wait_secs self ->
  _get_loop (length rs + fuel) self tries
    (Wire now naps ((Answers <$> rs) ++ rest))
  = _get_loop fuel self (tries + Z.of_nat (length rs))
      (Wire (now + Z.of_nat (length rs) * request_retry_wait_secs self)
            (naps ++ replicate (length rs) (request_retry_wait_secs self))
            rest).
Proof.
  intros Hrs. revert tries now naps.
  induction Hrs as [|r rs (Hok & H404 & Hhit) _ IH]; intros tries now naps Hbudget Hwait.
  - cbn. rewrite app_nil_r. f_equal; [lia|f_equal; lia].
  - destruct Hbudget as [|Hbudget]; [discriminate|].
    cbn [length fmap list_fmap app Nat.add]. cbn [length] in Hbudget.
    rewrite (_get_loop_refused self _ tries now naps r _ Hok H404 Hhit).
    destruct (Z.leb_spec (max_request_tries self) (tries + 1)); [lia|].
    destruct (Z.ltb_spec (request_retry_wait_secs self) 0); [lia|].
    rewrite IH by (try right; lia). cbn [replicate]. rewrite <- app_assoc. cbn [app].
    f_equal; [lia|f_equal; lia].
Qed.

Lemma _get_fuel (self : Crawler) (fuel : nat) (w : wire) :
  (length (script w) < fuel)%nat -> _get self w = _get_loop fuel self 0 w.
Proof. intros H. unfold _get. apply _get_loop_fuel; lia. Qed.

(** X1.  After any number of refused answers below the budget, an accepted
    answer is returned with [True]; one sleep of [request_retry_wait_secs]
    was made per refused answer and none for the accepted one, and the
    answers that follow are left unasked. *)
Theorem accepted_answer_after_refusals (self : Crawler) (now : Z) (naps : list Z)
    (rs : list response) (r : response) (rest : list attempt) :
  Forall refused rs -> accepted r ->
  Z.of_nat (length rs) < max_request_tries self ->
  0 <= request_retry_wait_secs self ->
  _get self (Wire now naps ((Answers <$> rs) ++ Answers r :: rest))
  = (Returns (Full r, true),
     Wire (now + Z.of_nat (length rs) * request_retry_wait_secs self)
          (naps ++ replicate (length rs) (request_retry_wait_secs self))
          rest).
Proof.
  intros Hrs [Hok Hmsg] Hbudget Hwait.
  rewrite (_get_fuel self (length rs + S (S (length rest))))
    by (cbn [script]; rewrite length_app, length_fmap; cbn [length]; lia).
  rewrite (_get_loop_after_refusals self rs _ 0 now naps _ Hrs) by (try right; lia).
  cbn [_get_loop script clock slept _try_to_get]. rewrite Hok, Hmsg. reflexivity.
Qed.

Lemma accepted_answer_after_refusals_witness :
  _get (crawler_of_window 0 0)
       (Wire 50 [] ((Answers <$> [server_error; server_error; server_error])
                    ++ Answers ok_response :: [Answers server_error]))
  = (Returns (Full ok_response, true), Wire 80 [10; 10; 10] [Answers server_error]).
Proof.
  apply (accepted_answer_after_refusals (crawler_of_window 0 0) 50 []
           [server_error; server_error; server_error] ok_response
           [Answers server_error]).
  - repeat constructor; discriminate.
  - split; reflexivity.
  - reflexivity.
  - discriminate.
Defined.

(** X2.  A 404 is returned at once as [({}, False)], also after refused
    answers below the budget: it uses no try and no sleep of its own. *)
Theorem not_found_is_returned_at_once (self : Crawler) (now : Z) (naps : list Z)
    (rs : list response) (r : response) (rest : list attempt) :
  Forall refused rs -> status_code r = 404 ->
  Z.of_nat (length rs) < max_request_tries self ->
  0 <= request_retry_wait_secs self ->
  _get self (Wire now naps ((Answers <$> rs) ++ Answers r :: rest))
  = (Returns (EmptyDict, false),
     Wire (now + Z.of_nat (length rs) * request_retry_wait_secs self)
          (naps ++ replicate (length rs) (request_retry_wait_secs self))
          rest).
Proof.
  intros Hrs H404 Hbudget Hwait.
  rewrite (_get_fuel self (length rs + S (S (length rest))))
    by (cbn [script]; rewrite length_app, length_fmap; cbn [length]; lia).
  rewrite (_get_loop_after_refusals self rs _ 0 now naps _ Hrs) by (try right; lia).
  cbn [_get_loop script clock slept _try_to_get]. unfold ok. rewrite H404.
  reflexivity.
Qed.

Lemma not_found_is_returned_at_once_witness :
  _get (crawler_of_window 0 0)
       (Wire 50 [] ((Answers <$> [server_error])
                    ++ Answers (Response 404 (Some 0) (Some 99) false) :: []))
  = (Returns (EmptyDict, false), Wire 60 [10] []).
Proof.
  apply (not_found_is_returned_at_once (crawler_of_window 0 0) 50 []
           [server_error] (Response 404 (Some 0) (Some 99) false) []).
  - repeat constructor; discriminate.
  - reflexivity.
  - reflexivity.
  - discriminate.
Defined.

(** X3.  As many refused answers as the budget holds, and one when the
    budget is below 1, end the fetch with [TooManyRequestFailures]: there
    is a sleep between two tries, none after the last, and the answers
    that follow are left unasked. *)
Theorem budget_of_refusals_raises (self : Crawler) (now : Z) (naps : list Z)
    (rs : list response) (rest : list attempt) :
  Forall refused rs ->
  Z.of_nat (length rs) = Z.max 1 (max_request_tries self) ->
  0 <= request_retry_wait_secs self ->
  _get self (Wire now naps ((Answers <$> rs) ++ rest))
  = (Raises TooManyRequestFailures,
     Wire (now + (Z.of_nat (length rs) - 1) * request_retry_wait_secs self)
          (naps ++ replicate (length rs - 1) (request_retry_wait_secs self))
          rest).
Proof.
  intros Hrs Hlen Hwait.
  induction rs as [|r rs' _] using rev_ind; [cbn in Hlen; lia|].
  apply Forall_app in Hrs as [Hrs' Hr]. apply Forall_singleton in Hr as (Hok & H404 & Hhit).
  rewrite length_app in *. cbn [length] in *.
  rewrite fmap_app, <- app_assoc. cbn [fmap list_fmap app].
  rewrite (_get_fuel self (length rs' + S (S (length rest))))
    by (cbn [script]; rewrite length_app, length_fmap; cbn [length]; lia).
  rewrite (_get_loop_after_refusals self rs' _ 0 now naps _ Hrs')
    by (try (destruct rs'; [left; reflexivity|right; cbn [length] in *; lia]); lia).
  rewrite (_get_loop_refused self _ _ _ _ r rest Hok H404 Hhit).
  destruct (Z.leb_spec (max_request_tries self) (0 + Z.of_nat (length rs') + 1)); [|lia].
  replace (length rs' + 1 - 1)%nat with (length rs') by lia.
  f_equal. f_equal. lia.
Qed.

Lemma budget_of_refusals_raises_witness :
  _get (crawler_of_window 0 0) (Wire 0 [] ((Answers <$> replicate 100 server_error) ++ []))
  = (Raises TooManyRequestFailures, Wire 990 (replicate 99 10) []).
Proof.
  apply (budget_of_refusals_raises (crawler_of_window 0 0) 0 []
           (replicate 100 server_error) []).
  - apply Forall_replicate. repeat split; (reflexivity || discriminate).
  - reflexivity.
  - discriminate.
Defined.

(** Whatever [_try_to_get] hands back with a first component was read off
    an answer of the script: the [{}] off a 404, a response off an
    accepted answer; and the answers left are the tail of the script after
    it. *)
Lemma _try_to_get_pair_of_script (answers : list attempt) (now : Z) (naps : list Z)
    (rep : reply) (good : bool) (w' : wire) :
  _try_to_get answers now naps = (Returns (Pair (Some rep) good), w') ->
  exists used r, answers = used ++ Answers r :: script w'
    /\ ((rep = EmptyDict /\ good = false /\ status_code r = 404)
        \/ (rep = Full r /\ good = true /\ accepted r)).
Proof.
  revert now naps. induction answers as [|a answers IH]; intros now naps H;
    cbn [_try_to_get] in H; [discriminate|].
  destruct a as [|resp]; [discriminate|].
  destruct (ok resp) eqn:Hok; cbn [negb] in H.
  - destruct (error_message resp) eqn:Hmsg; [discriminate|].
    injection H as <- <- <-. exists [], resp. split; [reflexivity|].
    right. repeat split; assumption.
  - destruct (Z.eqb_spec (status_code resp) 404) as [H404|_].
    + injection H as <- <- <-. exists [], resp. split; [reflexivity|]. left. auto.
    + destruct (ratelimit_hit resp) as [reset|]; [|discriminate].
      destruct (reset - now + 1 <? 0); [discriminate|].
      destruct (IH _ _ H) as (used & r & -> & Hr).
      exists (Answers resp :: used), r. split; [reflexivity|exact Hr].
Qed.

(** The answers [_try_to_get] leaves are a tail of those it was given. *)
Lemma _try_to_get_leaves_tail (answers : list attempt) (now : Z) (naps : list Z) :
  exists used, answers = used ++ script (snd (_try_to_get answers now naps)).
Proof.
  revert now naps. induction answers as [|a answers IH]; intros now naps;
    cbn [_try_to_get]; [exists []; reflexivity|].
  destruct a as [|resp]; [exists [ConnectionFails]; reflexivity|].
  destruct (negb (ok resp)).
  - destruct (status_code resp =? 404); [exists [Answers resp]; reflexivity|].
    destruct (ratelimit_hit resp) as [reset|]; [|exists [Answers resp]; reflexivity].
    destruct (reset - now + 1 <? 0); [exists [Answers resp]; reflexivity|].
    destruct (IH (now + (reset - now + 1)) (naps ++ [reset - now + 1])) as [used Hused].
    exists (Answers resp :: used). cbn [app]. f_equal. exact Hused.
  - destruct (error_message resp); exists [Answers resp]; reflexivity.
Qed.

(** X4.  Whatever the script, the budget and the waiting time, a fetch that
    returns hands back one of two pairs: [({}, False)], read off a 404
    among the answers, or [(r, True)] for an accepted answer [r] of the
    script.  A refused response is never returned, and [True] never comes
    with [{}]. *)
Theorem fetch_returns_not_found_or_accepted (self : Crawler) (w w' : wire)
    (rep : reply) (good : bool) :
  _get self w = (Returns (rep, good), w') ->
  exists r, Answers r ∈ script w
    /\ ((rep = EmptyDict /\ good = false /\ status_code r = 404)
        \/ (rep = Full r /\ good = true /\ accepted r)).
Proof.
  unfold _get. generalize (S (length (script w))) as fuel. generalize 0 as tries.
  intros tries fuel. revert tries w.
  induction fuel as [|fuel IH]; intros tries w H; cbn [_get_loop] in H; [discriminate|].
  pose proof (_try_to_get_leaves_tail (script w) (clock w) (slept w)) as [used Hused].
  destruct (_try_to_get (script w) (clock w) (slept w)) as [[[|[r0|] b]|e|] w1] eqn:E;
    try discriminate.
  - injection H as -> -> ->.
    destruct (_try_to_get_pair_of_script _ _ _ _ _ _ E) as (used' & r & Hscript & Hr).
    exists r. split; [|exact Hr].
    rewrite Hscript. apply elem_of_app. right. apply list_elem_of_here.
  - destruct (max_request_tries self <=? tries + 1); [discriminate|].
    destruct (request_retry_wait_secs self <? 0); [discriminate|].
    destruct (IH _ _ H) as (r & Hin & Hr). cbn [script snd] in Hin, Hused.
    exists r. split; [|exact Hr].
    rewrite Hused. apply elem_of_app. right. exact Hin.
Qed.

Lemma fetch_returns_not_found_or_accepted_witness :
  exists r, Answers r ∈ [Answers server_error; Answers (quota_exhausted 60);
                         Answers ok_response; Answers server_error]
    /\ ((Full ok_response = EmptyDict /\ true = false /\ status_code r = 404)
        \/ (Full ok_response = Full r /\ true = true /\ accepted r)).
Proof.
  apply (fetch_returns_not_found_or_accepted (crawler_of_window 0 0)
           (Wire 50 [] [Answers server_error; Answers (quota_exhausted 60);
                        Answers ok_response; Answers server_error])
           (Wire 61 [10; 1] [Answers server_error])).
  reflexivity.
Defined.

(** ** Boundary search on ascending streams *)

Lemma three_pages_ascending (s : stream) :
  ascending_pages (network_of_pages three_pages) s 3.
Proof.
  split.
  - intros p Hp. assert (p = 1 \/ p = 2 \/ p = 3) as [E|[E|E]] by lia; subst p;
      (eexists _, _; split; [reflexivity|]);
      intros i Hi; rewrite ?elem_of_cons, ?elem_of_nil in Hi;
      destruct Hi as [->|[->|[]]]; vm_compute; split; discriminate.
  - intros p q lp lq i j Hp Hpq Hq Hlp Hlq Hi Hj.
    destruct (three_pages_item p lp i Hlp Hi) as [[? [?|?]]|[[? [?|?]]|[? [?|?]]]];
      destruct (three_pages_item q lq j Hlq Hj) as [[? [?|?]]|[[? [?|?]]|[? [?|?]]]];
      unfold noon, day in *; lia.
Qed.

(** X5.  On a stream served in ascending order of creation over the pages
    [1 .. last_page] announced by the [Link] header, a start page that
    [_get_starting_page] returns is the smallest page holding an item
    created at or after [start_date], or [last_page + 1] when no page
    holds one. *)
Theorem starting_page_returned_is_the_smallest (self : Crawler) (net : network)
    (depth : nat) (s : stream) (last_page p : Z) (w w' : world) :
  ascending_pages net s last_page -> 1 <= last_page ->
  link_of_first_page net s = LinkLast last_page ->
  _get_starting_page self net depth s w = (Returns p, w') ->
  smallest_page_from net s last_page (start_date self) p
  \/ (p = last_page + 1
      /\ forall q, 1 <= q <= last_page -> ~ has_item_from net s (start_date self) q).
Proof.
  intros Hasc Hlast Hlink Hrun.
  destruct (proj1 Hasc 1 ltac:(lia)) as (p0 & ps & Hpage & _).
  unfold _get_starting_page, _last_page_of_first in Hrun.
  unfold bind at 1 2 in Hrun. rewrite (probe_page net s 1 _ w Hpage), Hlink in Hrun.
  cbn [ret] in Hrun.
  refine (_find_start_page_returns self net s last_page Hasc depth 1 last_page _ w' p
            _ _ _ _ _ Hrun); [lia|lia|lia| |left; reflexivity].
  intros q Hq. lia.
Qed.

Lemma starting_page_returned_is_the_smallest_witness :
  let net := network_of_pages three_pages in
  smallest_page_from net Pulls 3 (day 16035) 2
  \/ (2 = 3 + 1
      /\ forall q, 1 <= q <= 3 -> ~ has_item_from net Pulls (day 16035) q).
Proof.
  intros net.
  apply (starting_page_returned_is_the_smallest
           (crawler_of_window (day 16035) (day 18262)) net 1000 Pulls 3 2
           empty_world (World [ListPage Pulls 1; ListPage Pulls 2] [])).
  - apply three_pages_ascending.
  - lia.
  - reflexivity.
  - reflexivity.
Defined.

(** X6.  On such a stream an end page that [_get_ending_page] returns is
    the largest page holding an item created at or before [end_date], or
    0 when no page holds one. *)
Theorem ending_page_returned_is_the_largest (self : Crawler) (net : network)
    (depth : nat) (s : stream) (last_page p : Z) (w w' : world) :
  ascending_pages net s last_page -> 1 <= last_page ->
  link_of_first_page net s = LinkLast last_page ->
  _get_ending_page self net depth s w = (Returns p, w') ->
  largest_page_until net s last_page (end_date self) p
  \/ (p = 0
      /\ forall q, 1 <= q <= last_page -> ~ has_item_until net s (end_date self) q).
Proof.
  intros Hasc Hlast Hlink Hrun.
  destruct (proj1 Hasc 1 ltac:(lia)) as (p0 & ps & Hpage & _).
  unfold _get_ending_page, _last_page_of_first in Hrun.
  unfold bind at 1 2 in Hrun. rewrite (probe_page net s 1 _ w Hpage), Hlink in Hrun.
  cbn [ret] in Hrun.
  refine (_find_end_page_returns self net s last_page Hasc depth 1 last_page _ w' p
            _ _ _ _ _ Hrun); [lia|lia|lia| |left; reflexivity].
  intros q Hq. lia.
Qed.

Lemma ending_page_returned_is_the_largest_witness :
  let net := network_of_pages three_pages in
  largest_page_until net Issues 3 (day 16035) 2
  \/ (2 = 0
      /\ forall q, 1 <= q <= 3 -> ~ has_item_until net Issues (day 16035) q).
Proof.
  intros net.
  apply (ending_page_returned_is_the_largest
           (crawler_of_window (day 16000) (day 16035)) net 1000 Issues 3 2
           empty_world (World [ListPage Issues 1; ListPage Issues 2] [])).
  - apply three_pages_ascending.
  - lia.
  - reflexivity.
  - reflexivity.
Defined.

(** X7.  When no start page of the pulls is given and the first page of
    pulls comes without a [Link] header, the crawl raises [KeyError] after
    that one request: nothing is searched, crawled or saved, whatever the
    other arguments are. *)
Theorem crawl_without_link_header_raises (self : Crawler) (net : network)
    (sigint : world -> bool) (depth fuel : nat) (now : Z) (owner repo : text)
    (start_page_pulls start_page_issues end_page_pulls end_page_issues : Z)
    (pulls : list item) (w : world) :
  start_page_pulls < 1 ->
  list_page net Pulls 1 = Got pulls ->
  link_of_first_page net Pulls = NoLink ->
  crawl self net sigint depth fuel now owner repo
        start_page_pulls start_page_issues end_page_pulls end_page_issues w
  = (Raises KeyError, World (requested w ++ [ListPage Pulls 1]) (written w)).
Proof.
  intros Hstart Hpage Hlink. unfold crawl. unfold bind at 1.
  rewrite (resolve_start_page_searches self net depth Pulls _ w Hstart).
  unfold _get_starting_page, _last_page_of_first. unfold bind at 1 2.
  rewrite (probe_page net Pulls 1 _ w Hpage), Hlink. reflexivity.
Qed.

Lemma crawl_without_link_header_raises_witness :
  crawl (crawler_of_window 0 (day 1)) network_without_link never_interrupted
        1000 1000 (day 2) (str "octocat") (str "Hello-World") (-1) (-1) (-1) (-1)
        empty_world
  = (Raises KeyError, World [ListPage Pulls 1] []).
Proof.
  apply (crawl_without_link_header_raises (crawler_of_window 0 (day 1))
           network_without_link never_interrupted 1000 1000 (day 2)
           (str "octocat") (str "Hello-World") (-1) (-1) (-1) (-1)
           page_of_three_pulls empty_world).
  - lia.
  - reflexivity.
  - reflexivity.
Defined.

(** ** The page range of the crawl loops *)

Section CrawlRange.
Variable self : Crawler.
Variable net : network.
Variable sigint : world -> bool.
Variable re : compiled.

(** X8.  With an end page given, a run of the loop of a stream from any
    page, with any fuel, counters and world, asks for no list page before
    that page or beyond the end page. *)
Theorem pages_requested_stay_within_end_page (end_page : Z) :
  0 < end_page ->
  (forall (fuel : nat) (page : Z) (c : counters) (w : world),
     asks_pages_within Pulls (fun q => page <= q <= end_page)
       (pulls_loop self net sigint re fuel end_page page c) w)
  /\ (forall (fuel : nat) (seen : gset Z) (page n : Z) (w : world),
        asks_pages_within Issues (fun q => page <= q <= end_page)
          (issues_loop self net sigint fuel seen end_page page n) w).
Proof.
  intros Hend. split.
  - intros fuel. induction fuel as [|fuel IH]; intros page c w.
    { apply within_unfinished. }
    cbn [pulls_loop]. apply within_bind.
    { apply within_of_no_page, asks_no_page_read_interrupted. }
    intros i w1 _.
    destruct (Z.ltb_spec 0 end_page); [|lia].
    destruct (Z.ltb_spec end_page page) as [|Hle]; cbn [andb].
    { rewrite orb_true_r. apply within_of_no_page, asks_no_page_ret. }
    rewrite orb_false_r.
    destruct (i || cap_reached self (num_issues c)).
    { apply within_of_no_page, asks_no_page_ret. }
    apply within_bind; [apply within_get_json_page; lia|].
    intros [pulls|] w2 _; [|apply IH].
    apply within_bind.
    { apply within_of_no_page.
      destruct (save_pull_pages self); [apply asks_no_page_save|apply asks_no_page_ret]. }
    intros _ w3 _. apply within_bind.
    { apply within_of_no_page, asks_no_page_process_pulls. }
    intros c' w4 _.
    destruct ((Z.of_nat (length pulls) <? per_page self)
              || cap_reached self (num_issues c')).
    { apply within_bind; [apply within_of_no_page, asks_no_page_read_interrupted|].
      intros [] ? _; apply within_of_no_page, asks_no_page_ret. }
    destruct (IH (page + 1) c' w4) as (qs & Hqs & HP).
    exists qs. split; [exact Hqs|]. eapply Forall_impl; [exact HP|]. cbn. lia.
  - intros fuel. induction fuel as [|fuel IH]; intros seen page n w.
    { apply within_unfinished. }
    cbn [issues_loop]. apply within_bind.
    { apply within_of_no_page, asks_no_page_read_interrupted. }
    intros i w1 _.
    destruct (Z.ltb_spec 0 end_page); [|lia].
    destruct (Z.ltb_spec end_page page) as [|Hle]; cbn [andb].
    { rewrite orb_true_r. apply within_of_no_page, asks_no_page_ret. }
    rewrite orb_false_r.
    destruct (i || cap_reached self n).
    { apply within_of_no_page, asks_no_page_ret. }
    apply within_bind; [apply within_get_json_page; lia|].
    intros [issues|] w2 _; [|apply IH].
    apply within_bind.
    { apply within_of_no_page, asks_no_page_process_issues. }
    intros n' w4 _.
    destruct ((Z.of_nat (length issues) <? per_page self) || cap_reached self n').
    { apply within_bind; [apply within_of_no_page, asks_no_page_read_interrupted|].
      intros [] ? _; apply within_of_no_page, asks_no_page_ret. }
    destruct (IH seen (page + 1) n' w4) as (qs & Hqs & HP).
    exists qs. split; [exact Hqs|]. eapply Forall_impl; [exact HP|]. cbn. lia.
Qed.

(** X9.  A list page that is answered 404 is asked for again and again:
    as long as the interrupt key is not pressed, the loop of the stream
    neither moves to the next page nor ends, whatever fuel it is given,
    and writes nothing. *)
Theorem not_found_page_is_asked_for_forever (end_page page : Z) :
  (forall w, sigint w = false) ->
  (0 <? end_page) && (end_page <? page) = false ->
  (list_page net Pulls page = Absent ->
     forall (fuel : nat) (c : counters) (w : world),
       cap_reached self (num_issues c) = false ->
       pulls_loop self net sigint re fuel end_page page c w
       = (Unfinished,
          World (requested w ++ replicate fuel (ListPage Pulls page)) (written w)))
  /\ (list_page net Issues page = Absent ->
        forall (fuel : nat) (seen : gset Z) (n : Z) (w : world),
          cap_reached self n = false ->
          issues_loop self net sigint fuel seen end_page page n w
          = (Unfinished,
             World (requested w ++ replicate fuel (ListPage Issues page)) (written w))).
Proof.
  intros Hsig Hend. split; intros Hpage fuel.
  - intros c w Hcap. revert w. induction fuel as [|fuel IH]; intros w.
    { cbn. rewrite app_nil_r. destruct w; reflexivity. }
    cbn [pulls_loop]. unfold bind at 1, read_interrupted at 1.
    rewrite Hsig, Hcap, Hend. cbn [orb].
    unfold bind at 1, _get_json_page, fetch, bind, log_request. rewrite Hpage.
    cbn [ret]. rewrite IH. cbn [requested written replicate].
    rewrite <- app_assoc. reflexivity.
  - intros seen n w Hcap. revert w. induction fuel as [|fuel IH]; intros w.
    { cbn. rewrite app_nil_r. destruct w; reflexivity. }
    cbn [issues_loop]. unfold bind at 1, read_interrupted at 1.
    rewrite Hsig, Hcap, Hend. cbn [orb].
    unfold bind at 1, _get_json_page, fetch, bind, log_request. rewrite Hpage.
    cbn [ret]. rewrite IH. cbn [requested written replicate].
    rewrite <- app_assoc. reflexivity.
Qed.

End CrawlRange.

Lemma pages_requested_stay_within_end_page_witness :
  let self := crawler_of_window 0 (day 1) in
  let net := network_of_pages pages_100_and_37 in
  let re := _make_linked_issues_regex (str "octocat") (str "Hello-World") in
  asks_pages_within Pulls (fun q => 1 <= q <= 1)
    (pulls_loop self net never_interrupted re 1000 1 1 (Counters 0 0 ∅))
    empty_world.
Proof.
  intros self net re.
  apply (proj1 (pages_requested_stay_within_end_page self net never_interrupted
                  re 1 eq_refl) 1000%nat 1 (Counters 0 0 ∅) empty_world).
Defined.

Lemma not_found_page_is_asked_for_forever_witness :
  let self := crawler_of_window 0 (day 1) in
  let re := _make_linked_issues_regex (str "octocat") (str "Hello-World") in
  pulls_loop self network_not_found never_interrupted re 3 (-1) 1 (Counters 0 0 ∅)
    empty_world
  = (Unfinished, World [ListPage Pulls 1; ListPage Pulls 1; ListPage Pulls 1] []).
Proof.
  intros self re.
  apply (proj1 (not_found_page_is_asked_for_forever self network_not_found
                  never_interrupted re (-1) 1 (fun _ => eq_refl) eq_refl)
               eq_refl 3%nat (Counters 0 0 ∅) empty_world eq_refl).
Defined.

(** ** Interrupting a crawl *)

(** With both start pages given and the end of the window in the future,
    no page is searched for: the crawl is its two loops. *)
Lemma crawl_of_given_pages (self : Crawler) (net : network)
    (sigint : world -> bool) (depth fuel : nat) (now : Z) (owner repo : text)
    (start_page_pulls start_page_issues end_page_pulls end_page_issues : Z)
    (w : world) :
  1 <= start_page_pulls -> 1 <= start_page_issues -> now < end_date self ->
  crawl self net sigint depth fuel now owner repo
        start_page_pulls start_page_issues end_page_pulls end_page_issues w
  = (let* r := pulls_loop self net sigint (_make_linked_issues_regex owner repo) fuel
                 (if end_page_pulls <? 1 then -1 else end_page_pulls)
                 start_page_pulls (Counters 0 0 ∅) in
     match fst r with
     | CrawlReturned => ret tt
     | LoopDone =>
       let* _ := issues_loop self net sigint fuel (list_issues (snd r))
                   (if end_page_issues <? 1 then -1 else end_page_issues)
                   start_page_issues 0 in
       ret tt
     end) w.
Proof.
  intros Hp Hi Hnow. unfold crawl, resolve_start_page, resolve_end_page.
  destruct (Z.ltb_spec start_page_pulls 1); [lia|].
  destruct (Z.ltb_spec start_page_issues 1); [lia|].
  destruct (Z.ltb_spec now (end_date self)); [|lia].
  unfold bind at 1 2 3 4. cbn [ret].
  destruct (end_page_pulls <? 1), (end_page_issues <? 1); reflexivity.
Qed.

(** X10.  An interrupt that arrives while a page of pulls is being
    processed lets the crawl finish that page and nothing more.  From any
    state the pulls loop is in at the top of an iteration it enters (the
    flag not set, the cap not reached, the page not beyond the end page),
    whatever the page, the counters and the pattern: when the flag is set in
    the world the page leaves, every pull of the page has been processed,
    the loop ends with the counters and in the world the page left, and what
    is left of the crawl returns from there at once: no other page of pulls
    and no page of issues is asked for. *)
Theorem interrupt_finishes_the_current_page (self : Crawler) (net : network)
    (sigint : world -> bool) (re : compiled) (fuel fuel_issues : nat)
    (end_page_pulls page start_page_issues end_page_issues : Z)
    (pulls : list item) (c c' : counters) (w w' : world) :
  sigint w = false ->
  cap_reached self (num_issues c) = false ->
  (0 <? end_page_pulls) && (end_page_pulls <? page) = false ->
  list_page net Pulls page = Got pulls ->
  (let* _ := if save_pull_pages self
             then save (PullsPageFile page pulls) else ret tt in
   process_pulls self net re pulls c)
    (World (requested w ++ [ListPage Pulls page]) (written w))
  = (Returns c', w') ->
  sigint w' = true ->
  let e := if (Z.of_nat (length pulls) <? per_page self)
              || cap_reached self (num_issues c')
           then CrawlReturned else LoopDone in
  pulls_loop self net sigint re (S (S fuel)) end_page_pulls page c w
  = (Returns (e, c'), w')
  /\ match e with
     | CrawlReturned => ret tt
     | LoopDone =>
       let* _ := issues_loop self net sigint (S fuel_issues) (list_issues c')
                   end_page_issues start_page_issues 0 in
       ret tt
     end w' = (Returns tt, w').
Proof.
  intros Hsig Hcap Hend Hpage Hrun Hsig'. cbn zeta.
  rewrite (pulls_loop_enters self net sigint re (S fuel) end_page_pulls page pulls
             c w Hsig Hend Hcap Hpage).
  unfold bind in Hrun. unfold bind.
  destruct ((if save_pull_pages self
             then save (PullsPageFile page pulls) else ret tt)
              (World (requested w ++ [ListPage Pulls page]) (written w)))
    as [[[]|e|] w1]; try discriminate.
  rewrite Hrun.
  destruct ((Z.of_nat (length pulls) <? per_page self)
            || cap_reached self (num_issues c')).
  - unfold read_interrupted. rewrite Hsig'. split; reflexivity.
  - cbn [pulls_loop issues_loop]. unfold bind, read_interrupted. rewrite Hsig'.
    split; reflexivity.
Qed.

Lemma interrupt_finishes_the_current_page_witness :
  let self := crawler_of_window 0 (day 1) in
  let re := _make_linked_issues_regex (str "octocat") (str "Hello-World") in
  let w' := World [ListPage Pulls 1; PullDetail 7; PullDetail 8;
                   DiffOf (diff_url_of 8); PullDetail 9; DiffOf (diff_url_of 9);
                   IssueDetail 3]
                  [DiffFile 9 (str "diff --git a/README b/README");
                   PullFile 9 (PullObject 9 (diff_url_of 9) (Some [3]));
                   IssueFile 3 3] in
  pulls_loop self network_of_three_pulls (interrupted_after 2) re 2 (-1) 1
             (Counters 0 0 ∅) empty_world
  = (Returns (CrawlReturned, Counters 1 1 {[3]}), w')
  /\ ret tt w' = (Returns tt, w').
Proof.
  intros self re w'.
  apply (interrupt_finishes_the_current_page self network_of_three_pulls
           (interrupted_after 2) re 0 0 (-1) 1 1 (-1) page_of_three_pulls
           (Counters 0 0 ∅) (Counters 1 1 {[3]}) empty_world w').
  - reflexivity.
  - reflexivity.
  - reflexivity.
  - reflexivity.
  - vm_compute. reflexivity.
  - reflexivity.
Defined.

(** The crawl of [network_of_three_pulls] from page 1, interrupted while
    its only page of pulls is processed: the page is finished, and the crawl
    returns without asking for a page of issues. *)
Example crawl_interrupted_during_a_page :
  crawl (crawler_of_window 0 (day 1)) network_of_three_pulls (interrupted_after 2)
        0 2 0 (str "octocat") (str "Hello-World") 1 1 (-1) (-1) empty_world
  = (Returns tt,
     World [ListPage Pulls 1; PullDetail 7; PullDetail 8; DiffOf (diff_url_of 8);
            PullDetail 9; DiffOf (diff_url_of 9); IssueDetail 3]
           [DiffFile 9 (str "diff --git a/README b/README");
            PullFile 9 (PullObject 9 (diff_url_of 9) (Some [3]));
            IssueFile 3 3]).
Proof. vm_compute. reflexivity. Qed.

(** ** What the two passes ask for and save *)

Lemma adds_nothing {A} (Pr : request -> Prop) (Pw : file -> Prop) (m : M A)
    (w : world) :
  snd (m w) = w -> adds Pr Pw m w.
Proof.
  intros H. exists [], []. rewrite H, !app_nil_r. auto.
Qed.

Lemma adds_ret {A} (Pr : request -> Prop) (Pw : file -> Prop) (a : A) (w : world) :
  adds Pr Pw (ret a) w.
Proof. apply adds_nothing. reflexivity. Qed.

Lemma adds_unfinished {A} (Pr : request -> Prop) (Pw : file -> Prop) (w : world) :
  adds Pr Pw (@unfinished A) w.
Proof. apply adds_nothing. reflexivity. Qed.

Lemma adds_bind {A B} (Pr : request -> Prop) (Pw : file -> Prop) (m : M A)
    (k : A -> M B) (w : world) :
  adds Pr Pw m w ->
  (forall a w', m w = (Returns a, w') -> adds Pr Pw (k a) w') ->
  adds Pr Pw (bind m k) w.
Proof.
  intros (reqs & files & Hr & Hw & HPr & HPw) Hk. unfold adds, bind.
  destruct (m w) as [[a|e|] w'] eqn:E; cbn [snd] in *.
  - destruct (Hk a w' eq_refl) as (reqs' & files' & Hr' & Hw' & HPr' & HPw').
    exists (reqs ++ reqs'), (files ++ files').
    rewrite Hr', Hw', Hr, Hw, !app_assoc. repeat split; try apply Forall_app; auto.
  - exists reqs, files. auto.
  - exists reqs, files. auto.
Qed.

Lemma adds_save (Pr : request -> Prop) (Pw : file -> Prop) (f : file) (w : world) :
  Pw f -> adds Pr Pw (save f) w.
Proof.
  intros H. exists [], [f]. cbn. rewrite app_nil_r. repeat split; auto.
Qed.

Lemma adds_fetch {A} (Pr : request -> Prop) (Pw : file -> Prop) (r : request)
    (answer : fetched A) (w : world) :
  Pr r -> adds Pr Pw (fetch r answer) w.
Proof.
  intros H. exists [r], []. unfold fetch, bind, log_request.
  destruct answer; cbn; rewrite app_nil_r; repeat split; auto.
Qed.

Lemma fetch_returns {A} (r : request) (answer : fetched A) (w w' : world)
    (a : option A) :
  fetch r answer w = (Returns a, w') ->
  match a with Some x => answer = Got x | None => answer = Absent end.
Proof.
  unfold fetch, bind, log_request. destruct answer; cbn; intros [= <- _]; reflexivity.
Qed.

Section CrawlPasses.
Variable self : Crawler.
Variable net : network.
Variable sigint : world -> bool.
Variable re : compiled.

Lemma inside_window (t : Z) :
  outside_window self t = false -> start_date self <= t <= end_date self.
Proof.
  unfold outside_window. intros H. apply orb_false_iff in H as [H1 H2].
  apply Z.ltb_ge in H1, H2. lia.
Qed.

Lemma adds_save_linked_issues (i : item) (ns : list Z) (c : counters) (w : world) :
  item_in_window self net Pulls i ->
  ns ⊆ _extract_linked_issue_numbers (body i) re ->
  adds (request_of_pulls_pass self net re) (file_of_pulls_pass self net re)
       (save_linked_issues net ns c) w.
Proof.
  intros Hi. revert c w. induction ns as [|n ns IH]; intros c w Hns;
    cbn [save_linked_issues]; [apply adds_ret|].
  assert (Hn : n ∈ _extract_linked_issue_numbers (body i) re)
    by (apply Hns, list_elem_of_here).
  assert (Hns' : ns ⊆ _extract_linked_issue_numbers (body i) re)
    by (intros x Hx; apply Hns; right; exact Hx).
  apply adds_bind; [apply adds_fetch; exists i; auto|].
  intros [issue|] w1 Hget; apply fetch_returns in Hget; [|apply IH; exact Hns'].
  apply adds_bind; [apply adds_save; exists i; auto|].
  intros _ w2 _. apply IH. exact Hns'.
Qed.

Lemma adds_process_pull (p : item) (c : counters) (w : world) :
  (exists page l, list_page net Pulls page = Got l /\ p ∈ l) ->
  adds (request_of_pulls_pass self net re) (file_of_pulls_pass self net re)
       (process_pull self net re p c) w.
Proof.
  intros Hlisted. unfold process_pull.
  destruct (outside_window self (created_at p)) eqn:Hwin; [apply adds_ret|].
  assert (Hp : item_in_window self net Pulls p)
    by (split; [exact Hlisted|apply inside_window; exact Hwin]).
  apply adds_bind; [apply adds_fetch; exists p; auto|].
  intros [pull|] w1 Hpull; apply fetch_returns in Hpull; [|apply adds_ret].
  cbn [diff_url with_linked].
  apply adds_bind; [apply adds_fetch; exists p, pull; auto|].
  intros [diff|] w2 Hdiff; apply fetch_returns in Hdiff; [|apply adds_ret].
  apply adds_bind; [apply adds_save; exists p, pull; auto|].
  intros _ w3 _.
  apply adds_bind; [apply adds_save; exists p, pull; auto|].
  intros _ w4 _.
  apply adds_bind; [apply (adds_save_linked_issues p); [exact Hp|reflexivity]|].
  intros c' w5 _. apply adds_ret.
Qed.

Lemma adds_process_pulls (pulls : list item) (c : counters) (w : world) :
  (forall p, p ∈ pulls -> exists page l, list_page net Pulls page = Got l /\ p ∈ l) ->
  adds (request_of_pulls_pass self net re) (file_of_pulls_pass self net re)
       (process_pulls self net re pulls c) w.
Proof.
  revert c w. induction pulls as [|p pulls IH]; intros c w Hlisted;
    cbn [process_pulls]; [apply adds_ret|].
  apply adds_bind; [apply adds_process_pull, Hlisted, list_elem_of_here|].
  intros [c' brk] w1 _. cbn [fst snd].
  destruct brk; [apply adds_ret|].
  apply IH. intros q Hq. apply Hlisted. right. exact Hq.
Qed.

(** X11.  Whatever the pulls pass asks for or writes stems from a pull
    that a list page holds and that was created inside the window: the
    pull's detail object, the diff this object points to, the issues that
    the pull's listed body links; the pull is saved as its detail object
    with the extracted list added, and a list page is saved only when
    [save_pull_pages] is set.  This holds for every fuel, state and way
    the loop ends. *)
Theorem pulls_pass_keeps_to_pulls_of_the_window (fuel : nat) (end_page page : Z)
    (c : counters) (w : world) :
  adds (request_of_pulls_pass self net re) (file_of_pulls_pass self net re)
       (pulls_loop self net sigint re fuel end_page page c) w.
Proof.
  revert page c w. induction fuel as [|fuel IH]; intros page c w;
    [apply adds_unfinished|].
  cbn [pulls_loop].
  apply adds_bind; [apply adds_nothing; reflexivity|].
  intros i w1 _.
  destruct (i || cap_reached self (num_issues c)
            || (0 <? end_page) && (end_page <? page)); [apply adds_ret|].
  apply adds_bind; [apply adds_fetch; exact I|].
  intros [pulls|] w2 Hget; apply get_json_page_returns in Hget; [|apply IH].
  apply adds_bind.
  { destruct (save_pull_pages self) eqn:Hsave; [|apply adds_ret].
    apply adds_save. split; assumption. }
  intros _ w3 _.
  apply adds_bind.
  { apply adds_process_pulls. intros p Hp. exists page, pulls. auto. }
  intros c' w4 _.
  destruct ((Z.of_nat (length pulls) <? per_page self)
            || cap_reached self (num_issues c')); [|apply IH].
  apply adds_bind; [apply adds_nothing; reflexivity|].
  intros [] w5 _; apply adds_ret.
Qed.

Lemma adds_process_issues (seen : gset Z) (issues : list item) (n : Z) (w : world) :
  (forall i, i ∈ issues -> exists page l, list_page net Issues page = Got l /\ i ∈ l) ->
  adds (request_of_issues_pass self net seen) (file_of_issues_pass self net seen)
       (process_issues self net seen issues n) w.
Proof.
  revert n w. induction issues as [|i issues IH]; intros n w Hlisted;
    cbn [process_issues]; [apply adds_ret|].
  assert (Hrest : forall j, j ∈ issues ->
            exists page l, list_page net Issues page = Got l /\ j ∈ l)
    by (intros j Hj; apply Hlisted; right; exact Hj).
  apply adds_bind.
  - unfold process_issue.
    destruct (bool_decide (number i ∈ seen)) eqn:Hseen; [apply adds_ret|].
    apply bool_decide_eq_false in Hseen.
    destruct (outside_window self (created_at i)) eqn:Hwin; [apply adds_ret|].
    cbn [orb].
    assert (Hi : exists j, item_in_window self net Issues j /\ number j = number i).
    { exists i. split; [|reflexivity].
      split; [apply Hlisted, list_elem_of_here|apply inside_window; exact Hwin]. }
    apply adds_bind; [apply adds_fetch; split; assumption|].
    intros [issue|] w1 Hget; apply fetch_returns in Hget; [|apply adds_ret].
    apply adds_bind; [apply adds_save; repeat split; assumption|].
    intros _ w2 _. apply adds_ret.
  - intros [n' brk] w1 _. cbn [fst snd].
    destruct brk; [apply adds_ret|apply IH; exact Hrest].
Qed.

(** X12.  Whatever the issues pass asks for, besides the list pages of
    issues, and whatever it writes is an issue that a list page holds, that
    was created inside the window, and whose number is not among those the
    pulls pass saved: such an issue is neither fetched nor written again.
    This holds for every fuel, state and way the loop ends. *)
Theorem issues_pass_keeps_to_new_issues_of_the_window (fuel : nat) (seen : gset Z)
    (end_page page n : Z) (w : world) :
  adds (request_of_issues_pass self net seen) (file_of_issues_pass self net seen)
       (issues_loop self net sigint fuel seen end_page page n) w.
Proof.
  revert page n w. induction fuel as [|fuel IH]; intros page n w;
    [apply adds_unfinished|].
  cbn [issues_loop].
  apply adds_bind; [apply adds_nothing; reflexivity|].
  intros i w1 _.
  destruct (i || cap_reached self n || (0 <? end_page) && (end_page <? page));
    [apply adds_ret|].
  apply adds_bind; [apply adds_fetch; exact I|].
  intros [issues|] w2 Hget; apply get_json_page_returns in Hget; [|apply IH].
  apply adds_bind.
  { apply adds_process_issues. intros j Hj. exists page, issues. auto. }
  intros n' w4 _.
  destruct ((Z.of_nat (length issues) <? per_page self) || cap_reached self n');
    [|apply IH].
  apply adds_bind; [apply adds_nothing; reflexivity|].
  intros [] w5 _; apply adds_ret.
Qed.

End CrawlPasses.

(** ** The counters of the crawl *)

Lemma accounts_for_nothing (c : counters) : accounts_for c [] c.
Proof.
  unfold accounts_for. cbn. repeat split; try lia.
  symmetry. apply union_empty_r_L.
Qed.

Lemma accounts_for_app (c c1 c2 : counters) (files files' : list file) :
  accounts_for c files c1 -> accounts_for c1 files' c2 ->
  accounts_for c (files ++ files') c2.
Proof.
  unfold accounts_for, pulls_saved, issues_saved, diffs_saved.
  intros (Hp & Hi & Hl & Hd) (Hp' & Hi' & Hl' & Hd').
  rewrite !omap_app, !length_app, Hd, Hd'. repeat split; try lia.
  rewrite Hl', Hl, list_to_set_app_L. symmetry. apply (assoc_L (∪)).
Qed.

Lemma fetch_writes_nothing {A} (r : request) (answer : fetched A) (w w' : world)
    (o : outcome (option A)) :
  fetch r answer w = (o, w') -> written w' = written w.
Proof.
  unfold fetch, bind, log_request. destruct answer; cbn; intros [= _ <-]; reflexivity.
Qed.

Section CrawlCounters.
Variable self : Crawler.
Variable net : network.
Variable sigint : world -> bool.
Variable re : compiled.

Lemma save_linked_issues_accounts (ns : list Z) (c c' : counters) (w w' : world) :
  save_linked_issues net ns c w = (Returns c', w') ->
  exists files, written w' = written w ++ files
    /\ accounts_for c files c' /\ pulls_saved files = [] /\ diffs_saved files = [].
Proof.
  revert c w. induction ns as [|n ns IH]; intros c w H; cbn [save_linked_issues] in H.
  - injection H as <- <-. exists []. rewrite app_nil_r.
    split; [reflexivity|]. split; [apply accounts_for_nothing|]. auto.
  - unfold bind at 1 in H.
    destruct (fetch (IssueDetail n) (issue_detail net n) w) as [[[issue|]|e|] w1] eqn:E;
      try discriminate.
    + pose proof (fetch_writes_nothing _ _ _ _ _ E) as Hw1.
      unfold bind at 1, save at 1 in H.
      destruct (IH _ _ H) as (files & Hw & Hacc & Hp & Hd). cbn [written] in Hw.
      exists (IssueFile n issue :: files). rewrite Hw, Hw1, <- app_assoc.
      split; [reflexivity|]. split; [|cbn; auto].
      change (IssueFile n issue :: files) with ([IssueFile n issue] ++ files).
      eapply accounts_for_app; [|exact Hacc].
      unfold accounts_for. cbn. repeat split; try lia.
      rewrite union_empty_r_L. apply (comm_L (∪)).
    + pose proof (fetch_writes_nothing _ _ _ _ _ E) as Hw1.
      destruct (IH _ _ H) as (files & Hw & Hacc & Hp & Hd).
      exists files. rewrite Hw, Hw1. auto.
Qed.

Lemma process_pull_accounts (p : item) (c c' : counters) (brk : bool) (w w' : world) :
  process_pull self net re p c w = (Returns (c', brk), w') ->
  exists files, written w' = written w ++ files /\ accounts_for c files c'.
Proof.
  unfold process_pull. intros H.
  destruct (outside_window self (created_at p)).
  { injection H as <- _ <-. exists []. rewrite app_nil_r.
    split; [reflexivity|apply accounts_for_nothing]. }
  unfold bind at 1 in H.
  destruct (fetch (PullDetail (number p)) (pull_detail net (number p)) w)
    as [[[pull|]|e|] w1] eqn:E1; try discriminate.
  2:{ injection H as <- _ <-. exists []. rewrite app_nil_r.
      split; [exact (fetch_writes_nothing _ _ _ _ _ E1)|apply accounts_for_nothing]. }
  unfold bind at 1 in H.
  match type of H with context [fetch ?r ?a w1] =>
    destruct (fetch r a w1) as [[[diff|]|e|] w2] eqn:E2 end; try discriminate.
  2:{ injection H as <- _ <-. exists []. rewrite app_nil_r.
      split; [|apply accounts_for_nothing].
      rewrite (fetch_writes_nothing _ _ _ _ _ E2).
      exact (fetch_writes_nothing _ _ _ _ _ E1). }
  unfold bind at 1, save at 1 in H. unfold bind at 1, save at 1 in H.
  cbn [requested written] in H. unfold bind at 1 in H.
  match type of H with context [save_linked_issues net ?ns c ?w0] =>
    destruct (save_linked_issues net ns c w0) as [[c1|e|] w3] eqn:E3 end;
    try discriminate.
  injection H as <- _ <-.
  destruct (save_linked_issues_accounts _ _ _ _ _ E3)
    as (files & Hw & (Hp & Hi & Hl & _) & Hps & Hds).
  cbn [written] in Hw.
  rewrite (fetch_writes_nothing _ _ _ _ _ E2),
          (fetch_writes_nothing _ _ _ _ _ E1), <- !app_assoc in Hw.
  eexists. split; [exact Hw|].
  unfold accounts_for. cbn [num_pulls num_issues list_issues].
  change (pulls_saved (_ ++ _ ++ files)) with (number p :: pulls_saved files).
  change (diffs_saved (_ ++ _ ++ files)) with (number p :: diffs_saved files).
  change (issues_saved (_ ++ _ ++ files)) with (issues_saved files).
  rewrite Hps, Hds. rewrite Hps in Hp. cbn [length] in *.
  repeat split; try lia; assumption.
Qed.

Lemma process_pulls_accounts (pulls : list item) (c c' : counters) (w w' : world) :
  process_pulls self net re pulls c w = (Returns c', w') ->
  exists files, written w' = written w ++ files /\ accounts_for c files c'.
Proof.
  revert c w. induction pulls as [|p pulls IH]; intros c w H; cbn [process_pulls] in H.
  - injection H as <- <-. exists []. rewrite app_nil_r.
    split; [reflexivity|apply accounts_for_nothing].
  - unfold bind at 1 in H.
    destruct (process_pull self net re p c w) as [[[c1 brk]|e|] w1] eqn:E;
      try discriminate.
    destruct (process_pull_accounts _ _ _ _ _ _ E) as (files & Hw & Hacc).
    cbn [fst snd] in H. destruct brk.
    + injection H as <- <-. exists files. auto.
    + destruct (IH _ _ H) as (files' & Hw' & Hacc').
      exists (files ++ files'). rewrite Hw', Hw, app_assoc.
      split; [reflexivity|]. eapply accounts_for_app; eassumption.
Qed.

(** X13.  When the pulls pass ends, its counters account for what it
    wrote besides the saved list pages: [num_pulls] grew by the number of
    pull files written, each written right with its diff, [num_issues] by
    the number of issue files written, and the memo [list_issues] gained
    exactly the numbers of these issue files. *)
Theorem pulls_pass_counters_account_for_files (fuel : nat) (end_page page : Z)
    (c c' : counters) (e : loop_exit) (w w' : world) :
  pulls_loop self net sigint re fuel end_page page c w = (Returns (e, c'), w') ->
  exists files, written w' = written w ++ files /\ accounts_for c files c'.
Proof.
  revert page c w. induction fuel as [|fuel IH]; intros page c w H;
    cbn [pulls_loop] in H; [discriminate|].
  unfold bind at 1, read_interrupted at 1 in H.
  destruct (sigint w || cap_reached self (num_issues c)
            || (0 <? end_page) && (end_page <? page)).
  { injection H as _ <- <-. exists []. rewrite app_nil_r.
    split; [reflexivity|apply accounts_for_nothing]. }
  unfold bind at 1 in H.
  destruct (_get_json_page net Pulls page w) as [[[pulls|]|x|] w1] eqn:E1;
    try discriminate.
  2:{ destruct (IH _ _ _ H) as (files & Hw & Hacc). exists files.
      rewrite Hw. rewrite (fetch_writes_nothing _ _ _ _ _ E1). auto. }
  apply fetch_writes_nothing in E1.
  unfold bind at 1 in H.
  destruct ((if save_pull_pages self then save (PullsPageFile page pulls) else ret tt) w1)
    as [[[]|x|] w2] eqn:E2; try discriminate.
  assert (H2 : exists files2, written w2 = written w ++ files2
                 /\ accounts_for c files2 c).
  { destruct (save_pull_pages self); injection E2 as <-; cbn [written]; rewrite E1.
    - exists [PullsPageFile page pulls]. split; [reflexivity|].
      apply accounts_for_nothing.
    - exists []. rewrite app_nil_r. split; [reflexivity|apply accounts_for_nothing]. }
  destruct H2 as (files2 & Hw2 & Hacc2).
  unfold bind at 1 in H.
  destruct (process_pulls self net re pulls c w2) as [[c3|x|] w3] eqn:E3;
    try discriminate.
  destruct (process_pulls_accounts _ _ _ _ _ E3) as (files3 & Hw3 & Hacc3).
  assert (Hupto : exists files, written w3 = written w ++ files
                    /\ accounts_for c files c3).
  { exists (files2 ++ files3). rewrite Hw3, Hw2, app_assoc.
    split; [reflexivity|]. eapply accounts_for_app; eassumption. }
  clear Hw3 Hacc3 Hw2 Hacc2. destruct Hupto as (files & Hw & Hacc).
  destruct ((Z.of_nat (length pulls) <? per_page self)
            || cap_reached self (num_issues c3)).
  - unfold bind at 1, read_interrupted at 1 in H.
    destruct (sigint w3); injection H as _ <- <-; exists files; auto.
  - destruct (IH _ _ _ H) as (files' & Hw' & Hacc').
    exists (files ++ files'). rewrite Hw', Hw, app_assoc.
    split; [reflexivity|]. eapply accounts_for_app; eassumption.
Qed.

(** The part of a page of issues still to be gone through writes issue
    files only, one per unit by which the counter grows, and stops at the
    cap. *)
Lemma process_issues_up_to_cap (seen : gset Z) (issues : list item) (n : Z) (w : world) :
  0 < _max_issue_number self -> n < _max_issue_number self ->
  exists files,
    written (snd (process_issues self net seen issues n w)) = written w ++ files
    /\ n + Z.of_nat (length files) <= _max_issue_number self
    /\ forall n', fst (process_issues self net seen issues n w) = Returns n' ->
                  n' = n + Z.of_nat (length files).
Proof.
  intros Hcap. revert n w. induction issues as [|i issues IH]; intros n w Hn;
    cbn [process_issues].
  { exists []. cbn. rewrite app_nil_r. split; [reflexivity|].
    split; [lia|]. intros n' [= <-]. lia. }
  unfold bind, process_issue.
  destruct (bool_decide (number i ∈ seen) || outside_window self (created_at i)).
  { cbn [ret fst snd]. apply IH. exact Hn. }
  unfold bind.
  destruct (fetch (IssueDetail (number i)) (issue_detail net (number i)) w)
    as [[[issue|]|x|] w1] eqn:E; pose proof (fetch_writes_nothing _ _ _ _ _ E) as Hw1.
  - unfold save. cbn [ret fst snd]. unfold cap_reached.
    destruct (Z.ltb_spec 0 (_max_issue_number self)); [|lia]. cbn [andb].
    destruct (Z.leb_spec (_max_issue_number self) (n + 1)).
    + exists [IssueFile (number i) issue]. cbn [ret snd fst written length].
      rewrite Hw1. split; [reflexivity|]. split; [lia|]. intros n' [= <-]. lia.
    + destruct (IH (n + 1) (World (requested w1)
                                  (written w1 ++ [IssueFile (number i) issue]))
                   ltac:(lia)) as (files & Hw & Hle & Hret).
      exists (IssueFile (number i) issue :: files). cbn [written] in Hw.
      rewrite Hw1 in Hw, Hret |- *. rewrite Hw, <- app_assoc.
      split; [reflexivity|]. cbn [length].
      split; [lia|]. intros n' Hn'. rewrite (Hret n' Hn'). lia.
  - cbn [ret fst snd]. destruct (IH n w1 Hn) as (files & Hw & Hle & Hret).
    exists files. rewrite Hw, Hw1. auto.
  - exists []. cbn [snd fst]. rewrite Hw1, app_nil_r. split; [reflexivity|].
    split; [cbn; lia|]. discriminate.
  - exists []. cbn [snd fst]. rewrite Hw1, app_nil_r. split; [reflexivity|].
    split; [cbn; lia|]. discriminate.
Qed.

(** X14.  With a cap on the number of issues, the issues pass started
    with its counter at or below the cap writes at most as many files as
    the cap leaves room for, however it ends and whatever fuel it is
    given. *)
Theorem issues_pass_stops_at_the_cap (fuel : nat) (seen : gset Z)
    (end_page page n : Z) (w : world) :
  0 < _max_issue_number self -> n <= _max_issue_number self ->
  exists files,
    written (snd (issues_loop self net sigint fuel seen end_page page n w))
    = written w ++ files
    /\ n + Z.of_nat (length files) <= _max_issue_number self.
Proof.
  intros Hcap. revert page n w. induction fuel as [|fuel IH]; intros page n w Hn.
  { exists []. cbn. rewrite app_nil_r. split; [reflexivity|lia]. }
  cbn [issues_loop]. unfold bind at 1, read_interrupted at 1.
  unfold cap_reached at 1.
  destruct (Z.ltb_spec 0 (_max_issue_number self)); [|lia]. cbn [andb].
  destruct (Z.leb_spec (_max_issue_number self) n) as [|Hlt].
  { rewrite orb_true_r. cbn [orb]. exists []. cbn. rewrite app_nil_r.
    split; [reflexivity|lia]. }
  rewrite orb_false_r.
  destruct (sigint w || (0 <? end_page) && (end_page <? page)).
  { exists []. cbn. rewrite app_nil_r. split; [reflexivity|lia]. }
  unfold bind at 1.
  destruct (_get_json_page net Issues page w) as [[[issues|]|x|] w1] eqn:E1;
    pose proof (fetch_writes_nothing _ _ _ _ _ E1) as Hw1.
  - unfold bind at 1.
    destruct (process_issues_up_to_cap seen issues n w1 Hcap Hlt)
      as (files & Hw & Hle & Hret).
    destruct (process_issues self net seen issues n w1) as [[n'|x|] w2];
      cbn [fst snd] in *.
    + specialize (Hret n' eq_refl).
      destruct ((Z.of_nat (length issues) <? per_page self) || cap_reached self n').
      * unfold bind at 1, read_interrupted at 1.
        exists files. destruct (sigint w2); cbn [ret snd]; rewrite Hw, Hw1; auto.
      * destruct (IH (page + 1) n' w2 ltac:(lia)) as (files' & Hw' & Hle').
        exists (files ++ files'). rewrite Hw', Hw, Hw1, app_assoc, length_app.
        split; [reflexivity|lia].
    + exists files. rewrite Hw, Hw1. auto.
    + exists files. rewrite Hw, Hw1. auto.
  - destruct (IH page n w1 Hn) as (files & Hw & Hle).
    exists files. rewrite Hw, Hw1. auto.
  - exists []. cbn [snd]. rewrite Hw1, app_nil_r. split; [reflexivity|cbn; lia].
  - exists []. cbn [snd]. rewrite Hw1, app_nil_r. split; [reflexivity|cbn; lia].
Qed.

End CrawlCounters.

Lemma pulls_pass_counters_account_for_files_witness :
  exists files,
    [DiffFile 9 (str "diff --git a/README b/README");
     PullFile 9 (PullObject 9 (diff_url_of 9) (Some [3]));
     IssueFile 3 3] = [] ++ files
    /\ accounts_for (Counters 0 0 ∅) files (Counters 1 1 {[3]}).
Proof.
  apply (pulls_pass_counters_account_for_files (crawler_of_window 0 (day 1))
           network_of_three_pulls never_interrupted
           (_make_linked_issues_regex (str "octocat") (str "Hello-World"))
           1000 (-1) 1 (Counters 0 0 ∅) (Counters 1 1 {[3]}) LoopDone empty_world
           (World [ListPage Pulls 1; PullDetail 7; PullDetail 8;
                   DiffOf (diff_url_of 8); PullDetail 9; DiffOf (diff_url_of 9);
                   IssueDetail 3]
                  [DiffFile 9 (str "diff --git a/README b/README");
                   PullFile 9 (PullObject 9 (diff_url_of 9) (Some [3]));
                   IssueFile 3 3])).
  vm_compute. reflexivity.
Defined.

Lemma issues_pass_stops_at_the_cap_witness :
  exists files,
    written (snd (issues_loop (crawler_with_cap 2) network_with_issues
                    never_interrupted 1000 ∅ (-1) 1 0 empty_world))
    = [] ++ files
    /\ 0 + Z.of_nat (length files) <= 2.
Proof.
  apply (issues_pass_stops_at_the_cap (crawler_with_cap 2) network_with_issues
           never_interrupted 1000 ∅ (-1) 1 0 empty_world).
  - reflexivity.
  - discriminate.
Defined.

(** With a cap of two issues, the issues pass over a page of three saves
    the first two and asks for no more. *)
Example issues_pass_with_cap_of_two :
  issues_loop (crawler_with_cap 2) network_with_issues never_interrupted 1000 ∅
              (-1) 1 0 empty_world
  = (Returns (LoopDone, 2),
     World [ListPage Issues 1; IssueDetail 7; IssueDetail 8]
           [IssueFile 7 7; IssueFile 8 8]).
Proof. vm_compute. reflexivity. Qed.

(** ** What the pattern of linked issues captures *)

Lemma plus_more_from_k (class : ascii -> bool) (prev : ascii) (s : text)
    (cap : option text) (k : continuation) (m : text * text) :
  plus_more class prev s cap k = Some m ->
  exists taken rest p, s = taken ++ rest
    /\ Forall (fun c => class c = true) taken /\ k p rest cap = Some m.
Proof.
  revert prev. induction s as [|x s IH]; intros prev H; cbn [plus_more] in H.
  { exists [], [], (Some prev). auto. }
  destruct (class x) eqn:Hx.
  - destruct (plus_more class x s cap k) as [m'|] eqn:E.
    + injection H as ->. destruct (IH x E) as (taken & rest & p & -> & Ht & Hk).
      exists (x :: taken), rest, p. repeat split; auto.
    + exists [], (x :: s), (Some prev). auto.
  - exists [], (x :: s), (Some prev). auto.
Qed.

Lemma lazy_star_from_k (class : ascii -> bool) (prev : option ascii) (s : text)
    (cap : option text) (k : continuation) (m : text * text) :
  lazy_star class prev s cap k = Some m -> exists p rest, k p rest cap = Some m.
Proof.
  revert prev. induction s as [|x s IH]; intros prev H; cbn [lazy_star] in H.
  - destruct (k prev [] cap) eqn:E; [|discriminate]. injection H as ->. eauto.
  - destruct (k prev (x :: s) cap) eqn:E; [injection H as ->; eauto|].
    destruct (class x); [|discriminate]. exact (IH _ H).
Qed.

(** A match of a pattern without a group is a match of what follows it,
    with the capture as it was. *)
Lemma rmatch_group_free (ic : bool) (r : regex) (prev : option ascii) (s : text)
    (cap : option text) (k : continuation) (m : text * text) :
  group_free r -> rmatch ic r prev s cap k = Some m ->
  exists p rest, k p rest cap = Some m.
Proof.
  revert prev s k. induction r as [| c | | class | class | | | | r1 IH1 r2 IH2
                                   | r1 IH1 r2 IH2 | r1 IH1];
    intros prev s k Hfree H; cbn [rmatch] in H.
  - eauto.
  - destruct s as [|x s]; [discriminate|].
    destruct (char_matches ic x c); [eauto|discriminate].
  - destruct s as [|x s]; [discriminate|].
    destruct (is_newline x); [discriminate|eauto].
  - destruct s as [|x s]; [discriminate|].
    destruct (class x); [|discriminate].
    destruct (plus_more_from_k _ _ _ _ _ _ H) as (? & rest & p & _ & _ & Hk). eauto.
  - exact (lazy_star_from_k _ _ _ _ _ _ H).
  - destruct (xorb _ _); [eauto|discriminate].
  - destruct prev; [discriminate|eauto].
  - destruct (at_end s); [eauto|discriminate].
  - destruct Hfree as [H1 H2].
    destruct (IH1 _ _ _ H1 H) as (p & rest & Hk). exact (IH2 _ _ _ H2 Hk).
  - destruct Hfree as [H1 H2].
    destruct (rmatch ic r1 prev s cap k) eqn:E.
    + injection H as ->. exact (IH1 _ _ _ H1 E).
    + exact (IH2 _ _ _ H2 H).
  - destruct Hfree.
Qed.

Lemma rmatch_digits_group (ic : bool) (prev : option ascii) (s : text)
    (cap : option text) (k : continuation) (m : text * text) :
  rmatch ic (Group (Plus is_digit)) prev s cap k = Some m ->
  exists n p rest, is_digits n /\ k p rest (Some n) = Some m.
Proof.
  cbn [rmatch]. intros H. destruct s as [|x s]; [discriminate|].
  destruct (is_digit x) eqn:Hx; [|discriminate].
  destruct (plus_more_from_k _ _ _ _ _ _ H) as (taken & rest & p & -> & Ht & Hk).
  exists (x :: taken), p, rest. split.
  - split; [discriminate|]. constructor; assumption.
  - replace (length (x :: taken ++ rest) - length rest)%nat
      with (length (x :: taken)) in Hk
      by (cbn [length]; rewrite length_app; lia).
    change (x :: taken ++ rest) with ((x :: taken) ++ rest) in Hk.
    rewrite take_app_length in Hk. exact Hk.
Qed.

Lemma lit_group_free (s : text) : group_free (lit s).
Proof. induction s as [|c s IH]; [exact I|]. split; [exact I|exact IH]. Qed.

Lemma compile_name_shape (P : regex -> Prop) :
  P Nothing -> (forall c r, P r -> P (Seq (Lit c) r)) ->
  (forall r, P r -> P (Seq AnyChar r)) ->
  (forall r, P r -> P (Seq StartOfText r)) ->
  (forall r, P r -> P (Seq EndOfText r)) ->
  forall source, P (compile_name source).
Proof.
  intros Hnil Hlit Hany Hstart Hend source.
  assert (H : forall n source, (length source <= n)%nat -> P (compile_name source)).
  { clear source. induction n as [|n IH]; intros [|c rest] Hlen;
      cbn [length] in Hlen; try exact Hnil; [lia|].
    cbn [compile_name]. destruct (same_char c "\").
    - destruct rest as [|e rest']; [exact Hnil|].
      apply Hlit, IH. cbn [length] in Hlen. lia.
    - destruct (same_char c "."); [apply Hany; apply IH; lia|].
      destruct (same_char c "^"); [apply Hstart; apply IH; lia|].
      destruct (same_char c "$"); [apply Hend|apply Hlit]; apply IH; lia. }
  exact (H (length source) source (le_n _)).
Qed.

Lemma compile_name_group_free (source : text) : group_free (compile_name source).
Proof.
  apply compile_name_shape; cbn; auto.
Qed.

Lemma linked_issues_pattern_captures_digits (owner repo : text)
    (prev : option ascii) (s : text) (n rest : text) :
  rmatch true (pattern (_make_linked_issues_regex owner repo)) prev s None matched
  = Some (n, rest) ->
  is_digits n.
Proof.
  cbn [_make_linked_issues_regex pattern]. unfold _linked_issues_pattern.
  intros H. cbn [rmatch] in H.
  destruct (xorb (is_word_at prev) (is_word_at (head s))); [|discriminate].
  apply rmatch_group_free in H as (p1 & s1 & H).
  2:{ unfold closing_keywords. repeat split; apply lit_group_free. }
  destruct s1 as [|x s1]; [discriminate|].
  destruct (is_space x); [|discriminate].
  apply plus_more_from_k in H as (_ & s2 & p2 & _ & _ & H).
  assert (Hd : exists p3 s3,
            rmatch true (Seq (Group (Plus is_digit)) WordBoundary) p3 s3 None matched
            = Some (n, rest)).
  { revert H. generalize (compile_name (escape_dots owner))
                         (compile_name_group_free (escape_dots owner))
                         (compile_name (escape_dots repo))
                         (compile_name_group_free (escape_dots repo)).
    intros o Ho r Hr H.
    change (rmatch true
              (Alt (Seq (lit (str "https://github.com/"))
                        (Seq o (Seq (Lit "/") (Seq r (lit (str "/issues/"))))))
                   (Alt (Seq o (Seq (Lit "/") (Seq r (Lit "#")))) (Lit "#")))
              p2 s2 None
              (fun p s' c =>
                 rmatch true (Seq (Group (Plus is_digit)) WordBoundary) p s' c matched)
            = Some (n, rest)) in H.
    apply rmatch_group_free in H; [exact H|].
    cbn. repeat split; auto; apply lit_group_free. }
  destruct Hd as (p3 & s3 & Hd). cbn [rmatch] in Hd.
  change (rmatch true (Group (Plus is_digit)) p3 s3 None
            (fun p s' c =>
               if xorb (is_word_at p) (is_word_at (head s')) then matched p s' c
               else None) = Some (n, rest)) in Hd.
  apply rmatch_digits_group in Hd as (n' & p & rest' & Hn' & Hk).
  destruct (xorb (is_word_at p) (is_word_at (head rest'))); [|discriminate].
  injection Hk as <- _. exact Hn'.
Qed.

Lemma findall_from_Forall (P : text -> Prop) (re : compiled) :
  (forall prev s n rest,
     rmatch (ignorecase re) (pattern re) prev s None matched = Some (n, rest) -> P n) ->
  forall s prev skip, Forall P (findall_from re prev s skip).
Proof.
  intros HP s. induction s as [|x s IH]; intros prev skip; cbn [findall_from].
  - destruct skip; [|constructor].
    destruct (rmatch _ _ prev [] None matched) as [[n rest]|] eqn:E; [|constructor].
    repeat constructor. exact (HP _ _ _ _ E).
  - destruct skip; [|apply IH].
    destruct (rmatch _ _ prev (x :: s) None matched) as [[n rest]|] eqn:E; [|apply IH].
    constructor; [exact (HP _ _ _ _ E)|apply IH].
Qed.

Lemma int_of_digits_from (n : text) (acc : Z) :
  0 <= acc -> Forall (fun c => is_digit c = true) n ->
  0 <= fold_left (fun acc c => 10 * acc + (Z.of_N (code c) - 48)) n acc.
Proof.
  intros Hacc Hn. revert acc Hacc. induction Hn as [|c n Hc _ IH]; intros acc Hacc;
    cbn [fold_left]; [exact Hacc|].
  apply IH. unfold is_digit in Hc. apply andb_true_iff in Hc as [H1 H2].
  apply N.leb_le in H1, H2. lia.
Qed.

(** X15.  For an owner and a repository named with the characters
    GitHub allows (letters, digits, [-], [_] and [.]) and whatever the
    body, every text the pattern of linked issues captures is a non-empty
    run of decimal digits: [int] never raises on it, and the numbers
    extracted are never negative. *)
Theorem linked_issue_captures_are_digit_runs (owner repo : text) (body : text)
    (pull_body : option text) :
  Forall (fun c => name_char c = true) owner ->
  Forall (fun c => name_char c = true) repo ->
  Forall is_digits (findall (_make_linked_issues_regex owner repo) body)
  /\ Forall (Z.le 0)
       (_extract_linked_issue_numbers pull_body (_make_linked_issues_regex owner repo)).
Proof.
  intros _ _.
  assert (H : forall body,
            Forall is_digits (findall (_make_linked_issues_regex owner repo) body)).
  { intros body'. apply findall_from_Forall. intros prev s n rest.
    apply linked_issues_pattern_captures_digits. }
  split; [apply H|].
  destruct pull_body as [body'|]; [|constructor].
  cbn [_extract_linked_issue_numbers]. apply Forall_fmap.
  eapply Forall_impl; [apply H|]. intros n [_ Hn].
  apply int_of_digits_from; [lia|exact Hn].
Qed.

Lemma linked_issue_captures_are_digit_runs_witness :
  let re := _make_linked_issues_regex (str "octo.cat") (str "Hello-World") in
  let body := str "Fixes #12 and closes octo.cat/Hello-World#34" in
  Forall is_digits (findall re body)
  /\ Forall (Z.le 0) (_extract_linked_issue_numbers (Some body) re).
Proof.
  intros re body.
  apply (linked_issue_captures_are_digit_runs (str "octo.cat") (str "Hello-World")
           body (Some body)); repeat constructor.
Defined.

(** ** Matching without regard to case *)

Lemma is_word_at_fold (p : option ascii) :
  is_word_at (option_map fold_case p) = is_word_at p.
Proof. destruct p; [apply is_word_fold|reflexivity]. Qed.

Lemma head_fold (s : text) : head (map fold_case s) = option_map fold_case (head s).
Proof. destruct s; reflexivity. Qed.

Lemma at_end_fold (s : text) : at_end (map fold_case s) = at_end s.
Proof. destruct s as [|c [|d s]]; try reflexivity. apply is_newline_fold. Qed.

Lemma plus_more_fold (class : ascii -> bool) (prev : ascii) (s : text)
    (cap : option text) (k k' : continuation) :
  (forall c, class (fold_case c) = class c) -> fold_related k k' ->
  plus_more class (fold_case prev) (map fold_case s)
            (option_map (map fold_case) cap) k'
  = fold_match (plus_more class prev s cap k).
Proof.
  intros Hclass Hk. revert prev. induction s as [|x s IH]; intros prev;
    cbn [plus_more map].
  - exact (Hk (Some prev) [] cap).
  - rewrite Hclass. destruct (class x); [|exact (Hk (Some prev) (x :: s) cap)].
    rewrite IH. destruct (plus_more class x s cap k) as [[n rest]|]; [reflexivity|].
    exact (Hk (Some prev) (x :: s) cap).
Qed.

Lemma lazy_star_fold (class : ascii -> bool) (prev : option ascii) (s : text)
    (cap : option text) (k k' : continuation) :
  (forall c, class (fold_case c) = class c) -> fold_related k k' ->
  lazy_star class (option_map fold_case prev) (map fold_case s)
            (option_map (map fold_case) cap) k'
  = fold_match (lazy_star class prev s cap k).
Proof.
  intros Hclass Hk. revert prev. induction s as [|x s IH]; intros prev;
    cbn [lazy_star map].
  - pose proof (Hk prev [] cap) as E. cbn [map] in E. rewrite E.
    destruct (k prev [] cap) as [[n rest]|]; reflexivity.
  - pose proof (Hk prev (x :: s) cap) as E. cbn [map] in E. rewrite E.
    destruct (k prev (x :: s) cap) as [[n rest]|]; [reflexivity|]. cbn [fold_match].
    rewrite Hclass. destruct (class x); [|reflexivity]. exact (IH (Some x)).
Qed.

(** Under [re.IGNORECASE] a pattern whose classes do not tell the case
    matches a text with its letters folded exactly as it matches the text
    itself. *)
Lemma rmatch_fold (r : regex) (prev : option ascii) (s : text) (cap : option text)
    (k k' : continuation) :
  case_blind r -> fold_related k k' ->
  rmatch true r (option_map fold_case prev) (map fold_case s)
         (option_map (map fold_case) cap) k'
  = fold_match (rmatch true r prev s cap k).
Proof.
  revert prev s cap k k'.
  induction r as [| c | | class | class | | | | r1 IH1 r2 IH2 | r1 IH1 r2 IH2 | r1 IH1];
    intros prev s cap k k' Hblind Hk; cbn [rmatch].
  - apply Hk.
  - destruct s as [|x s]; [reflexivity|]. cbn [map].
    unfold char_matches. rewrite fold_case_idem.
    destruct (same_char (fold_case x) (fold_case c)); [|reflexivity].
    exact (Hk (Some x) s cap).
  - destruct s as [|x s]; [reflexivity|]. cbn [map]. rewrite is_newline_fold.
    destruct (is_newline x); [reflexivity|]. exact (Hk (Some x) s cap).
  - destruct s as [|x s]; [reflexivity|]. cbn [map]. rewrite (Hblind x).
    destruct (class x); [|reflexivity]. apply plus_more_fold; assumption.
  - apply lazy_star_fold; assumption.
  - rewrite head_fold, !is_word_at_fold.
    destruct (xorb _ _); [apply Hk|reflexivity].
  - destruct prev; [reflexivity|exact (Hk None s cap)].
  - rewrite at_end_fold. destruct (at_end s); [apply Hk|reflexivity].
  - destruct Hblind as [H1 H2]. apply IH1; [exact H1|].
    intros p s' c. apply IH2; assumption.
  - destruct Hblind as [H1 H2]. rewrite (IH1 prev s cap k k' H1 Hk).
    destruct (rmatch true r1 prev s cap k) as [[n rest]|]; [reflexivity|].
    apply IH2; assumption.
  - apply (IH1 prev s cap); [exact Hblind|].
    intros p s' c. rewrite !length_map.
    rewrite <- (Hk p s' (Some (take (length s - length s') s))).
    cbn [option_map]. rewrite firstn_map. reflexivity.
Qed.

Lemma matched_fold : fold_related matched matched.
Proof. intros p s [c|]; reflexivity. Qed.

Lemma findall_from_fold (r : regex) (s : text) (prev : option ascii) (skip : nat) :
  case_blind r ->
  findall_from (Compiled true r) (option_map fold_case prev) (map fold_case s) skip
  = map (map fold_case) (findall_from (Compiled true r) prev s skip).
Proof.
  intros Hblind. revert prev skip. induction s as [|x s IH]; intros prev skip;
    cbn [findall_from map ignorecase pattern].
  - destruct skip; [|reflexivity].
    pose proof (rmatch_fold r prev [] None matched matched Hblind matched_fold) as E.
    cbn [map option_map] in E. unfold text in *. rewrite E.
    match goal with |- context [fold_match ?x] => destruct x as [[n rest]|] end;
      reflexivity.
  - destruct skip; [|exact (IH (Some x) skip)].
    pose proof (rmatch_fold r prev (x :: s) None matched matched Hblind matched_fold)
      as E.
    cbn [map option_map] in E. unfold text in *. rewrite E.
    match goal with |- context [fold_match ?x] => destruct x as [[n rest]|] end;
      cbn [fold_match map].
    + cbn [length]. rewrite !length_map. f_equal. exact (IH (Some x) _).
    + exact (IH (Some x) 0%nat).
Qed.

Lemma lit_case_blind (s : text) : case_blind (lit s).
Proof. induction s as [|c s IH]; [exact I|]. split; [exact I|exact IH]. Qed.

Lemma compile_name_case_blind (source : text) : case_blind (compile_name source).
Proof. apply compile_name_shape; cbn; auto. Qed.

Lemma linked_issues_pattern_case_blind (owner repo : text) :
  case_blind (pattern (_make_linked_issues_regex owner repo)).
Proof.
  cbn. repeat split; auto using lit_case_blind, compile_name_case_blind,
                                is_space_fold, is_digit_fold.
Qed.

Lemma extracted_numbers_of_folded (owner repo : text) (body : text) :
  _extract_linked_issue_numbers (Some (map fold_case body))
    (_make_linked_issues_regex owner repo)
  = _extract_linked_issue_numbers (Some body) (_make_linked_issues_regex owner repo).
Proof.
  cbn [_extract_linked_issue_numbers]. unfold findall.
  pose proof (findall_from_fold _ body None 0 (linked_issues_pattern_case_blind owner repo))
    as Hfold.
  cbn [option_map] in Hfold.
  change (Compiled true (pattern (_make_linked_issues_regex owner repo)))
    with (_make_linked_issues_regex owner repo) in Hfold.
  rewrite Hfold, map_map.
  apply map_ext_Forall.
  eapply Forall_impl.
  { apply findall_from_Forall. intros prev s n rest.
    apply (linked_issues_pattern_captures_digits owner repo). }
  intros n [_ Hn]. cbn beta. f_equal.
  clear -Hn. induction Hn as [|c n Hc _ IH]; [reflexivity|].
  cbn [map]. rewrite IH, (fold_case_digit c Hc). reflexivity.
Qed.

(** X16.  Two bodies that differ only in the case of their letters link
    the same issues, in the same order: the keywords, the names of the
    owner and of the repository and the host name of the URL are all
    matched without regard to case. *)
Theorem linked_issues_do_not_depend_on_case (owner repo : text) (body1 body2 : text) :
  map fold_case body1 = map fold_case body2 ->
  _extract_linked_issue_numbers (Some body1) (_make_linked_issues_regex owner repo)
  = _extract_linked_issue_numbers (Some body2) (_make_linked_issues_regex owner repo).
Proof.
  intros H.
  rewrite <- (extracted_numbers_of_folded owner repo body1),
          <- (extracted_numbers_of_folded owner repo body2), H.
  reflexivity.
Qed.

Lemma linked_issues_do_not_depend_on_case_witness :
  let re := _make_linked_issues_regex (str "octocat") (str "Hello-World") in
  _extract_linked_issue_numbers
    (Some (str "FIXES #12, Closes OctoCat/HELLO-world#7")) re
  = _extract_linked_issue_numbers
      (Some (str "fixes #12, closes octocat/hello-world#7")) re.
Proof.
  intros re.
  apply (linked_issues_do_not_depend_on_case (str "octocat") (str "Hello-World")
           (str "FIXES #12, Closes OctoCat/HELLO-world#7")
           (str "fixes #12, closes octocat/hello-world#7")).
  reflexivity.
Defined.

(** A body in upper case links the issues 12 and 7 as its lower-case
    form does. *)
Example upper_case_references_are_linked :
  _extract_linked_issue_numbers
    (Some (str "FIXES #12, Closes OctoCat/HELLO-world#7"))
    (_make_linked_issues_regex (str "octocat") (str "Hello-World"))
  = [12; 7].
Proof. vm_compute. reflexivity. Qed.

(** ** The attribution pass on diffs of any shape *)

Lemma nth_alter (f : tally -> tally) (k i : nat) (data : list tally) :
  (k < length data)%nat ->
  nth i (alter f k data) (Tally 0 0 0)
  = if bool_decide (k = i) then f (nth i data (Tally 0 0 0))
    else nth i data (Tally 0 0 0).
Proof.
  intros Hk. rewrite !nth_lookup. case_bool_decide as E.
  - subst i. rewrite list_lookup_alter.
    destruct (lookup_lt_is_Some_2 data k Hk) as [t Ht]. rewrite Ht.
    rewrite decide_True by reflexivity. reflexivity.
  - rewrite list_lookup_alter_ne by exact E. reflexivity.
Qed.

(** Crediting one unit of [b] to a section in range adds one to the sum
    of the column of [b] and nothing to the other columns. *)
Lemma sum_column_alter (a b : attribute) (k : nat) (data : list tally) :
  (k < length _sections)%nat -> (k < length data)%nat ->
  sum (section_column a (alter (increment b) k data))
  = tally_get a (increment b (Tally 0 0 0)) + sum (section_column a data).
Proof.
  intros Hk Hdata. unfold section_column.
  rewrite (list_fmap_ext _
             (fun i => if bool_decide (k = i)
                       then tally_get a (increment b (Tally 0 0 0))
                            + tally_get a (nth i data (Tally 0 0 0))
                       else tally_get a (nth i data (Tally 0 0 0)))
             (seq 0 (length _sections))).
  - rewrite (sum_one_credited (fun i => tally_get a (nth i data (Tally 0 0 0)))).
    rewrite bool_decide_eq_true_2 by lia. reflexivity.
  - intros _ i _. rewrite nth_alter by exact Hdata.
    case_bool_decide; [|reflexivity].
    destruct a, b, (nth i data (Tally 0 0 0)); cbn; lia.
Qed.

Lemma header_is_not_counted (sign : ascii) (line filename : text) :
  re_match _diff_file_pattern line = Some filename ->
  sign = "+"%char \/ sign = "-"%char ->
  counts_as sign line = false.
Proof.
  intros Hm Hsign.
  destruct (startswith line (str "diff --git a/")) eqn:E.
  - unfold counts_as. destruct line as [|x line]; [discriminate|].
    cbn [str list_ascii_of_string startswith] in E.
    apply andb_true_iff in E as [E _].
    cbn [startswith]. 
    destruct Hsign as [->| ->];
      destruct x as [[] [] [] [] [] [] [] []]; cbn in E |- *;
      (reflexivity || discriminate).
  - rewrite (hunk_line_is_no_header line E) in Hm. discriminate.
Qed.

(** What one line adds to the sums of the three columns. *)
Lemma attribute_line_sums (st : attribution) (line : text) :
  length (section_data st) = length _sections ->
  (current_section st < length _sections)%nat ->
  let st' := attribute_line st line in
  length (section_data st') = length _sections
  /\ (current_section st' < length _sections)%nat
  /\ current_filename st'
     = default (current_filename st) (re_match _diff_file_pattern line)
  /\ sum (section_column Changed_files (section_data st'))
     = sum (section_column Changed_files (section_data st))
       + file_switches (current_filename st) (header_names [line])
  /\ sum (section_column Additions (section_data st'))
     = sum (section_column Additions (section_data st))
       + (if counts_as "+" line then 1 else 0)
  /\ sum (section_column Deletions (section_data st'))
     = sum (section_column Deletions (section_data st))
       + (if counts_as "-" line then 1 else 0).
Proof.
  intros Hlen Hcur st'. subst st'. unfold attribute_line, header_names.
  cbn [omap list_omap].
  destruct (re_match _diff_file_pattern line) as [filename|] eqn:Hm;
    cbn [default file_switches].
  - rewrite (header_is_not_counted "+" line filename Hm) by auto.
    rewrite (header_is_not_counted "-" line filename Hm) by auto.
    case_bool_decide as Hsame.
    + subst filename. repeat split; auto; lia.
    + cbn [section_data current_section current_filename].
      pose proof (section_of_in_range filename) as Hin.
      rewrite length_alter, !sum_column_alter by (rewrite ?Hlen; exact Hin).
      cbn. repeat split; auto; lia.
  - change (startswith line (str "+") && negb (is_anchor line))
      with (counts_as "+" line).
    change (startswith line (str "-") && negb (is_anchor line))
      with (counts_as "-" line).
    destruct (counts_as "+" line) eqn:Hplus.
    + rewrite (added_is_not_removed line Hplus).
      cbn [section_data current_section current_filename].
      rewrite length_alter, !sum_column_alter by (rewrite ?Hlen; exact Hcur).
      cbn. repeat split; auto; lia.
    + destruct (counts_as "-" line) eqn:Hminus.
      * cbn [section_data current_section current_filename].
        rewrite length_alter, !sum_column_alter by (rewrite ?Hlen; exact Hcur).
        cbn. repeat split; auto; lia.
      * repeat split; auto; lia.
Qed.

Lemma file_switches_app (prev : text) (names names' : list text) :
  file_switches prev (names ++ names')
  = file_switches prev names + file_switches (List.last names prev) names'.
Proof.
  revert prev. induction names as [|name names IH]; intros prev; [reflexivity|].
  cbn [app file_switches]. rewrite IH, last_default_cons. lia.
Qed.

Lemma attribute_lines_sums (diff : list text) (st : attribution) :
  length (section_data st) = length _sections ->
  (current_section st < length _sections)%nat ->
  let st' := fold_left attribute_line diff st in
  length (section_data st') = length _sections
  /\ sum (section_column Changed_files (section_data st'))
     = sum (section_column Changed_files (section_data st))
       + file_switches (current_filename st) (header_names diff)
  /\ sum (section_column Additions (section_data st'))
     = sum (section_column Additions (section_data st)) + count_lines "+" diff
  /\ sum (section_column Deletions (section_data st'))
     = sum (section_column Deletions (section_data st)) + count_lines "-" diff.
Proof.
  revert st. induction diff as [|line diff IH]; intros st Hlen Hcur; cbn [fold_left].
  { change (count_lines "+" []) with 0. change (count_lines "-" []) with 0.
    cbn [header_names omap list_omap file_switches]. repeat split; auto; lia. }
  destruct (attribute_line_sums st line Hlen Hcur) as (Hlen' & Hcur' & Hname & Hc & Ha & Hd).
  destruct (IH (attribute_line st line) Hlen' Hcur') as (Hlen2 & Hc2 & Ha2 & Hd2).
  split; [exact Hlen2|].
  rewrite Hc2, Ha2, Hd2, Hc, Ha, Hd, Hname, !count_lines_cons.
  unfold header_names in *. cbn [omap list_omap].
  destruct (re_match _diff_file_pattern line) as [filename|];
    cbn [default from_option id file_switches]; repeat split; lia.
Qed.

(** X17.  Whatever lines a diff is made of, the attribution pass leaves
    one tally per section, and over the sections the tallies add up to
    what the diff holds: every line that starts with [+] and is not a
    file anchor is counted once among the additions, every such line that
    starts with [-] once among the deletions, and [changed_files] counts
    the header lines whose file name differs from that of the header
    before them (from the empty name for the first). *)
Theorem section_changes_count_every_line (diff : list text) :
  let data := _get_section_changes diff in
  length data = length _sections
  /\ sum (section_column Changed_files data) = file_switches [] (header_names diff)
  /\ sum (section_column Additions data) = count_lines "+" diff
  /\ sum (section_column Deletions data) = count_lines "-" diff.
Proof.
  intros data. subst data. unfold _get_section_changes.
  destruct (attribute_lines_sums diff initial_attribution eq_refl)
    as (Hlen & Hc & Ha & Hd); [cbn; lia|].
  split; [exact Hlen|]. rewrite Hc, Ha, Hd. repeat split; reflexivity.
Qed.

(** A diff cut off in the middle of a file, with a line before any
    header: the three lines that count are found again in the sums, and
    the header of a file named like the one before it is not counted
    anew. *)
Example diff_of_any_shape_is_counted :
  let diff := [line "+stray"; line "diff --git a/cli/a.py b/cli/a.py";
               line "+++ b/cli/a.py"; line "+x";
               line "diff --git a/cli/a.py b/cli/a.py"; line "-y"] in
  _get_section_changes diff
  = [Tally 0 0 0; Tally 1 1 1; Tally 0 0 0; Tally 0 0 0; Tally 0 0 0;
     Tally 0 0 0; Tally 0 0 0; Tally 0 0 0; Tally 0 1 0]
  /\ file_switches [] (header_names diff) = 1
  /\ count_lines "+" diff = 2 /\ count_lines "-" diff = 1.
Proof. vm_compute. repeat split; reflexivity. Qed.

(** ** The rows of a pull *)

Section ExportRows.
Variable issue_files : Z -> option saved_issue.
Variable start_date_w end_date_w : Z.
Variable limit_rows : Z.

Lemma write_rows_past_the_limit (pull : saved_pull) (data : list tally)
    (ns : list Z) (acc : exported) :
  limit_rows <= total_num_rows acc -> limit_reached acc = false ->
  limit_reached
    (write_rows issue_files start_date_w end_date_w limit_rows pull data ns acc)
  = false.
Proof.
  revert acc. induction ns as [|n ns IH]; intros acc Hle Hacc; [exact Hacc|].
  cbn [write_rows]. destruct (issue_files n) as [issue|]; [|reflexivity].
  destruct ((issue_created_at issue <? start_date_w)
            || (end_date_w <? issue_created_at issue)); [apply IH; assumption|].
  cbn [prints rows total_num_rows].
  destruct (Z.eqb_spec (total_num_rows acc + 1) limit_rows); [lia|].
  apply IH; cbn [total_num_rows limit_reached]; [lia|reflexivity].
Qed.

(** X18.  A row limit at or below the number of rows already written,
    as a limit of zero or less always is, never ends the export: the
    comparison is made after a row is counted, and for equality only. *)
Theorem limit_not_above_total_is_ignored (pull_number : Z) (pull : saved_pull) (diff : list text)
    (total : Z) :
  limit_rows <= total ->
  limit_reached
    (export_pull issue_files start_date_w end_date_w limit_rows pull_number pull diff total)
  = false.
Proof.
  intros Hle. unfold export_pull.
  destruct ((saved_created_at pull <? start_date_w)
            || (end_date_w <? saved_created_at pull)); [reflexivity|].
  apply write_rows_past_the_limit; [exact Hle|reflexivity].
Qed.

Lemma write_rows_up_to_the_limit (pull : saved_pull) (data : list tally)
    (ns : list Z) (acc : exported) :
  total_num_rows acc < limit_rows -> limit_reached acc = false ->
  let r := write_rows issue_files start_date_w end_date_w limit_rows pull data ns acc in
  total_num_rows r <= limit_rows
  /\ total_num_rows r - total_num_rows acc
     = Z.of_nat (length (rows r)) - Z.of_nat (length (rows acc))
  /\ (limit_reached r = true <-> total_num_rows r = limit_rows).
Proof.
  revert acc. induction ns as [|n ns IH]; intros acc Hlt Hacc; cbn [write_rows].
  { rewrite Hacc. split; [lia|]. split; [lia|]. split; [discriminate|lia]. }
  destruct (issue_files n) as [issue|].
  2:{ cbn [total_num_rows rows limit_reached].
      split; [lia|]. split; [lia|]. split; [discriminate|lia]. }
  destruct ((issue_created_at issue <? start_date_w)
            || (end_date_w <? issue_created_at issue)); [apply IH; assumption|].
  cbn [prints rows total_num_rows].
  destruct (Z.eqb_spec (total_num_rows acc + 1) limit_rows) as [Heq|Hne].
  - cbn [total_num_rows rows limit_reached]. rewrite length_app. cbn [length].
    split; [lia|]. split; [lia|]. split; [intros _; exact Heq|reflexivity].
  - match goal with |- context [write_rows _ _ _ _ _ _ ns ?acc'] =>
      destruct (IH acc') as (H1 & H2 & H3) end;
      [cbn [total_num_rows]; lia|reflexivity|].
    cbn [total_num_rows rows] in H2. rewrite length_app in H2. cbn [length] in H2.
    split; [exact H1|]. split; [lia|exact H3].
Qed.

(** X19.  With a row limit above the number of rows already written, the
    export of a pull never takes the count of rows past the limit; the
    count grows by one for each row written; and the export reports the
    limit as reached exactly when the count equals it. *)
Theorem export_stops_at_the_limit (pull_number : Z) (pull : saved_pull) (diff : list text)
    (total : Z) :
  total < limit_rows ->
  let r := export_pull issue_files start_date_w end_date_w limit_rows pull_number pull diff total in
  total_num_rows r <= limit_rows
  /\ total_num_rows r = total + Z.of_nat (length (rows r))
  /\ (limit_reached r = true <-> total_num_rows r = limit_rows).
Proof.
  intros Hlt r. subst r. unfold export_pull.
  destruct ((saved_created_at pull <? start_date_w)
            || (end_date_w <? saved_created_at pull)).
  { cbn [total_num_rows rows limit_reached length].
    split; [lia|]. split; [lia|]. split; [discriminate|lia]. }
  match goal with |- context [write_rows _ _ _ _ ?p ?d ?ns ?acc] =>
    destruct (write_rows_up_to_the_limit p d ns acc) as (H1 & H2 & H3) end;
    [exact Hlt|reflexivity|].
  cbn [total_num_rows rows length] in H2. split; [exact H1|]. split; [lia|exact H3].
Qed.

Lemma write_rows_in_order (pull : saved_pull) (data : list tally) (ns : list Z)
    (acc : exported) :
  (forall n issue, issue_files n = Some issue -> issue_number_of issue = n) ->
  StronglySorted Z.le ((row_issue <$> rows acc) ++ ns) ->
  StronglySorted Z.le
    (row_issue
       <$> rows (write_rows issue_files start_date_w end_date_w limit_rows
                            pull data ns acc)).
Proof.
  intros Hfiles. revert acc. induction ns as [|n ns IH]; intros acc Hsorted;
    cbn [write_rows].
  { rewrite app_nil_r in Hsorted. exact Hsorted. }
  destruct (issue_files n) as [issue|] eqn:Hn.
  2:{ cbn [rows]. exact (StronglySorted_app_1_l _ _ _ Hsorted). }
  destruct ((issue_created_at issue <? start_date_w)
            || (end_date_w <? issue_created_at issue)).
  { apply IH. apply StronglySorted_app in Hsorted as (Hcross & H1 & H2).
    apply StronglySorted_app. split; [|split].
    - intros x1 x2 Hx1 Hx2. apply Hcross; [exact Hx1|right; exact Hx2].
    - exact H1.
    - apply StronglySorted_inv in H2 as [H2 _]. exact H2. }
  cbn [prints rows total_num_rows].
  assert (Hnew : StronglySorted Z.le
            ((row_issue <$> rows acc ++ [_dataset_row issue pull data]) ++ ns)).
  { rewrite fmap_app, <- app_assoc. cbn [fmap list_fmap app _dataset_row row_issue].
    rewrite (Hfiles n issue Hn). exact Hsorted. }
  destruct (total_num_rows acc + 1 =? limit_rows).
  - cbn [rows]. exact (StronglySorted_app_1_l _ _ _ Hnew).
  - apply IH. exact Hnew.
Qed.

Lemma write_rows_of_the_pull (pull : saved_pull) (data : list tally) (ns : list Z)
    (acc : exported) (P : Z -> Prop) :
  (forall n issue, issue_files n = Some issue -> issue_number_of issue = n) ->
  Forall P ns ->
  Forall (fun x => row_pull x = saved_number pull /\ P (row_issue x)) (rows acc) ->
  Forall (fun x => row_pull x = saved_number pull /\ P (row_issue x))
    (rows (write_rows issue_files start_date_w end_date_w limit_rows pull data ns acc)).
Proof.
  intros Hfiles Hns. revert acc. induction Hns as [|n ns Hn _ IH]; intros acc Hacc;
    cbn [write_rows]; [exact Hacc|].
  destruct (issue_files n) as [issue|] eqn:E; [|exact Hacc].
  destruct ((issue_created_at issue <? start_date_w)
            || (end_date_w <? issue_created_at issue)); [apply IH; exact Hacc|].
  cbn [prints rows total_num_rows].
  assert (Hnew : Forall (fun x => row_pull x = saved_number pull /\ P (row_issue x))
                        (rows acc ++ [_dataset_row issue pull data])).
  { apply Forall_app. split; [exact Hacc|]. repeat constructor.
    cbn [_dataset_row row_issue]. rewrite (Hfiles n issue E). exact Hn. }
  destruct (total_num_rows acc + 1 =? limit_rows); [exact Hnew|apply IH; exact Hnew].
Qed.

(** X20.  When the file of every issue carries the number it is named
    after, the rows written for a pull come in ascending order of issue
    number, however the pull lists the issues it links; each row carries
    the number of the pull and the number of an issue the pull links. *)
Theorem rows_of_a_pull_are_sorted_by_issue (pull_number : Z) (pull : saved_pull) (diff : list text)
    (total : Z) :
  (forall n issue, issue_files n = Some issue -> issue_number_of issue = n) ->
  let r := export_pull issue_files start_date_w end_date_w limit_rows pull_number pull diff total in
  StronglySorted Z.le (row_issue <$> rows r)
  /\ Forall (fun x => row_pull x = saved_number pull
                      /\ row_issue x ∈ saved_linked_issue_numbers pull) (rows r).
Proof.
  intros Hfiles r. subst r. unfold export_pull.
  destruct ((saved_created_at pull <? start_date_w)
            || (end_date_w <? saved_created_at pull)).
  { split; constructor. }
  split.
  - apply write_rows_in_order; [exact Hfiles|]. cbn [rows fmap list_fmap app].
    apply StronglySorted_merge_sort.
    + intros x y z. apply Z.le_trans.
    + intros x y. apply Z.le_ge_cases.
  - apply (write_rows_of_the_pull pull _ _ _
             (fun n => n ∈ saved_linked_issue_numbers pull));
      [exact Hfiles| |constructor].
    apply Forall_forall. intros n Hn.
    rewrite <- (merge_sort_Permutation Z.le (saved_linked_issue_numbers pull)).
    exact Hn.
Qed.

End ExportRows.

Lemma limit_not_above_total_is_ignored_witness :
  limit_reached (export_pull (issue_saved_at 90) 0 1000 0 42 pull_linking_three [] 0)
  = false.
Proof.
  apply (limit_not_above_total_is_ignored (issue_saved_at 90) 0 1000 0
           42 pull_linking_three [] 0).
  reflexivity.
Defined.

Lemma export_stops_at_the_limit_witness :
  let r := export_pull (issue_saved_at 90) 0 1000 2 42 pull_linking_three [] 0 in
  total_num_rows r <= 2
  /\ total_num_rows r = 0 + Z.of_nat (length (rows r))
  /\ (limit_reached r = true <-> total_num_rows r = 2).
Proof.
  apply (export_stops_at_the_limit (issue_saved_at 90) 0 1000 2
           42 pull_linking_three [] 0).
  reflexivity.
Defined.

Lemma rows_of_a_pull_are_sorted_by_issue_witness :
  let r := export_pull (issue_saved_at 90) 0 1000 0 42 pull_linking_three [] 0 in
  StronglySorted Z.le (row_issue <$> rows r)
  /\ Forall (fun x => row_pull x = 42 /\ row_issue x ∈ [9; 7; 8]) (rows r).
Proof.
  apply (rows_of_a_pull_are_sorted_by_issue (issue_saved_at 90) 0 1000 0
           42 pull_linking_three [] 0).
  intros n issue [= <-]. reflexivity.
Defined.

(** The pull that links the issues 9, 7 and 8: without a limit its rows
    are those of 7, 8 and 9; with a limit of two rows they are those of 7
    and 8, and the limit is reported as reached. *)
Example rows_of_the_pull_linking_three :
  row_issue <$> rows (export_pull (issue_saved_at 90) 0 1000 0 42 pull_linking_three [] 0)
  = [7; 8; 9]
  /\ (let r := export_pull (issue_saved_at 90) 0 1000 2 42 pull_linking_three [] 0 in
      row_issue <$> rows r = [7; 8] /\ total_num_rows r = 2 /\ limit_reached r = true).
Proof. vm_compute. repeat split; reflexivity. Qed.

(** ** Full repository names *)

Lemma find_skips (s rest : text) (c : ascii) :
  Forall (fun x => same_char x c = false) s ->
  find (s ++ c :: rest) c = Z.of_nat (length s).
Proof.
  induction 1 as [|x s Hx _ IH]; cbn [app find length].
  - rewrite same_char_refl. reflexivity.
  - rewrite Hx, IH. destruct (Z.ltb_spec (Z.of_nat (length s)) 0); lia.
Qed.

Lemma find_absent (s : text) (c : ascii) :
  Forall (fun x => same_char x c = false) s -> find s c = -1.
Proof.
  induction 1 as [|x s Hx _ IH]; cbn [find]; [reflexivity|].
  rewrite Hx, IH. reflexivity.
Qed.

(** X21.  A full name is split at its first slash: when the owner holds
    no slash, [owner/repo] gives back the owner and the repository, any
    further slash staying in the repository. *)
Theorem full_name_is_split_at_first_slash (owner repo : text) :
  Forall (fun x => same_char x "/" = false) owner ->
  owner_and_repo (owner ++ "/"%char :: repo) = (owner, repo).
Proof.
  intros Howner. unfold owner_and_repo, slice_until, slice_from, slice_bound.
  rewrite (find_skips owner repo "/" Howner).
  rewrite length_app. cbn [length].
  destruct (Z.ltb_spec (Z.of_nat (length owner)) 0); [lia|].
  destruct (Z.ltb_spec (Z.of_nat (length owner) + 1) 0); [lia|].
  rewrite Z.min_l, Z.min_l by lia.
  rewrite Nat2Z.id.
  replace (Z.to_nat (Z.of_nat (length owner) + 1)) with (length (owner ++ ["/"%char]))
    by (rewrite length_app; cbn [length]; lia).
  rewrite take_app_length.
  change (owner ++ "/"%char :: repo) with (owner ++ ["/"%char] ++ repo).
  rewrite app_assoc, drop_app_length. reflexivity.
Qed.

Lemma full_name_is_split_at_first_slash_witness :
  owner_and_repo (str "octocat" ++ "/"%char :: str "Hello-World/wiki")
  = (str "octocat", str "Hello-World/wiki").
Proof.
  apply (full_name_is_split_at_first_slash (str "octocat") (str "Hello-World/wiki")).
  repeat constructor.
Defined.

(** X22.  A name without a slash is not refused: [find] answers -1, the
    owner is the name without its last character and the repository the
    whole name. *)
Theorem name_without_slash_loses_a_character (r : text) :
  Forall (fun x => same_char x "/" = false) r ->
  owner_and_repo r = (removelast r, r).
Proof.
  intros Hr. unfold owner_and_repo, slice_until, slice_from, slice_bound.
  rewrite (find_absent r "/" Hr). cbn [Z.ltb Z.compare Z.add Z.opp Z.pos_sub].
  change (-1 + 1) with 0. cbn [Z.ltb Z.compare].
  rewrite Z.min_l by lia. cbn [Z.to_nat drop]. f_equal.
  clear Hr. induction r as [|x r IH] using rev_ind; [reflexivity|].
  rewrite removelast_last, length_app. cbn [length].
  replace (Z.to_nat (Z.max 0 (Z.of_nat (length r + 1) + -1))) with (length r) by lia.
  apply take_app_length.
Qed.

Lemma name_without_slash_loses_a_character_witness :
  owner_and_repo (str "octocat") = (str "octoca", str "octocat").
Proof.
  apply (name_without_slash_loses_a_character (str "octocat")).
  repeat constructor.
Defined.

(** ** The loop of [main] *)

(** X23.  Whatever the crawls do, the loop of [main] over the
    repositories raises nothing; and when every crawl ends (none is cut
    off by the budget of the model), every repository given is crawled, in
    turn and each from the world the crawl before it left, whether that one
    returned or raised: [main] returns, in order, the exception and the
    names of every crawl that raised, and leaves the world the last crawl
    left. *)
Theorem main_catches_every_exception (self : Crawler)
    (nets : text -> text -> network) (sigint : world -> bool) (depth fuel : nat)
    (now : world -> Z)
    (start_page_pulls start_page_issues end_page_pulls end_page_issues : Z)
    (repos : list text) (w : world) :
  let runs := crawls_in_turn self nets sigint depth fuel now start_page_pulls
                start_page_issues end_page_pulls end_page_issues repos w in
  let r := main self nets sigint depth fuel now start_page_pulls start_page_issues
                end_page_pulls end_page_issues repos w in
  (forall e, fst r <> Raises e)
  /\ length runs = length repos
  /\ (Forall (fun run => run_outcome run <> Unfinished) runs ->
      r = (Returns (omap error_of_run runs),
           default w (run_world <$> last runs))).
Proof.
  cbn zeta. revert w. induction repos as [|r repos IH]; intros w.
  { cbn. split; [discriminate|]. split; reflexivity. }
  cbn [main crawls_in_turn length omap list_omap].
  destruct (IH (snd (crawl self (nets (fst (owner_and_repo r)) (snd (owner_and_repo r)))
                       sigint depth fuel (now w) (fst (owner_and_repo r))
                       (snd (owner_and_repo r)) start_page_pulls start_page_issues
                       end_page_pulls end_page_issues w)))
    as (Hraise & Hlen & Hall).
  destruct (crawl self _ sigint depth fuel (now w) _ _ _ _ _ _ w) as [[[]|e'|] w'];
    cbn [fst snd] in *.
  - split; [exact Hraise|]. split; [f_equal; exact Hlen|].
    intros Hruns. apply Forall_cons in Hruns as [_ Hruns].
    rewrite (Hall Hruns). unfold error_of_run at 1. cbn [run_outcome].
    rewrite last_cons. f_equal.
    destruct (last (crawls_in_turn _ _ _ _ _ _ _ _ _ _ repos w')); reflexivity.
  - split; [|split; [f_equal; exact Hlen|]].
    + intros e. unfold bind.
      destruct (main self nets sigint depth fuel now start_page_pulls start_page_issues
                     end_page_pulls end_page_issues repos w') as [[errors|e2|] w2];
        cbn [fst] in *; [discriminate|exact (Hraise e)|discriminate].
    + intros Hruns. apply Forall_cons in Hruns as [_ Hruns].
      unfold bind. rewrite (Hall Hruns). unfold error_of_run at 1.
      cbn [run_outcome run_owner run_repo ret]. rewrite last_cons. f_equal.
      destruct (last (crawls_in_turn _ _ _ _ _ _ _ _ _ _ repos w')); reflexivity.
  - split; [discriminate|]. split; [f_equal; exact Hlen|].
    intros Hruns. apply Forall_cons in Hruns as [Hrun _]. contradiction.
Qed.

Lemma main_catches_every_exception_witness :
  main (crawler_of_window 0 (day 1)) (fun _ _ => network_without_link)
       never_interrupted 1000 1000 (fun _ => day 2) (-1) (-1) (-1) (-1)
       [str "octocat/Hello-World"; str "octocat"] empty_world
  = (Returns [(KeyError, str "octocat", str "Hello-World");
              (KeyError, str "octoca", str "octocat")],
     World [ListPage Pulls 1; ListPage Pulls 1] []).
Proof.
  apply (proj2 (proj2 (main_catches_every_exception
           (crawler_of_window 0 (day 1)) (fun _ _ => network_without_link)
           never_interrupted 1000 1000 (fun _ => day 2) (-1) (-1) (-1) (-1)
           [str "octocat/Hello-World"; str "octocat"] empty_world))).
  vm_compute. repeat constructor; discriminate.
Defined.

(** Two names given to [main], the second without a slash, for a server
    that sends no [Link] header: both crawls raise [KeyError] after one
    request, the second for the owner [octoca], and [main] returns. *)
Example main_goes_on_after_an_error :
  main (crawler_of_window 0 (day 1)) (fun _ _ => network_without_link)
       never_interrupted 1000 1000 (fun _ => day 2) (-1) (-1) (-1) (-1)
       [str "octocat/Hello-World"; str "octocat"] empty_world
  = (Returns [(KeyError, str "octocat", str "Hello-World");
              (KeyError, str "octoca", str "octocat")],
     World [ListPage Pulls 1; ListPage Pulls 1] []).
Proof. vm_compute. reflexivity. Qed.

(** ** The export of a repository *)

Section ExportRepoFacts.
Variable pull_files : Z -> option saved_pull.
Variable diff_files : Z -> option (list text).
Variable issue_files : Z -> option saved_issue.
Variable start_date_w end_date_w : Z.
Variable limit_rows : Z.

(** The rows written with the memo are those written without it. *)
Lemma write_rows_listing_rows (pull : saved_pull) (data : list tally)
    (ns : list Z) (acc : exported) (issue_list : gset Z) :
  fst (write_rows_listing issue_files start_date_w end_date_w limit_rows
         pull data ns acc issue_list)
  = write_rows issue_files start_date_w end_date_w limit_rows pull data ns acc.
Proof.
  revert acc issue_list. induction ns as [|n ns IH]; intros acc issue_list;
    cbn [write_rows_listing write_rows]; [reflexivity|].
  destruct (issue_files n) as [issue|]; [|reflexivity].
  destruct ((issue_created_at issue <? start_date_w)
            || (end_date_w <? issue_created_at issue)); [apply IH|].
  cbn [total_num_rows].
  destruct (total_num_rows acc + 1 =? limit_rows); [reflexivity|apply IH].
Qed.

(** A row written by the second loop stays written. *)
Lemma export_issues_keeps (issue_numbers : list Z) (issue_list : gset Z)
    (acc : exported_alone) (issue : saved_issue) :
  issue ∈ alone acc ->
  issue ∈ alone (export_issues issue_files start_date_w end_date_w limit_rows
                   issue_numbers issue_list acc).
Proof.
  revert acc. induction issue_numbers as [|k ns IH]; intros acc Hacc;
    cbn [export_issues]; [exact Hacc|].
  destruct (issue_files k) as [i|]; [|exact Hacc].
  destruct (bool_decide (k ∈ issue_list)
            || (issue_created_at i <? start_date_w)
            || (end_date_w <? issue_created_at i)); [apply IH; exact Hacc|].
  cbn [alone alone_total_num_rows].
  destruct (alone_total_num_rows acc + 1 =? limit_rows);
    [|apply IH]; cbn [alone]; apply elem_of_app; left; exact Hacc.
Qed.

(** Every number the memo holds is the name of an issue file whose issue
    has a row with a pull. *)
Lemma write_rows_listing_listed (pull : saved_pull) (data : list tally)
    (ns : list Z) (acc : exported) (issue_list : gset Z) :
  (forall n, n ∈ issue_list ->
     exists issue x, issue_files n = Some issue /\ x ∈ rows acc
                     /\ row_issue x = issue_number_of issue) ->
  let r := write_rows_listing issue_files start_date_w end_date_w limit_rows
             pull data ns acc issue_list in
  forall n, n ∈ snd r ->
    exists issue x, issue_files n = Some issue /\ x ∈ rows (fst r)
                    /\ row_issue x = issue_number_of issue.
Proof.
  revert acc issue_list. induction ns as [|n ns IH]; intros acc issue_list Hacc;
    cbn [write_rows_listing]; [exact Hacc|].
  destruct (issue_files n) as [issue|] eqn:Hn; [|exact Hacc].
  destruct ((issue_created_at issue <? start_date_w)
            || (end_date_w <? issue_created_at issue)); [apply IH; exact Hacc|].
  cbn [prints rows total_num_rows].
  assert (Hnew : forall p t l e m, m ∈ {[n]} ∪ issue_list ->
            exists i x, issue_files m = Some i
              /\ x ∈ rows (Exported p (rows acc ++ [_dataset_row issue pull data]) t l e)
              /\ row_issue x = issue_number_of i).
  { intros p t l e m Hm. cbn [rows].
    apply elem_of_union in Hm as [Hm|Hm].
    - apply elem_of_singleton in Hm. subst m.
      exists issue, (_dataset_row issue pull data). split; [exact Hn|].
      split; [|reflexivity]. apply elem_of_app. right. apply list_elem_of_here.
    - destruct (Hacc m Hm) as (i & x & Hi & Hx & Hnum).
      exists i, x. split; [exact Hi|]. split; [|exact Hnum].
      apply elem_of_app. left. exact Hx. }
  destruct (total_num_rows acc + 1 =? limit_rows); [apply Hnew|].
  apply IH. apply Hnew.
Qed.

Lemma export_pulls_listed (pull_numbers : list Z) (acc : exported)
    (issue_list : gset Z) :
  (forall n, n ∈ issue_list ->
     exists issue x, issue_files n = Some issue /\ x ∈ rows acc
                     /\ row_issue x = issue_number_of issue) ->
  let r := export_pulls pull_files diff_files issue_files start_date_w end_date_w
             limit_rows pull_numbers acc issue_list in
  forall n, n ∈ snd r ->
    exists issue x, issue_files n = Some issue /\ x ∈ rows (fst r)
                    /\ row_issue x = issue_number_of issue.
Proof.
  revert acc issue_list. induction pull_numbers as [|p ps IH];
    intros acc issue_list Hacc; cbn [export_pulls]; [exact Hacc|].
  destruct (pull_files p) as [pull|]; [|exact Hacc].
  destruct ((saved_created_at pull <? start_date_w)
            || (end_date_w <? saved_created_at pull)); [apply IH; exact Hacc|].
  destruct (diff_files p) as [diff|]; [|exact Hacc].
  match goal with |- context [write_rows_listing _ _ _ _ ?pl ?d ?ns ?acc' ?il] =>
    pose proof (write_rows_listing_listed pl d ns acc' il Hacc) as Hstep;
    destruct (write_rows_listing issue_files start_date_w end_date_w limit_rows
                pl d ns acc' il) as [acc1 il1] end.
  cbn [fst snd] in *.
  destruct (limit_reached acc1 || bool_decide (is_Some (raised acc1)));
    [exact Hstep|apply IH; exact Hstep].
Qed.

(** When the second loop runs to its end, it writes every issue of the
    window whose number the memo does not hold. *)
Lemma export_issues_writes (issue_numbers : list Z) (issue_list : gset Z)
    (acc : exported_alone) :
  let r := export_issues issue_files start_date_w end_date_w limit_rows
             issue_numbers issue_list acc in
  alone_limit_reached acc = false -> alone_raised acc = None ->
  alone_limit_reached r = false -> alone_raised r = None ->
  forall n issue, n ∈ issue_numbers -> issue_files n = Some issue ->
    start_date_w <= issue_created_at issue <= end_date_w ->
    n ∈ issue_list \/ issue ∈ alone r.
Proof.
  revert acc. induction issue_numbers as [|n ns IH]; intros acc; cbn [export_issues].
  { intros _ _ _ _ m issue Hm. inversion Hm. }
  destruct (issue_files n) as [issue|] eqn:Hn.
  2:{ cbn [alone alone_raised]. discriminate. }
  destruct (bool_decide (n ∈ issue_list)) eqn:Hlisted; cbn [orb].
  { apply bool_decide_eq_true in Hlisted.
    intros Ha1 Ha2 Hr1 Hr2 m i Hm Hfile Hwin.
    apply elem_of_cons in Hm as [->|Hm]; [left; exact Hlisted|].
    exact (IH acc Ha1 Ha2 Hr1 Hr2 m i Hm Hfile Hwin). }
  destruct ((issue_created_at issue <? start_date_w)
            || (end_date_w <? issue_created_at issue)) eqn:Hout.
  { intros Ha1 Ha2 Hr1 Hr2 m i Hm Hfile Hwin.
    apply elem_of_cons in Hm as [->|Hm].
    + rewrite Hn in Hfile. injection Hfile as <-.
      apply orb_true_iff in Hout as [Hout|Hout]; apply Z.ltb_lt in Hout; lia.
    + exact (IH acc Ha1 Ha2 Hr1 Hr2 m i Hm Hfile Hwin). }
  cbn [alone alone_total_num_rows].
  destruct (alone_total_num_rows acc + 1 =? limit_rows).
  { cbn [alone alone_limit_reached]. discriminate. }
  intros Ha1 Ha2 Hr1 Hr2 m i Hm Hfile Hwin.
  apply elem_of_cons in Hm as [->|Hm].
  + rewrite Hn in Hfile. injection Hfile as <-. right.
    apply export_issues_keeps. apply elem_of_app. right. apply list_elem_of_here.
  + exact (IH (ExportedAlone (alone acc ++ [issue]) (alone_total_num_rows acc + 1)
                              false None)
              eq_refl eq_refl Hr1 Hr2 m i Hm Hfile Hwin).
Qed.

(** X25.  When the export of a repository runs to its end (no limit
    reached, no file missing), every issue file of the repository whose
    issue was created inside the window is written, whatever number the
    file holds: that number stands in a row with a pull, or else the issue
    has a row of its own. *)
Theorem every_issue_of_the_window_is_written (pull_numbers issue_numbers : list Z)
    (total : Z) :
  let r := export_repo pull_files diff_files issue_files start_date_w end_date_w
             limit_rows pull_numbers issue_numbers total in
  limit_reached (fst r) = false -> raised (fst r) = None ->
  alone_limit_reached (snd r) = false -> alone_raised (snd r) = None ->
  Forall (fun n => forall issue,
            issue_files n = Some issue ->
            start_date_w <= issue_created_at issue <= end_date_w ->
            (exists x, x ∈ rows (fst r) /\ row_issue x = issue_number_of issue)
            \/ issue ∈ alone (snd r))
         issue_numbers.
Proof.
  intros r Hlimit0 Hraised0 Hlimit1 Hraised1. apply Forall_forall.
  intros n Hn issue Hfile Hwin.
  revert Hlimit0 Hraised0 Hlimit1 Hraised1 n issue Hn Hfile Hwin.
  subst r. unfold export_repo.
  pose proof (export_pulls_listed pull_numbers (Exported [] [] total false None) ∅)
    as Hlisted.
  destruct (export_pulls pull_files diff_files issue_files start_date_w end_date_w
              limit_rows pull_numbers (Exported [] [] total false None) ∅)
    as [acc issue_list].
  cbn [fst snd] in *.
  assert (Hl : forall n, n ∈ issue_list ->
            exists issue x, issue_files n = Some issue /\ x ∈ rows acc
                            /\ row_issue x = issue_number_of issue).
  { apply Hlisted. intros n Hn. inversion Hn. }
  destruct (limit_reached acc || bool_decide (is_Some (raised acc))) eqn:Hstop;
    cbn [fst snd]; intros Hlimit Hraised.
  { rewrite Hlimit, Hraised, bool_decide_eq_false_2 in Hstop
      by (intros [? ?]; discriminate).
    discriminate. }
  intros Hlimit2 Hraised2 n issue Hn Hfile Hwin.
  destruct (export_issues_writes issue_numbers issue_list
              (ExportedAlone [] (total_num_rows acc) false None)
              eq_refl eq_refl Hlimit2 Hraised2 n issue Hn Hfile Hwin) as [Hin|Hin];
    [left|right; exact Hin].
  destruct (Hl n Hin) as (i & x & Hi & Hx & Hnum).
  rewrite Hfile in Hi. injection Hi as <-. exists x. auto.
Qed.

Hypothesis numbered : forall n issue,
  issue_files n = Some issue -> issue_number_of issue = n.

Lemma write_rows_listing_lists (pull : saved_pull) (data : list tally)
    (ns : list Z) (acc : exported) (issue_list : gset Z) :
  lists_the_rows acc issue_list ->
  let r := write_rows_listing issue_files start_date_w end_date_w limit_rows
             pull data ns acc issue_list in
  lists_the_rows (fst r) (snd r).
Proof.
  revert acc issue_list. induction ns as [|n ns IH]; intros acc issue_list Hacc;
    cbn [write_rows_listing]; [exact Hacc|].
  destruct (issue_files n) as [issue|] eqn:Hn; [|exact Hacc].
  destruct ((issue_created_at issue <? start_date_w)
            || (end_date_w <? issue_created_at issue)); [apply IH; exact Hacc|].
  cbn [prints rows total_num_rows].
  assert (Hnew : forall p t l e,
            lists_the_rows
              (Exported p (rows acc ++ [_dataset_row issue pull data]) t l e)
              ({[n]} ∪ issue_list)).
  { intros p t l e m. cbn [rows]. rewrite elem_of_union, elem_of_singleton, (Hacc m).
    split.
    - intros [->|(x & Hx & Hm)].
      + exists (_dataset_row issue pull data). split.
        * apply elem_of_app. right. apply list_elem_of_here.
        * cbn. apply numbered. exact Hn.
      + exists x. split; [apply elem_of_app; left; exact Hx|exact Hm].
    - intros (x & Hx & Hm). apply elem_of_app in Hx as [Hx|Hx].
      + right. exists x. auto.
      + apply list_elem_of_singleton in Hx. subst x. left.
        rewrite <- Hm. cbn. apply numbered. exact Hn. }
  destruct (total_num_rows acc + 1 =? limit_rows); [apply Hnew|].
  apply IH. apply Hnew.
Qed.

Lemma export_pulls_lists (pull_numbers : list Z) (acc : exported)
    (issue_list : gset Z) :
  lists_the_rows acc issue_list ->
  let r := export_pulls pull_files diff_files issue_files start_date_w end_date_w
             limit_rows pull_numbers acc issue_list in
  lists_the_rows (fst r) (snd r).
Proof.
  revert acc issue_list. induction pull_numbers as [|p ps IH];
    intros acc issue_list Hacc; cbn [export_pulls]; [exact Hacc|].
  destruct (pull_files p) as [pull|]; [|exact Hacc].
  destruct ((saved_created_at pull <? start_date_w)
            || (end_date_w <? saved_created_at pull)); [apply IH; exact Hacc|].
  destruct (diff_files p) as [diff|]; [|exact Hacc].
  match goal with |- context [write_rows_listing _ _ _ _ ?pl ?d ?ns ?acc' ?il] =>
    pose proof (write_rows_listing_lists pl d ns acc' il Hacc) as Hstep;
    destruct (write_rows_listing issue_files start_date_w end_date_w limit_rows
                pl d ns acc' il) as [acc1 il1] end.
  cbn [fst snd] in *.
  destruct (limit_reached acc1 || bool_decide (is_Some (raised acc1)));
    [exact Hstep|apply IH; exact Hstep].
Qed.

(** What the second loop writes, and what it leaves out when it runs to
    its end. *)
Lemma export_issues_alone (issue_numbers : list Z) (issue_list : gset Z)
    (acc : exported_alone) :
  let r := export_issues issue_files start_date_w end_date_w limit_rows
             issue_numbers issue_list acc in
  (forall issue, issue ∈ alone r ->
     issue ∈ alone acc
     \/ ((issue_number_of issue ∉ issue_list)
         /\ issue_number_of issue ∈ issue_numbers
         /\ start_date_w <= issue_created_at issue <= end_date_w))
  /\ (alone_limit_reached acc = false -> alone_raised acc = None ->
      alone_limit_reached r = false -> alone_raised r = None ->
      forall n issue, n ∈ issue_numbers -> issue_files n = Some issue ->
        start_date_w <= issue_created_at issue <= end_date_w ->
        n ∈ issue_list \/ issue ∈ alone r).
Proof.
  revert acc. induction issue_numbers as [|n ns IH]; intros acc; cbn [export_issues].
  { split; [auto|]. intros _ _ _ _ m issue Hm. inversion Hm. }
  destruct (issue_files n) as [issue|] eqn:Hn.
  2:{ cbn [alone alone_raised]. split; [auto|]. discriminate. }
  destruct (bool_decide (n ∈ issue_list)) eqn:Hlisted; cbn [orb].
  { apply bool_decide_eq_true in Hlisted.
    destruct (IH acc) as [H1 H2]. split.
    - intros i Hi. destruct (H1 i Hi) as [?|(? & ? & ?)]; [auto|].
      right. split; [assumption|]. split; [right; assumption|assumption].
    - intros Ha1 Ha2 Hr1 Hr2 m i Hm Hfile Hwin.
      apply elem_of_cons in Hm as [->|Hm]; [left; exact Hlisted|].
      exact (H2 Ha1 Ha2 Hr1 Hr2 m i Hm Hfile Hwin). }
  apply bool_decide_eq_false in Hlisted.
  destruct ((issue_created_at issue <? start_date_w)
            || (end_date_w <? issue_created_at issue)) eqn:Hout.
  { destruct (IH acc) as [H1 H2]. split.
    - intros i Hi. destruct (H1 i Hi) as [?|(? & ? & ?)]; [auto|].
      right. split; [assumption|]. split; [right; assumption|assumption].
    - intros Ha1 Ha2 Hr1 Hr2 m i Hm Hfile Hwin.
      apply elem_of_cons in Hm as [->|Hm].
      + rewrite Hn in Hfile. injection Hfile as <-.
        apply orb_true_iff in Hout as [Hout|Hout]; apply Z.ltb_lt in Hout; lia.
      + exact (H2 Ha1 Ha2 Hr1 Hr2 m i Hm Hfile Hwin). }
  apply orb_false_iff in Hout as [Hout1 Hout2]. apply Z.ltb_ge in Hout1, Hout2.
  cbn [alone alone_total_num_rows].
  assert (Hself : (issue_number_of issue ∉ issue_list)
                  /\ issue_number_of issue ∈ n :: ns
                  /\ start_date_w <= issue_created_at issue <= end_date_w).
  { rewrite (numbered n issue Hn). split; [exact Hlisted|]. split; [left|lia]. }
  destruct (alone_total_num_rows acc + 1 =? limit_rows).
  { cbn [alone alone_limit_reached]. split; [|discriminate].
    intros i Hi. apply elem_of_app in Hi as [Hi|Hi]; [auto|].
    apply list_elem_of_singleton in Hi. subst i. right. exact Hself. }
  destruct (IH (ExportedAlone (alone acc ++ [issue]) (alone_total_num_rows acc + 1)
                              false None)) as [H1 H2].
  cbn [alone alone_limit_reached alone_raised] in H1, H2. split.
  - intros i Hi. destruct (H1 i Hi) as [Hi'|(? & ? & ?)].
    + apply elem_of_app in Hi' as [Hi'|Hi']; [auto|].
      apply list_elem_of_singleton in Hi'. subst i. right. exact Hself.
    + right. split; [assumption|]. split; [right; assumption|assumption].
  - intros Ha1 Ha2 Hr1 Hr2 m i Hm Hfile Hwin.
    apply elem_of_cons in Hm as [->|Hm].
    + rewrite Hn in Hfile. injection Hfile as <-. right.
      apply export_issues_keeps. apply elem_of_app. right. apply list_elem_of_here.
    + exact (H2 eq_refl eq_refl Hr1 Hr2 m i Hm Hfile Hwin).
Qed.

(** X24.  When the file of every issue carries the number it is named
    after, an issue that has a row with a pull gets no row of its own: no
    row of the first loop and row of the second loop carry the same issue
    number, whatever the files hold, whatever the row limit and however the
    export of the repository ends.  (An issue that several pulls link has
    a row with each of them.) *)
Theorem issue_with_a_pull_gets_no_row_of_its_own (pull_numbers issue_numbers : list Z)
    (total : Z) :
  let r := export_repo pull_files diff_files issue_files start_date_w end_date_w
             limit_rows pull_numbers issue_numbers total in
  Forall (fun x => Forall (fun issue => row_issue x <> issue_number_of issue)
                          (alone (snd r)))
         (rows (fst r)).
Proof.
  intros r. apply Forall_forall. intros x Hx. apply Forall_forall.
  intros issue Hissue Heq. subst r. unfold export_repo in Hx, Hissue.
  pose proof (export_pulls_lists pull_numbers (Exported [] [] total false None) ∅)
    as Hlists.
  destruct (export_pulls pull_files diff_files issue_files start_date_w end_date_w
              limit_rows pull_numbers (Exported [] [] total false None) ∅)
    as [acc issue_list].
  cbn [fst snd] in *.
  assert (Hl : lists_the_rows acc issue_list).
  { apply Hlists. intros n. split; [intros Hn; inversion Hn|].
    intros (y & Hy & _). inversion Hy. }
  destruct (limit_reached acc || bool_decide (is_Some (raised acc)));
    cbn [fst snd alone] in *; [inversion Hissue|].
  destruct (export_issues_alone issue_numbers issue_list
              (ExportedAlone [] (total_num_rows acc) false None)) as [H1 _].
  destruct (H1 issue Hissue) as [Hin|(Hnot & _ & _)]; [inversion Hin|].
  apply Hnot. apply Hl. exists x. auto.
Qed.

End ExportRepoFacts.

Lemma issues_1_to_10_numbered (n : Z) (issue : saved_issue) :
  issues_1_to_10 n = Some issue -> issue_number_of issue = n.
Proof.
  unfold issues_1_to_10. destruct ((1 <=? n) && (n <=? 10)); [|discriminate].
  intros [= <-]. reflexivity.
Qed.

Lemma issue_with_a_pull_gets_no_row_of_its_own_witness :
  let r := export_repo only_pull_42 empty_diff_of_42 issues_1_to_10 0 1000 0
             [42] [1; 2; 3; 4; 5; 6; 7; 8; 9; 10] 0 in
  Forall (fun x => Forall (fun issue => row_issue x <> issue_number_of issue)
                          (alone (snd r)))
         (rows (fst r)).
Proof.
  apply (issue_with_a_pull_gets_no_row_of_its_own only_pull_42 empty_diff_of_42
           issues_1_to_10 0 1000 0 issues_1_to_10_numbered
           [42] [1; 2; 3; 4; 5; 6; 7; 8; 9; 10] 0).
Defined.

Lemma every_issue_of_the_window_is_written_witness :
  let r := export_repo only_pull_42 empty_diff_of_42 issues_1_to_10 0 1000 0
             [42] [1; 2; 3; 4; 5; 6; 7; 8; 9; 10] 0 in
  Forall (fun n => forall issue,
            issues_1_to_10 n = Some issue ->
            0 <= issue_created_at issue <= 1000 ->
            (exists x, x ∈ rows (fst r) /\ row_issue x = issue_number_of issue)
            \/ issue ∈ alone (snd r))
         [1; 2; 3; 4; 5; 6; 7; 8; 9; 10].
Proof.
  apply (every_issue_of_the_window_is_written only_pull_42 empty_diff_of_42
           issues_1_to_10 0 1000 0
           [42] [1; 2; 3; 4; 5; 6; 7; 8; 9; 10] 0); reflexivity.
Defined.

(** A repository of one pull and ten issues: the issues 7, 8 and 9 are
    written with pull 42, the seven others alone, and the rows are
    counted together. *)
Example export_of_a_repository :
  let r := export_repo only_pull_42 empty_diff_of_42 issues_1_to_10 0 1000 0
             [42] [1; 2; 3; 4; 5; 6; 7; 8; 9; 10] 0 in
  (fun x => (row_pull x, row_issue x)) <$> rows (fst r) = [(42, 7); (42, 8); (42, 9)]
  /\ issue_number_of <$> alone (snd r) = [1; 2; 3; 4; 5; 6; 10]
  /\ alone_total_num_rows (snd r) = 10.
Proof. vm_compute. repeat split; reflexivity. Qed.

(** ** The pages the boundary search probes *)

Lemma within_weaken {A} (s : stream) (P Q : Z -> Prop) (m : M A) (w : world) :
  (forall q, P q -> Q q) -> asks_pages_within s P m w -> asks_pages_within s Q m w.
Proof.
  intros HPQ (qs & Hqs & HP). exists qs. split; [exact Hqs|].
  eapply Forall_impl; [exact HP|exact HPQ].
Qed.

(** X26.  Called on an interval of pages, either search probes only
    pages of that interval, at whatever depth it is cut off and however
    it ends: no page before the first or beyond the last page announced
    is asked for. *)
Theorem boundary_search_probes_within_its_interval (self : Crawler) (net : network)
    (s : stream) (depth : nat) (a b : Z) (w : world) :
  a <= b ->
  asks_pages_within s (fun q => a <= q <= b) (_find_start_page self net depth s a b) w
  /\ asks_pages_within s (fun q => a <= q <= b) (_find_end_page self net depth s a b) w.
Proof.
  revert a b w. induction depth as [|depth IH]; intros a b w Hab.
  { split; apply within_unfinished. }
  pose proof (round_half_between a b Hab) as Hmid.
  split.
  - cbn [_find_start_page]. apply within_bind; [apply within_get_json_page; exact Hmid|].
    intros [[|p0 ps]|] w1 _; try (apply within_of_no_page, asks_no_page_raise).
    destruct (a =? b).
    { destruct (_ <? _); apply within_of_no_page, asks_no_page_ret. }
    destruct (start_date self <? created_at p0).
    { eapply within_weaken; [|apply (IH a (round_half (a + b)) w1); lia].
      cbn. lia. }
    destruct (_ <? _); [|apply within_of_no_page, asks_no_page_ret].
    eapply within_weaken; [|apply (IH (round_half (a + b)) b w1); lia].
    cbn. lia.
  - cbn [_find_end_page]. apply within_bind; [apply within_get_json_page; exact Hmid|].
    intros [[|p0 ps]|] w1 _; try (apply within_of_no_page, asks_no_page_raise).
    destruct (a =? b).
    { destruct (_ <? _); apply within_of_no_page, asks_no_page_ret. }
    destruct (end_date self <? created_at p0).
    { eapply within_weaken; [|apply (IH a (round_half (a + b)) w1); lia].
      cbn. lia. }
    destruct (_ <? _); [|apply within_of_no_page, asks_no_page_ret].
    eapply within_weaken; [|apply (IH (round_half (a + b)) b w1); lia].
    cbn. lia.
Qed.

Lemma boundary_search_probes_within_its_interval_witness :
  let self := crawler_of_window (day 16050) (day 16050) in
  let net := network_of_pages three_pages in
  asks_pages_within Pulls (fun q => 1 <= q <= 3)
    (_find_start_page self net 1000 Pulls 1 3) empty_world
  /\ asks_pages_within Pulls (fun q => 1 <= q <= 3)
       (_find_end_page self net 1000 Pulls 1 3) empty_world.
Proof.
  intros self net.
  apply (boundary_search_probes_within_its_interval self net Pulls 1000 1 3 empty_world).
  discriminate.
Defined.

(** ** The row limit over a repository *)

Section ExportRepoLimit.
Variable pull_files : Z -> option saved_pull.
Variable diff_files : Z -> option (list text).
Variable issue_files : Z -> option saved_issue.
Variable start_date_w end_date_w : Z.
Variable limit_rows : Z.

Lemma export_pulls_up_to_the_limit (pull_numbers : list Z) (acc : exported)
    (issue_list : gset Z) :
  total_num_rows acc < limit_rows ->
  let r := fst (export_pulls pull_files diff_files issue_files start_date_w
                  end_date_w limit_rows pull_numbers acc issue_list) in
  total_num_rows r <= limit_rows
  /\ total_num_rows r - total_num_rows acc
     = Z.of_nat (length (rows r)) - Z.of_nat (length (rows acc))
  /\ (total_num_rows r = limit_rows -> limit_reached r = true).
Proof.
  revert acc issue_list. induction pull_numbers as [|p ps IH];
    intros acc issue_list Hlt; cbn [export_pulls].
  { cbn [fst]. repeat split; lia. }
  destruct (pull_files p) as [pull|];
    [|cbn [fst total_num_rows rows]; repeat split; lia].
  destruct ((saved_created_at pull <? start_date_w)
            || (end_date_w <? saved_created_at pull)); [apply IH; exact Hlt|].
  destruct (diff_files p) as [diff|];
    [|cbn [fst total_num_rows rows]; repeat split; lia].
  match goal with |- context [write_rows_listing _ _ _ _ ?pl ?d ?ns ?acc' ?il] =>
    pose proof (write_rows_listing_rows issue_files start_date_w end_date_w
                  limit_rows pl d ns acc' il) as Hrows;
    destruct (write_rows_up_to_the_limit issue_files start_date_w end_date_w
                limit_rows pl d ns acc' Hlt eq_refl) as (H1 & H2 & H3);
    destruct (write_rows_listing issue_files start_date_w end_date_w limit_rows
                pl d ns acc' il) as [acc1 il1] end.
  cbn [fst snd] in *. rewrite <- Hrows in H1, H2, H3.
  cbn [total_num_rows rows] in H2.
  destruct (limit_reached acc1) eqn:Hl; cbn [orb fst].
  { repeat split; [lia|lia|intros _; exact Hl]. }
  assert (Hbelow : total_num_rows acc1 < limit_rows).
  { destruct (Z.eq_dec (total_num_rows acc1) limit_rows) as [Heq|]; [|lia].
    apply H3 in Heq. discriminate. }
  destruct (bool_decide (is_Some (raised acc1))); cbn [fst].
  { repeat split; lia. }
  destruct (IH acc1 il1 Hbelow) as (H4 & H5 & H6).
  repeat split; [lia|lia|exact H6].
Qed.

Lemma export_issues_up_to_the_limit (issue_numbers : list Z) (issue_list : gset Z)
    (acc : exported_alone) :
  alone_total_num_rows acc < limit_rows ->
  let r := export_issues issue_files start_date_w end_date_w limit_rows
             issue_numbers issue_list acc in
  alone_total_num_rows r <= limit_rows
  /\ alone_total_num_rows r - alone_total_num_rows acc
     = Z.of_nat (length (alone r)) - Z.of_nat (length (alone acc)).
Proof.
  revert acc. induction issue_numbers as [|n ns IH]; intros acc Hlt;
    cbn [export_issues]; [lia|].
  destruct (issue_files n) as [issue|]; [|cbn [alone_total_num_rows alone]; lia].
  destruct (bool_decide (n ∈ issue_list)
            || (issue_created_at issue <? start_date_w)
            || (end_date_w <? issue_created_at issue)); [apply IH; exact Hlt|].
  cbn [alone alone_total_num_rows].
  destruct (Z.eqb_spec (alone_total_num_rows acc + 1) limit_rows).
  - cbn [alone alone_total_num_rows]. rewrite length_app. cbn [length]. lia.
  - match goal with |- context [export_issues _ _ _ _ ns _ ?acc'] =>
      destruct (IH acc') as [H1 H2] end; [cbn [alone_total_num_rows]; lia|].
    cbn [alone alone_total_num_rows] in H2. rewrite length_app in H2.
    cbn [length] in H2. lia.
Qed.

(** X27.  With a row limit above the number of rows already written, the
    export of a repository counts every row it writes, with a pull or
    alone, and never takes the count past the limit. *)
Theorem repository_export_stops_at_the_limit (pull_numbers issue_numbers : list Z)
    (total : Z) :
  total < limit_rows ->
  let r := export_repo pull_files diff_files issue_files start_date_w end_date_w
             limit_rows pull_numbers issue_numbers total in
  alone_total_num_rows (snd r)
  = total + Z.of_nat (length (rows (fst r))) + Z.of_nat (length (alone (snd r)))
  /\ alone_total_num_rows (snd r) <= limit_rows.
Proof.
  intros Hlt r. subst r. unfold export_repo.
  destruct (export_pulls_up_to_the_limit pull_numbers
              (Exported [] [] total false None) ∅ Hlt) as (H1 & H2 & H3).
  destruct (export_pulls pull_files diff_files issue_files start_date_w end_date_w
              limit_rows pull_numbers (Exported [] [] total false None) ∅)
    as [acc issue_list].
  cbn [fst snd total_num_rows rows length] in *.
  destruct (limit_reached acc) eqn:Hl; cbn [orb fst snd alone alone_total_num_rows length].
  { lia. }
  destruct (bool_decide (is_Some (raised acc)));
    cbn [fst snd alone alone_total_num_rows length]; [lia|].
  assert (Hbelow : total_num_rows acc < limit_rows).
  { destruct (Z.eq_dec (total_num_rows acc) limit_rows) as [Heq|]; [|lia].
    apply H3 in Heq. discriminate. }
  destruct (export_issues_up_to_the_limit issue_numbers issue_list
              (ExportedAlone [] (total_num_rows acc) false None) Hbelow) as [H4 H5].
  cbn [alone alone_total_num_rows length] in H5. lia.
Qed.

End ExportRepoLimit.

Lemma repository_export_stops_at_the_limit_witness :
  let r := export_repo only_pull_42 empty_diff_of_42 issues_1_to_10 0 1000 5
             [42] [1; 2; 3; 4; 5; 6; 7; 8; 9; 10] 0 in
  alone_total_num_rows (snd r)
  = 0 + Z.of_nat (length (rows (fst r))) + Z.of_nat (length (alone (snd r)))
  /\ alone_total_num_rows (snd r) <= 5.
Proof.
  apply (repository_export_stops_at_the_limit only_pull_42 empty_diff_of_42
           issues_1_to_10 0 1000 5 [42] [1; 2; 3; 4; 5; 6; 7; 8; 9; 10] 0).
  reflexivity.
Defined.

(** With a limit of five rows the three rows of pull 42 are followed by
    the rows of the issues 1 and 2 only. *)
Example export_with_a_limit_of_five :
  let r := export_repo only_pull_42 empty_diff_of_42 issues_1_to_10 0 1000 5
             [42] [1; 2; 3; 4; 5; 6; 7; 8; 9; 10] 0 in
  row_issue <$> rows (fst r) = [7; 8; 9]
  /\ issue_number_of <$> alone (snd r) = [1; 2]
  /\ alone_limit_reached (snd r) = true.
Proof. vm_compute. repeat split; reflexivity. Qed.

(** ** Lines outside any file *)

Lemma attribute_headerless_lines (diff : list text) (a d : Z) :
  Forall (fun l => re_match _diff_file_pattern l = None) diff ->
  fold_left attribute_line diff
    (Attribution (replicate 8 (Tally 0 0 0) ++ [Tally 0 a d]) 8 [])
  = Attribution (replicate 8 (Tally 0 0 0)
                 ++ [Tally 0 (a + count_lines "+" diff) (d + count_lines "-" diff)])
                8 [].
Proof.
  intros Hdiff. revert a d. induction Hdiff as [|l diff Hl _ IH]; intros a d.
  { cbn [fold_left]. change (count_lines "+" []) with 0.
    change (count_lines "-" []) with 0. rewrite !Z.add_0_r. reflexivity. }
  cbn [fold_left]. rewrite !count_lines_cons.
  assert (Hstep :
    attribute_line (Attribution (replicate 8 (Tally 0 0 0) ++ [Tally 0 a d]) 8 []) l
    = Attribution (replicate 8 (Tally 0 0 0)
                   ++ [Tally 0 (a + (if counts_as "+" l then 1 else 0))
                               (d + (if counts_as "-" l then 1 else 0))]) 8 []).
  { unfold attribute_line. rewrite Hl.
    change (startswith l (str "+") && negb (is_anchor l)) with (counts_as "+" l).
    change (startswith l (str "-") && negb (is_anchor l)) with (counts_as "-" l).
    destruct (counts_as "+" l) eqn:Hplus;
      [rewrite (added_is_not_removed l Hplus)|destruct (counts_as "-" l)];
      cbn; rewrite ?Z.add_0_r; reflexivity. }
  rewrite Hstep, IH. do 3 f_equal. f_equal; lia.
Qed.

(** X28.  The lines of a diff in which no line is a file header are all
    attributed to the last section, [other]: it is the section in force
    before any header is met, and no file is counted. *)
Theorem headerless_lines_go_to_other (diff : list text) :
  Forall (fun l => re_match _diff_file_pattern l = None) diff ->
  _get_section_changes diff
  = replicate 8 (Tally 0 0 0)
    ++ [Tally 0 (count_lines "+" diff) (count_lines "-" diff)].
Proof.
  intros Hdiff. unfold _get_section_changes.
  change initial_attribution
    with (Attribution (replicate 8 (Tally 0 0 0) ++ [Tally 0 0 0]) 8 []).
  rewrite (attribute_headerless_lines diff 0 0 Hdiff). reflexivity.
Qed.

Lemma headerless_lines_go_to_other_witness :
  _get_section_changes [line "+++ b/src/a.py"; line "+x"; line "-y"; line " z"]
  = replicate 8 (Tally 0 0 0)
    ++ [Tally 0 (count_lines "+" [line "+++ b/src/a.py"; line "+x"; line "-y"; line " z"])
                (count_lines "-" [line "+++ b/src/a.py"; line "+x"; line "-y"; line " z"])].
Proof.
  apply (headerless_lines_go_to_other
           [line "+++ b/src/a.py"; line "+x"; line "-y"; line " z"]).
  repeat constructor.
Defined.

(** ** Waiting for the rate limit *)

(** X29.  A run of rate-limited answers none of which names a reset time
    more than a second in the past is waited out without a try being
    used: for each of them the fetch sleeps [reset - now + 1] seconds, which
    takes the clock to one second after the reset time, and asks again; the
    accepted answer that follows is returned with [True] whatever the budget
    of tries and whatever the number of tries used before, and when nothing
    follows the fetch is still waiting after the same sleeps. *)
Theorem rate_limited_answers_are_waited_out (self : Crawler) (fuel : nat)
    (tries now : Z) (naps : list Z) (rs : list response) (resets : list Z)
    (r : response) (rest : list attempt) :
  Forall2 rate_limited rs resets ->
  Forall (Z.le 0) (ratelimit_waits now resets) ->
  accepted r ->
  _get_loop (S fuel) self tries (Wire now naps ((Answers <$> rs) ++ Answers r :: rest))
  = (Returns (Full r, true),
     Wire (clock_after now resets) (naps ++ ratelimit_waits now resets) rest)
  /\ _get_loop (S fuel) self tries (Wire now naps (Answers <$> rs))
     = (Unfinished,
        Wire (clock_after now resets) (naps ++ ratelimit_waits now resets) []).
Proof.
  intros Hrs Hwaits [Hok Hmsg]. split.
  - cbn [_get_loop script clock slept].
    rewrite (_try_to_get_waits_out now naps rs resets _ Hrs Hwaits).
    cbn [_try_to_get]. rewrite Hok, Hmsg. reflexivity.
  - pose proof (_try_to_get_waits_out now naps rs resets [] Hrs Hwaits) as Htry.
    rewrite app_nil_r in Htry.
    cbn [_get_loop script clock slept]. rewrite Htry. reflexivity.
Qed.

Lemma rate_limited_answers_are_waited_out_witness :
  let self := crawler_of_window 0 0 in
  _get_loop 1 self 99
    (Wire 1000 [] ((Answers <$> [quota_exhausted 1060; quota_exhausted 4660])
                   ++ [Answers ok_response]))
  = (Returns (Full ok_response, true), Wire 4661 [61; 3600] [])
  /\ _get_loop 1 self 99
       (Wire 1000 [] (Answers <$> [quota_exhausted 1060; quota_exhausted 4660]))
     = (Unfinished, Wire 4661 [61; 3600] []).
Proof.
  intros self.
  apply (rate_limited_answers_are_waited_out self 0 99 1000 []
           [quota_exhausted 1060; quota_exhausted 4660] [1060; 4660]
           ok_response []).
  - repeat constructor; cbn; lia.
  - repeat constructor; cbn; lia.
  - split; reflexivity.
Defined.
